(** * Serial console log ring and framed-request extraction

    A shallow embedding of the serial subsystem of the CLI:
    - [Js]: the JavaScript string and array primitives the code relies on
      ([slice], [indexOf], [split], [findIndex], [trim], [parseInt]);
    - [SerialConsole]: packages/cli/src/subsystems/serialConsole.ts;
    - [Cli]: the [/serial] slash command and the serial data handler that
      feeds the shared [recentLogs] array;
    - [Framing]: the marker-based extraction steps and polling loops of the
      device-info, driver-info, device-tree and real-time-analysis tools.

    JavaScript strings are modelled as lists of 8-bit code units, which
    covers the Latin-1 range a serial console delivers. *)

From Stdlib Require Import ZArith Lia Ascii String.
From stdpp Require Import base list gmap strings.

Local Open Scope Z_scope.
Local Open Scope list_scope.

(* ===================================================================== *)
(** ** JavaScript primitives *)
(* ===================================================================== *)

Module Js.

(** A JavaScript string, as its sequence of code units. *)
Abbreviation jsstring := (list ascii).

(** Literals: [js "abc"] is the JavaScript string 'abc'. *)
Definition js (s : string) : jsstring := list_ascii_of_string s.

Definition LF : ascii := ascii_of_nat 10.
Definition CR : ascii := ascii_of_nat 13.

(** Relative index of [Array.prototype.slice] and [String.prototype.slice]:
    a negative index counts from the end, and the result is clamped to
    [0, len]. *)
Definition rel_index (len : nat) (i : Z) : nat :=
  if i <? 0 then Z.to_nat (Z.max (Z.of_nat len + i) 0)
  else Nat.min (Z.to_nat i) len.

(** [l.slice(start, end)] *)
Definition slice {A} (l : list A) (start end_ : Z) : list A :=
  let k := rel_index (length l) start in
  let f := rel_index (length l) end_ in
  take (f - k) (drop k l).

(** [l.slice(start)] *)
Definition slice_from {A} (l : list A) (start : Z) : list A :=
  drop (rel_index (length l) start) l.

(** [lines.join(sep)] *)
Fixpoint join (sep : jsstring) (ls : list jsstring) : jsstring :=
  match ls with
  | [] => []
  | [l] => l
  | l :: rest => l ++ sep ++ join sep rest
  end.

(** Does [s] begin with [pat]? *)
Fixpoint starts_with (pat s : jsstring) : bool :=
  match pat, s with
  | [], _ => true
  | _ :: _, [] => false
  | p :: pat', c :: s' => bool_decide (p = c) && starts_with pat' s'
  end.

(** Left-to-right scan for [pat]; [k] is the absolute position of the head
    of [s]. *)
Fixpoint index_from (pat s : jsstring) (k : nat) : option nat :=
  if starts_with pat s then Some k
  else match s with
       | [] => None
       | _ :: s' => index_from pat s' (S k)
       end.

(** [s.indexOf(pat, from)]; [None] stands for the result [-1]. *)
Definition indexOf (pat s : jsstring) (from : nat) : option nat :=
  index_from pat (drop from s) (Nat.min from (length s)).

(** [s.includes(pat)] *)
Definition includes (pat s : jsstring) : bool :=
  bool_decide (is_Some (indexOf pat s 0)).

(** [s.split(sep)] for a non-empty string separator: the pieces between
    the successive non-overlapping occurrences of [sep]. Every occurrence
    consumes at least one code unit, so [length s] rounds are enough. *)
Fixpoint split_fuel (n : nat) (sep s : jsstring) : list jsstring :=
  match n with
  | O => [s]
  | S n' =>
      match indexOf sep s 0 with
      | None => [s]
      | Some i => take i s :: split_fuel n' sep (drop (i + length sep) s)
      end
  end.

Definition split (sep s : jsstring) : list jsstring :=
  split_fuel (length s) sep s.

(** [arr.findIndex((x, i) => p x i)]; [None] stands for [-1]. *)
Fixpoint findIndex_from {A} (p : A -> nat -> bool) (l : list A) (i : nat)
  : option nat :=
  match l with
  | [] => None
  | x :: l' => if p x i then Some i else findIndex_from p l' (S i)
  end.

Definition findIndex {A} (p : A -> nat -> bool) (l : list A) : option nat :=
  findIndex_from p l 0.

(** White space and line terminators stripped by [trim], in the Latin-1
    range: TAB, LF, VT, FF, CR, SP and NBSP. *)
Definition is_ws (c : ascii) : bool :=
  match nat_of_ascii c with
  | 9 | 10 | 11 | 12 | 13 | 32 | 160 => true
  | _ => false
  end%nat.

Fixpoint trimStart (s : jsstring) : jsstring :=
  match s with
  | [] => []
  | c :: s' => if is_ws c then trimStart s' else s
  end.

Definition trimEnd (s : jsstring) : jsstring := rev (trimStart (rev s)).

Definition trim (s : jsstring) : jsstring := trimEnd (trimStart s).

(** *** Numbers

    The numbers of the code are array lengths and indices, clock values,
    and what [parseInt] returns: the integer it read, rounded to the
    nearest double with ties to even, an infinity when that is beyond the
    finite range, or [NaN]. A Number with an integral value is kept as the
    integer it denotes;
    [+Infinity] and [-Infinity] are kept as [Infinity] = 2^1024 and its
    opposite, which no finite double equals; [NaN] is [None]. Negation,
    the comparisons with an array length, the relative index of [slice] and
    the conversion to a 32-bit integer give for these two integers what
    JavaScript gives for the infinities. *)
Definition Infinity : Z := 2 ^ 1024.

(** The Number value for the integer [z]: exact below 2^53 in magnitude,
    otherwise the 53 leading bits rounded to nearest, ties to even. *)
Definition to_number (z : Z) : Z :=
  let a := Z.abs z in
  if a <? 2 ^ 53 then z
  else
    let e := Z.log2 a - 52 in
    let q := Z.shiftr a e in
    let r := a - Z.shiftl q e in
    let half := 2 ^ (e - 1) in
    let q' := if (half <? r) || ((r =? half) && Z.odd q) then q + 1 else q in
    let v := Z.shiftl q' e in
    Z.sgn z * (if Infinity <=? v then Infinity else v).

(** Decimal digit value of a code unit. *)
Definition digit_val (c : ascii) : option Z :=
  let n := nat_of_ascii c in
  if (48 <=? n)%nat && (n <=? 57)%nat then Some (Z.of_nat (n - 48)) else None.

(** [\d]: a decimal digit. *)
Definition is_digit (c : ascii) : Prop := is_Some (digit_val c).

Fixpoint parse_digits (acc : Z) (s : jsstring) : Z :=
  match s with
  | [] => acc
  | c :: s' =>
      match digit_val c with
      | Some d => parse_digits (acc * 10 + d) s'
      | None => acc
      end
  end.

Definition leading_digit (s : jsstring) : bool :=
  match s with
  | c :: _ => bool_decide (is_Some (digit_val c))
  | [] => false
  end.

(** The optional sign in front of the digits: whether it is a minus, and
    the text behind it. *)
Definition strip_sign (s : jsstring) : bool * jsstring :=
  match s with
  | c :: rest =>
      if bool_decide (c = "-"%char) then (true, rest)
      else if bool_decide (c = "+"%char) then (false, rest)
      else (false, s)
  | [] => (false, [])
  end.

(** [parseInt(s, 10)]: leading white space is skipped, an optional sign is
    read, then the longest run of decimal digits; what follows is ignored.
    [None] stands for [NaN] (no digit). The standard lets an implementation
    replace the digits behind the 20th by zeros before rounding; like V8,
    the model rounds the integer as it is written. *)
Definition parseInt10 (s : jsstring) : option Z :=
  let '(negative, body) := strip_sign (trimStart s) in
  if leading_digit body then
    let v := parse_digits 0 body in
    Some (to_number (if negative then - v else v))
  else None.

(** The decimal numeral of a non-negative integer, most significant digit
    first and without leading zeros, as [String(n)] renders an integer
    below 10^21 and as a user types a count. *)
Definition digit_char (d : Z) : ascii := ascii_of_nat (48 + Z.to_nat d).

Fixpoint decimal_fuel (fuel : nat) (n : Z) (acc : jsstring) : jsstring :=
  match fuel with
  | O => acc
  | S fuel' =>
      let acc' := digit_char (n mod 10) :: acc in
      if n <? 10 then acc' else decimal_fuel fuel' (n / 10) acc'
  end.

Definition decimal (n : Z) : jsstring :=
  decimal_fuel (S (Z.to_nat (Z.log2 n))) n [].

End Js.

(* ===================================================================== *)
(** ** SerialConsole (packages/cli/src/subsystems/serialConsole.ts) *)
(* ===================================================================== *)

Module SerialConsole.
Import Js.

(** The underlying serial port: what was written to it, oldest first, and
    whether [close()] was called on it. A baud rate of [None] is [NaN]. *)
Record SerialPort := mkPort {
  path : jsstring;
  baudRate : option Z;
  written : list jsstring;
  closeCalled : bool
}.

(** Events emitted to the listeners of the console. *)
Inductive event :=
| EvOpen
| EvData (data : jsstring)
| EvError (message : jsstring)
| EvClose.

Record t := mk {
  port : option SerialPort;
  isOpen : bool;
  emitted : list event
}.

(** [new SerialConsole()] *)
Definition new : t := {| port := None; isOpen := false; emitted := [] |}.

Definition emit (e : event) (c : t) : t :=
  {| port := port c; isOpen := isOpen c; emitted := emitted c ++ [e] |}.

Definition port_write (data : jsstring) (p : SerialPort) : SerialPort :=
  {| path := path p; baudRate := baudRate p;
     written := written p ++ [data]; closeCalled := closeCalled p |}.

Definition port_close (p : SerialPort) : SerialPort :=
  {| path := path p; baudRate := baudRate p;
     written := written p; closeCalled := true |}.

(** [new SerialPort({ path, baudRate }, cb)] throws a [TypeError] when
    [path] is empty; the port is then not created. *)
Definition new_port_throws (path_ : jsstring) : bool := bool_decide (path_ = []).

(** Whether [connect(path, baudRate)] throws: the constructor is reached
    only when the console is not open. *)
Definition connect_throws (path_ : jsstring) (c : t) : bool :=
  negb (isOpen c) && new_port_throws path_.

(** [connect(path, baudRate)]: the console after the call. When the
    constructor throws, [this.port] keeps its value. *)
Definition connect (path_ : jsstring) (baudRate_ : option Z) (c : t) : t :=
  if isOpen c then emit (EvError (js "Serial port already open")) c
  else if new_port_throws path_ then c
  else {| port := Some (mkPort path_ baudRate_ [] false);
          isOpen := isOpen c; emitted := emitted c |}.

(** The port's own 'open', 'data' and 'close' callbacks. *)
Definition on_port_open (c : t) : t :=
  emit EvOpen {| port := port c; isOpen := true; emitted := emitted c |}.

Definition on_port_data (data : jsstring) (c : t) : t := emit (EvData data) c.

Definition on_port_close (c : t) : t :=
  emit EvClose {| port := port c; isOpen := false; emitted := emitted c |}.

(** [send(data)]: writes [data + '\n'] when the port exists and is open,
    otherwise emits an 'error' event. *)
Definition send (data : jsstring) (c : t) : t :=
  match port c with
  | Some p =>
      if isOpen c then
        {| port := Some (port_write (data ++ [LF]) p);
           isOpen := isOpen c; emitted := emitted c |}
      else emit (EvError (js "Serial port not open")) c
  | None => emit (EvError (js "Serial port not open")) c
  end.

Definition disconnect (c : t) : t :=
  match port c with
  | Some p =>
      if isOpen c then
        {| port := Some (port_close p); isOpen := isOpen c; emitted := emitted c |}
      else c
  | None => c
  end.

(** Everything written to the port so far. *)
Definition transmitted (c : t) : list jsstring :=
  match port c with
  | Some p => written p
  | None => []
  end.

End SerialConsole.

(* ===================================================================== *)
(** ** The [/serial] command and the serial data handler *)
(* ===================================================================== *)

Module Cli.
Import Js.

Definition LOG_RING_SIZE : nat := 2000.
Definition SUMMARY_N_LINES : nat := 50.

(** Values stored as properties of [globalThis]: a reference to an array of
    the heap, or the active [SerialConsole] object. *)
Inductive gval :=
| ArrayRef (r : nat)
| SerialObj.

(** Messages posted to the worker that mirrors the serial output. *)
Inductive worker_msg :=
| WLine (data : jsstring)
| WQuit.

(** What [addMessage] is called with. *)
Inductive ui_msg :=
| Info (content : jsstring)
| InfoTail (n : Z) (output : jsstring)
| InfoSummarize (startIdx : Z) (logsToSummarize : jsstring)
| Error (content : jsstring).

(** The module-level variables of the slash-command processor, the heap of
    arrays they refer to, and the two global tables the tools read. *)
Record State := mkState {
  serial : option SerialConsole.t;
  serialWorker : option (list worker_msg);
  summaryBuf : list jsstring;
  serialHintShown : bool;
  arrays : gmap nat (list jsstring);
  recentLogs : nat;
  globalThis : gmap string gval;
  env : gmap string jsstring;
  lastCommandStartIdx : Z;
  partialSerialLine : jsstring;
  messages : list ui_msg
}.

(** Module initialisation: [recentLogs] is a fresh empty array, published
    as [globalThis.GEMINI_SERIAL_LOGS]. *)
Definition init : State :=
  {| serial := None; serialWorker := None; summaryBuf := [];
     serialHintShown := false;
     arrays := {[ 0%nat := [] ]};
     recentLogs := 0%nat;
     globalThis := {[ "GEMINI_SERIAL_LOGS"%string := ArrayRef 0 ]};
     env := ∅;
     lastCommandStartIdx := 0;
     partialSerialLine := [];
     messages := [] |}.

(** Dereference of an array reference. *)
Definition deref (st : State) (r : nat) : list jsstring :=
  default [] (arrays st !! r).

(** The contents of the array [recentLogs] refers to. *)
Definition logs (st : State) : list jsstring := deref st (recentLogs st).

(** In-place mutation of the array behind [recentLogs]. *)
Definition set_logs (l : list jsstring) (st : State) : State :=
  {| serial := serial st; serialWorker := serialWorker st;
     summaryBuf := summaryBuf st; serialHintShown := serialHintShown st;
     arrays := <[ recentLogs st := l ]> (arrays st);
     recentLogs := recentLogs st; globalThis := globalThis st; env := env st;
     lastCommandStartIdx := lastCommandStartIdx st;
     partialSerialLine := partialSerialLine st; messages := messages st |}.

Definition set_lastCommandStartIdx (i : Z) (st : State) : State :=
  {| serial := serial st; serialWorker := serialWorker st;
     summaryBuf := summaryBuf st; serialHintShown := serialHintShown st;
     arrays := arrays st; recentLogs := recentLogs st;
     globalThis := globalThis st; env := env st;
     lastCommandStartIdx := i;
     partialSerialLine := partialSerialLine st; messages := messages st |}.

Definition set_partialSerialLine (p : jsstring) (st : State) : State :=
  {| serial := serial st; serialWorker := serialWorker st;
     summaryBuf := summaryBuf st; serialHintShown := serialHintShown st;
     arrays := arrays st; recentLogs := recentLogs st;
     globalThis := globalThis st; env := env st;
     lastCommandStartIdx := lastCommandStartIdx st;
     partialSerialLine := p; messages := messages st |}.

Definition set_serial (s : option SerialConsole.t) (st : State) : State :=
  {| serial := s; serialWorker := serialWorker st;
     summaryBuf := summaryBuf st; serialHintShown := serialHintShown st;
     arrays := arrays st; recentLogs := recentLogs st;
     globalThis := globalThis st; env := env st;
     lastCommandStartIdx := lastCommandStartIdx st;
     partialSerialLine := partialSerialLine st; messages := messages st |}.

Definition set_serialWorker (w : option (list worker_msg)) (st : State) : State :=
  {| serial := serial st; serialWorker := w;
     summaryBuf := summaryBuf st; serialHintShown := serialHintShown st;
     arrays := arrays st; recentLogs := recentLogs st;
     globalThis := globalThis st; env := env st;
     lastCommandStartIdx := lastCommandStartIdx st;
     partialSerialLine := partialSerialLine st; messages := messages st |}.

Definition set_summaryBuf (b : list jsstring) (st : State) : State :=
  {| serial := serial st; serialWorker := serialWorker st;
     summaryBuf := b; serialHintShown := serialHintShown st;
     arrays := arrays st; recentLogs := recentLogs st;
     globalThis := globalThis st; env := env st;
     lastCommandStartIdx := lastCommandStartIdx st;
     partialSerialLine := partialSerialLine st; messages := messages st |}.

Definition set_serialHintShown (b : bool) (st : State) : State :=
  {| serial := serial st; serialWorker := serialWorker st;
     summaryBuf := summaryBuf st; serialHintShown := b;
     arrays := arrays st; recentLogs := recentLogs st;
     globalThis := globalThis st; env := env st;
     lastCommandStartIdx := lastCommandStartIdx st;
     partialSerialLine := partialSerialLine st; messages := messages st |}.

Definition set_globalThis (g : gmap string gval) (st : State) : State :=
  {| serial := serial st; serialWorker := serialWorker st;
     summaryBuf := summaryBuf st; serialHintShown := serialHintShown st;
     arrays := arrays st; recentLogs := recentLogs st;
     globalThis := g; env := env st;
     lastCommandStartIdx := lastCommandStartIdx st;
     partialSerialLine := partialSerialLine st; messages := messages st |}.

Definition set_env (e : gmap string jsstring) (st : State) : State :=
  {| serial := serial st; serialWorker := serialWorker st;
     summaryBuf := summaryBuf st; serialHintShown := serialHintShown st;
     arrays := arrays st; recentLogs := recentLogs st;
     globalThis := globalThis st; env := e;
     lastCommandStartIdx := lastCommandStartIdx st;
     partialSerialLine := partialSerialLine st; messages := messages st |}.

Definition addMessage (m : ui_msg) (st : State) : State :=
  {| serial := serial st; serialWorker := serialWorker st;
     summaryBuf := summaryBuf st; serialHintShown := serialHintShown st;
     arrays := arrays st; recentLogs := recentLogs st;
     globalThis := globalThis st; env := env st;
     lastCommandStartIdx := lastCommandStartIdx st;
     partialSerialLine := partialSerialLine st;
     messages := messages st ++ [m] |}.

(** [serialWorker?.postMessage(m)] *)
Definition worker_post (m : worker_msg) (st : State) : State :=
  match serialWorker st with
  | Some q => set_serialWorker (Some (q ++ [m])) st
  | None => st
  end.

(** The hint is shown once per connection (its text is abridged here). *)
Definition showSerialHint (st : State) : State :=
  if serialHintShown st then st
  else set_serialHintShown true
         (addMessage (Info (js "Serial logs are streaming in the Serial Console window")) st).

(** [getSerialLogLength()]; also the fence a sender records. *)
Definition getSerialLogLength (st : State) : Z := Z.of_nat (length (logs st)).

(** [s.search(/\r?\n/)]: position of the leftmost LF or CR LF. *)
Fixpoint search_newline_from (s : jsstring) (i : nat) : option nat :=
  match s with
  | [] => None
  | c :: s' =>
      if bool_decide (c = LF) then Some i
      else if bool_decide (c = CR) && bool_decide (head s' = Some LF) then Some i
      else search_newline_from s' (S i)
  end.

Definition search_newline (s : jsstring) : option nat := search_newline_from s 0.

(** The body of [if (line.length > 0) { ... }] in the data handler: push
    the line, then evict the excess from the head in one [splice] and move
    the saved command-start index down by the same amount. *)
Definition push_line (line : jsstring) (st : State) : State :=
  if (0 <? length line)%nat then
    let st1 := set_logs (logs st ++ [line]) st in
    if (LOG_RING_SIZE <? length (logs st1))%nat then
      let excess := (length (logs st1) - LOG_RING_SIZE)%nat in
      let st2 := set_logs (drop excess (logs st1)) st1 in
      set_lastCommandStartIdx
        (Z.max 0 (lastCommandStartIdx st2 - Z.of_nat excess)) st2
    else st1
  else st.

(** One round of the [while] loop that cuts complete lines off
    [partialSerialLine]; [None] when the loop condition fails. *)
Definition drain_step (st : State) : option State :=
  let p := partialSerialLine st in
  match search_newline p with
  | None => None
  | Some newlineIdx =>
      let line := trimEnd (slice p 0 (Z.of_nat newlineIdx)) in
      let adv :=
        if bool_decide (p !! newlineIdx = Some CR)
           && bool_decide (p !! S newlineIdx = Some LF)
        then 2%nat else 1%nat in
      Some (push_line line
              (set_partialSerialLine
                 (slice_from p (Z.of_nat (newlineIdx + adv))) st))
  end.

Fixpoint drain (fuel : nat) (st : State) : State :=
  match fuel with
  | O => st
  | S fuel' =>
      match drain_step st with
      | None => st
      | Some st' => drain fuel' st'
      end
  end.

(** The 'data' listener installed by [/serial connect]. Every round of the
    loop removes at least one code unit, so the length of the accumulated
    text bounds the number of rounds. *)
Definition on_data (data : jsstring) (st : State) : State :=
  let st0 := worker_post (WLine data) (showSerialHint st) in
  let st1 := set_partialSerialLine (partialSerialLine st0 ++ data) st0 in
  let st2 := drain (length (partialSerialLine st1)) st1 in
  let st3 := set_summaryBuf (summaryBuf st2 ++ [data]) st2 in
  if (SUMMARY_N_LINES <=? length (summaryBuf st3))%nat
  then set_summaryBuf [] st3
  else st3.

(** [/serial tail]: [const n = args ? parseInt(args, 10) || 20 : 20]. An
    absent or empty argument, [NaN] and [0] all fall back to 20; any other
    count is the Number [parseInt] returns. *)
Definition tail_count (args : option jsstring) : Z :=
  match args with
  | Some ((_ :: _) as a) =>
      match parseInt10 a with
      | Some v => if v =? 0 then 20 else v
      | None => 20
      end
  | _ => 20
  end.

(** [recentLogs.slice(-n)] *)
Definition tail_lines (n : Z) (st : State) : list jsstring :=
  slice_from (logs st) (- n).

Definition serial_tail (args : option jsstring) (st : State) : State :=
  let n := tail_count args in
  addMessage (InfoTail n (join [LF] (tail_lines n st))) st.

(** [summaryQuery.split(/\s+/)[0]] on a trimmed, non-empty query: the
    leading run of non-blank code units. *)
Fixpoint first_word (s : jsstring) : jsstring :=
  match s with
  | [] => []
  | c :: s' => if is_ws c then [] else c :: first_word s'
  end.

(** [/^\d+$/.test(w)] *)
Definition all_digits (w : jsstring) : bool :=
  bool_decide (w <> []) && forallb (fun c => bool_decide (is_Some (digit_val c))) w.

(** The index [/serial summarize] starts from, before the range check. *)
Definition summarize_requested (args : option jsstring) (st : State) : Z :=
  let trimmed := match args with Some a => trim a | None => [] end in
  let summaryQuery :=
    match trimmed with [] => js "a concise summary" | _ => trimmed end in
  let firstWord := first_word summaryQuery in
  if all_digits firstWord then default 0 (parseInt10 firstWord)
  else lastCommandStartIdx st.

(** [if (startIdx < 0 || startIdx >= recentLogs.length) startIdx = 0] *)
Definition clamp_startIdx (startIdx : Z) (st : State) : Z :=
  if (startIdx <? 0) || (Z.of_nat (length (logs st)) <=? startIdx)
  then 0 else startIdx.

Definition summarize_lines (args : option jsstring) (st : State) : list jsstring :=
  slice_from (logs st) (clamp_startIdx (summarize_requested args st) st).

Definition serial_summarize (args : option jsstring) (st : State) : State :=
  addMessage
    (InfoSummarize (clamp_startIdx (summarize_requested args st) st)
                   (join [LF] (summarize_lines args st))) st.

(** [/serial clear]: [recentLogs.length = 0] truncates the array the
    binding refers to; no new array is created. *)
Definition serial_clear (st : State) : State :=
  addMessage (Info (js "Serial log buffer cleared.")) (set_logs [] st).

(** [/serial send], taken only when [serial] is set. *)
Definition serial_send (args : option jsstring) (c : SerialConsole.t)
    (st : State) : State :=
  let st1 := set_lastCommandStartIdx (getSerialLogLength st) st in
  let st2 :=
    match args with
    | Some ((_ :: _) as a) => worker_post (WLine (js "> " ++ a ++ [LF])) st1
    | _ => st1
    end in
  set_serial (Some (SerialConsole.send (default [] args) c)) st2.

(** The tail of [/serial prompt], once a non-empty command was derived. *)
Definition serial_prompt_send (generatedCmd : jsstring) (st : State) : State :=
  match serial st with
  | Some c =>
      let st1 := set_lastCommandStartIdx (getSerialLogLength st) st in
      let st2 := worker_post (WLine (js "> " ++ generatedCmd ++ [LF])) st1 in
      set_serial (Some (SerialConsole.send generatedCmd c)) st2
  | None => st
  end.

(** The excerpt the [/serial prompt] timer summarises, 800 ms after the
    command was sent: [recentLogs.slice(lastCommandStartIdx)], with no
    range check on the saved index. *)
Definition prompt_excerpt (st : State) : list jsstring :=
  slice_from (logs st) (lastCommandStartIdx st).

(** [if (serialWorker) { postMessage quit; terminate; serialWorker = null }] *)
Definition stop_worker (st : State) : State := set_serialWorker None st.

(** [if (serial) serial.disconnect()] *)
Definition disconnect_serial (st : State) : State :=
  match serial st with
  | Some c => set_serial (Some (SerialConsole.disconnect c)) st
  | None => st
  end.

(** [/serial disconnect] *)
Definition serial_disconnect (st : State) : State :=
  let st1 := stop_worker (disconnect_serial st) in
  let st2 := set_env (delete "GEMINI_SERIAL_PORT"%string (env st1)) st1 in
  let st3 :=
    set_globalThis (delete "GEMINI_ACTIVE_SERIAL"%string (globalThis st2)) st2 in
  addMessage (Info (js "Serial disconnected; window closed"))
    (set_serialHintShown false st3).

(** [/serial connect <port> <baud>]. When [serial.connect] throws, the
    action ends there: the new console and the new worker are in place, but
    [GEMINI_SERIAL_PORT] and [GEMINI_ACTIVE_SERIAL] keep what they held. *)
Definition serial_connect (args : option jsstring) (st : State) : State :=
  let st0 := set_serialHintShown false st in
  let pieces := split (js " ") (default [] args) in
  let port := default [] (pieces !! 0%nat) in
  let baud :=
    match pieces !! 1%nat with
    | Some ((_ :: _) as b) => parseInt10 b
    | _ => Some 115200
    end in
  let st1 := stop_worker (disconnect_serial st0) in
  let st2 := set_serialWorker (Some [])
               (set_serial (Some (SerialConsole.connect port baud SerialConsole.new)) st1) in
  if SerialConsole.connect_throws port SerialConsole.new then st2
  else
    let st3 := set_env (<[ "GEMINI_SERIAL_PORT"%string := port ]> (env st2)) st2 in
    set_globalThis (<[ "GEMINI_ACTIVE_SERIAL"%string := SerialObj ]> (globalThis st3)) st3.

Definition is_cmd (subCommand : option jsstring) (name : string) : bool :=
  bool_decide (subCommand = Some (js name)).

(** The [action] of the 'serial' slash command. The [prompt] branch stops
    here at its argument checks; its continuation is [serial_prompt_send]. *)
Definition serial_action (subCommand args : option jsstring) (st : State) : State :=
  if is_cmd subCommand "connect" then serial_connect args st
  else if is_cmd subCommand "tail" then serial_tail args st
  else if is_cmd subCommand "summarize" then serial_summarize args st
  else if is_cmd subCommand "clear" then serial_clear st
  else if is_cmd subCommand "send" && bool_decide (is_Some (serial st)) then
    match serial st with
    | Some c => serial_send args c st
    | None => st
    end
  else if is_cmd subCommand "prompt" || is_cmd subCommand "ask"
          || is_cmd subCommand "query" then
    match serial st with
    | None => addMessage (Error (js "Serial not connected. Use /serial connect first.")) st
    | Some _ =>
        match trim (default [] args) with
        | [] => addMessage (Error (js "Usage: /serial prompt <natural language request>")) st
        | _ => st
        end
    end
  else if is_cmd subCommand "disconnect" then serial_disconnect st
  else addMessage (Error (js "Usage: /serial connect <port> <baud>, /serial send <cmd>, /serial disconnect")) st.

(** What can happen to the process: a slash command, the continuation of a
    prompt, or an event of the serial port. *)
Inductive input :=
| Command (subCommand args : option jsstring)
| PromptDerived (generatedCmd : jsstring)
| PortOpen
| PortData (data : jsstring)
| PortClose.

Definition step (st : State) (i : input) : State :=
  match i with
  | Command subCommand args => serial_action subCommand args st
  | PromptDerived cmd => serial_prompt_send cmd st
  | PortOpen =>
      match serial st with
      | Some c => set_serial (Some (SerialConsole.on_port_open c)) st
      | None => st
      end
  | PortData data =>
      match serial st with
      | Some c => on_data data (set_serial (Some (SerialConsole.on_port_data data c)) st)
      | None => st
      end
  | PortClose =>
      match serial st with
      | Some c => set_serial (Some (SerialConsole.on_port_close c)) st
      | None => st
      end
  end.

Definition run (ins : list input) (st : State) : State := foldl step st ins.

(** States the process can be in. *)
Definition reachable (st : State) : Prop := exists ins, st = run ins init.

(** The number of lines a push evicts from the head. *)
Definition excess_of (st : State) : nat :=
  (length (logs st) + 1 - LOG_RING_SIZE)%nat.

(** Several lines pushed one after the other. *)
Definition push_lines (ls : list jsstring) (st : State) : State :=
  foldl (fun s l => push_line l s) st ls.

(** The two properties every reachable state has. *)
Definition bounded (st : State) : Prop :=
  (length (logs st) <= LOG_RING_SIZE)%nat.

Definition fence_ok (st : State) : Prop := 0 <= lastCommandStartIdx st.

Definition inv (st : State) : Prop := bounded st /\ fence_ok st.

(** A session right after [/serial connect], before the port has opened. *)
Definition connecting : State :=
  run [Command (Some (js "connect")) (Some (js "/dev/ttyUSB0 115200"))] init.

(** A console with an open port, and a session that received five lines. *)
Definition open_console : SerialConsole.t :=
  SerialConsole.on_port_open
    (SerialConsole.connect (js "/dev/ttyUSB0") (Some 115200) SerialConsole.new).

Definition five_lines : State :=
  run [Command (Some (js "connect")) (Some (js "/dev/ttyUSB0 115200"));
       PortOpen;
       PortData [ "a"%char; LF; "b"%char; LF; "c"%char; CR; LF ];
       PortData [ "d"%char; LF; "e"%char; LF ]] init.

(** [n] distinct non-empty lines. *)
Definition numbered_lines (n : nat) : list jsstring :=
  map (fun i => js "line " ++ [ascii_of_nat i]) (seq 0 n).

(** A line as the device prints it: not empty, without line breaks inside,
    and without blanks at its end. *)
Definition clean_line (l : jsstring) : Prop :=
  l <> [] /\ Forall (fun c => c <> LF /\ c <> CR) l /\ trimEnd l = l.

(** The data handler run on a sequence of lines, one chunk per line, each
    terminated by a line feed. *)
Definition feed_lines (ls : list jsstring) (st : State) : State :=
  foldl (fun s l => on_data (l ++ [LF]) s) st ls.

(** A session whose buffer is full, with a command-start index of 5. *)
Definition full_buffer : State :=
  set_lastCommandStartIdx 5 (push_lines (numbered_lines LOG_RING_SIZE) init).

End Cli.



(* ===================================================================== *)
(** ** Framed requests over the shared log buffer *)
(* ===================================================================== *)

Module Framing.
Import Js.

(** How a promise ends. *)
Inductive outcome (A : Type) :=
| Resolved (a : A)
| Rejected (message : jsstring).
Arguments Resolved {A} a.
Arguments Rejected {A} message.

(** What one firing of a [setInterval] callback does: return and wait for
    the next firing, clear the interval without settling the promise, or
    clear the interval and settle it. *)
Inductive tick (A : Type) :=
| Pending
| Cancelled
| Settled (o : outcome A).
Arguments Pending {A}.
Arguments Cancelled {A}.
Arguments Settled {A} o.

(** [setInterval(cb, ms)]: the callback fires at ticks [k], [k+1], ... until
    one of them clears the interval. The result names that firing. *)
Fixpoint poll {A} (cb : nat -> tick A) (fuel k : nat) : option (nat * tick A) :=
  match fuel with
  | O => None
  | S fuel' =>
      match cb k with
      | Pending => poll cb fuel' (S k)
      | t => Some (k, t)
      end
  end.

(** What the tools observe while they wait: [clock k] is the value of
    [Date.now()] and [buffer k] the contents of the shared log array at the
    [k]-th firing of the callback; index 0 is the moment the request is
    sent and the promise is created. *)
Record World := mkWorld {
  clock : nat -> Z;
  buffer : nat -> list jsstring
}.

(** *** Marker ids *)

Definition base36_alphabet : jsstring := js "0123456789abcdefghijklmnopqrstuvwxyz".

Definition is_base36 (c : ascii) : bool := bool_decide (c ∈ base36_alphabet).

(** The text [Math.random().toString(36)] can evaluate to: ['0'] for the
    value zero, otherwise ['0.'] followed by at least one base-36 digit. *)
Definition is_rendering (r : jsstring) : bool :=
  match r with
  | [c] => bool_decide (c = "0"%char)
  | c0 :: c1 :: d :: ds =>
      bool_decide (c0 = "0"%char) && bool_decide (c1 = "."%char)
      && forallb is_base36 (d :: ds)
  | _ => false
  end.

(** The first [fuel] digits of the base-36 expansion of the fraction
    [num / den] below 1, up to the digit where it terminates; [0.5] is
    [18/36]. *)
Fixpoint fraction_digits (fuel : nat) (num den : N) : jsstring :=
  match fuel with
  | O => []
  | S fuel' =>
      if (num =? 0)%N then []
      else
        let d := (num * 36 / den)%N in
        default "0"%char (base36_alphabet !! N.to_nat d)
        :: fraction_digits fuel' (num * 36 mod den)%N den
  end.

(** [x.toString(36)] for the double [x = m / 2^k] below 1 with [k <= 12].
    Such a value has at most six base-36 digits behind the point, since
    2^12 divides 36^6, and they are the digits the conversion emits: it
    stops at the digit where the remainder falls below half the distance
    to the next double, which a non-zero multiple of 2^-12 never does
    within six digits. Other values are not rendered here ([None]): for
    them the conversion stops before the exact expansion ends. *)
Definition toString36 (m k : N) : option jsstring :=
  if (12 <? k)%N || (2 ^ k <=? m)%N then None
  else if (m =? 0)%N then Some (js "0")
  else Some (js "0." ++ fraction_digits 6 m (2 ^ k)).

(** [Math.random().toString(36).slice(2, 8)], from the rendered text: the
    id of the device-info, driver-info, device-tree and real-time
    requests. *)
Definition runId (rendering : jsstring) : jsstring := slice rendering 2 8.

(** [Math.random().toString(36).slice(2, 10)]: the id of the kernel
    hot-spot sampling in [KernelHotspotsTool.sampleViaSerial]. *)
Definition sampleId (rendering : jsstring) : jsstring := slice rendering 2 10.

(** [`__<tag>_${id}__`] *)
Definition marker (tag : string) (id : jsstring) : jsstring :=
  js "__" ++ js tag ++ js "_" ++ id ++ js "__".

(** *** Line-exact extraction (device info, driver info) *)

(** [l.trim() === mark] *)
Definition is_marker_line (mark l : jsstring) : bool :=
  bool_decide (trim l = mark).

(** [findIndex] of the start line, [findIndex] of the first end line
    behind it, and the lines in between. *)
Definition extract_lines (START END : jsstring) (lines : list jsstring)
  : option (list jsstring) :=
  match findIndex (fun l _ => is_marker_line START l) lines with
  | None => None
  | Some idxStart =>
      match findIndex (fun l i => (idxStart <? i)%nat && is_marker_line END l) lines with
      | None => None
      | Some idxEnd =>
          Some (slice lines (Z.of_nat idxStart + 1) (Z.of_nat idxEnd))
      end
  end.

Module DeviceInfo.

Definition timeoutMs : Z := 20000.
Definition pollMs : Z := 150.

Definition START_MARK (runId : jsstring) : jsstring := marker "START" runId.
Definition END_MARK (runId : jsstring) : jsstring := marker "END" runId.

(** One firing of [poller]; the promise resolves with the raw payload the
    diagnostic parser is run on. *)
Definition poller (now startTime : Z) (logs : list jsstring) (startLen : nat)
    (START END : jsstring) : tick jsstring :=
  if timeoutMs <? now - startTime then
    Settled (Rejected (js "Timed out waiting for device info"))
  else
    match extract_lines START END (slice_from logs (Z.of_nat startLen)) with
    | None => Pending
    | Some payloadLines => Settled (Resolved (join [LF] payloadLines))
    end.

(** [collectViaActiveSerialLogBuffer], after the script was sent. *)
Definition collect (w : World) (rendering : jsstring) (fuel : nat)
  : option (nat * tick jsstring) :=
  let id := runId rendering in
  let startLen := length (buffer w 0) in
  let startTime := clock w 0 in
  poll (fun k => poller (clock w k) startTime (buffer w k) startLen
                   (START_MARK id) (END_MARK id)) fuel 1.

End DeviceInfo.

Module DriverInfo.

Definition timeoutMs : Z := 30000.
Definition pollMs : Z := 150.

Definition START (runId : jsstring) : jsstring := marker "DRV_START" runId.
Definition END (runId : jsstring) : jsstring := marker "DRV_END" runId.

Inductive mode := MNone | MSysfs | MPci | MUsb | MFw | MTaint.

Record sections := mkSections {
  sysfs : list jsstring;
  lspci : list jsstring;
  lsusb : list jsstring;
  fw : list jsstring;
  taint : jsstring
}.

(** The accumulators as the promise executor creates them. *)
Definition empty_sections : sections :=
  {| sysfs := []; lspci := []; lsusb := []; fw := []; taint := js "0" |}.

(** [raw.replace(/\r$/, '')] *)
Definition strip_cr (raw : jsstring) : jsstring :=
  match rev raw with
  | c :: r => if bool_decide (c = CR) then rev r else raw
  | [] => raw
  end.

(** One round of [for (const raw of payload)]. *)
Definition classify (acc : mode * sections) (raw : jsstring) : mode * sections :=
  let '(m, s) := acc in
  let line := strip_cr raw in
  if includes (js "---SYSFS---") line then (MSysfs, s)
  else if includes (js "---LSPCI---") line then (MPci, s)
  else if includes (js "---LSUSB---") line then (MUsb, s)
  else if includes (js "---FW---") line then (MFw, s)
  else if includes (js "---TAINT---") line then (MTaint, s)
  else match m with
       | MSysfs => (m, mkSections (sysfs s ++ [line]) (lspci s) (lsusb s) (fw s) (taint s))
       | MPci => (m, mkSections (sysfs s) (lspci s ++ [line]) (lsusb s) (fw s) (taint s))
       | MUsb => (m, mkSections (sysfs s) (lspci s) (lsusb s ++ [line]) (fw s) (taint s))
       | MFw => (m, mkSections (sysfs s) (lspci s) (lsusb s) (fw s ++ [line]) (taint s))
       | MTaint =>
           (m, mkSections (sysfs s) (lspci s) (lsusb s) (fw s)
                 (trim (match line with [] => js "0" | _ => line end)))
       | MNone => (m, s)
       end.

Definition parse_payload (payload : list jsstring) : sections :=
  snd (foldl classify (MNone, empty_sections) payload).

(** One firing of [timer]. On expiry the promise is resolved with the
    accumulators, which nothing has written to yet. *)
Definition timer (now deadline : Z) (logs : list jsstring) (startLen : nat)
    (START END : jsstring) : tick sections :=
  if deadline <? now then Settled (Resolved empty_sections)
  else
    match extract_lines START END (slice_from logs (Z.of_nat startLen)) with
    | None => Pending
    | Some payload => Settled (Resolved (parse_payload payload))
    end.

(** [scanViaSerialLogBuffer], after the script was sent. *)
Definition scan (w : World) (rendering : jsstring) (fuel : nat)
  : option (nat * tick sections) :=
  let id := runId rendering in
  let startLen := length (buffer w 0) in
  let deadline := clock w 0 + timeoutMs in
  poll (fun k => timer (clock w k) deadline (buffer w k) startLen
                   (START id) (END id)) fuel 1.

End DriverInfo.

(** *** Substring extraction (device tree, real-time analysis) *)

(** [s.slice(a, b)] with non-negative indices. *)
Definition between (s : jsstring) (a b : nat) : jsstring :=
  slice s (Z.of_nat a) (Z.of_nat b).

Module DeviceTree.

Definition pollMs : Z := 150.
Definition timeoutMs : Z := 30000.

Definition START (id : jsstring) : jsstring := marker "DT_START" id.
Definition END (id : jsstring) : jsstring := marker "DT_END" id.

(** [/^N\|/m.test(s)]: some line of [s] begins with [N|]. *)
Fixpoint has_N_line_from (line_start : bool) (s : jsstring) : bool :=
  match s with
  | [] => false
  | c :: s' =>
      (line_start && starts_with (js "N|") s)
      || has_N_line_from (bool_decide (c = LF) || bool_decide (c = CR)) s'
  end.

Definition has_N_line (s : jsstring) : bool := has_N_line_from true s.

(** The fallback [while] loop: walk the pairs from [scanPos] and keep the
    latest one whose text has an [N|] line. *)
Fixpoint fallback (fuel : nat) (START END full : jsstring) (scanPos : nat)
    (payload : jsstring) : jsstring :=
  match fuel with
  | O => payload
  | S fuel' =>
      match indexOf START full scanPos with
      | None => payload
      | Some s =>
          match indexOf END full (s + length START) with
          | None => payload
          | Some e =>
              let slice_ := between full (s + length START) e in
              fallback fuel' START END full (e + length END)
                (if has_N_line slice_ then slice_ else payload)
          end
      end
  end.

(** The extraction part of one firing of [poll], on the joined buffer.
    [Resolved payload] names the text the step selects, which it keeps as
    [lastRawPayload]; the promise itself is resolved with the nodes parsed
    from that text. *)
Definition extract (START END full : jsstring) : tick jsstring :=
  if negb (includes START full) || negb (includes END full) then Pending
  else
    match indexOf START full 0 with
    | None => Cancelled
    | Some firstStart =>
        match indexOf END full (firstStart + length START) with
        | None => Cancelled
        | Some firstEnd =>
            let secondStart := indexOf START full (firstEnd + length END) in
            let secondEnd :=
              match secondStart with
              | Some s2 => indexOf END full (s2 + length START)
              | None => None
              end in
            match secondStart, secondEnd with
            | Some s2, Some e2 =>
                Settled (Resolved (between full (s2 + length START) e2))
            | _, _ =>
                Settled (Resolved
                  (fallback (S (length full)) START END full firstStart []))
            end
        end
    end.

(** One firing of [poll]. After the deadline the promise is rejected first;
    whatever the rest of the callback does cannot settle it again. *)
Definition poll_cb (now deadline : Z) (logs : list jsstring)
    (START END : jsstring) : tick jsstring :=
  if deadline <? now then
    Settled (Rejected (js "Timeout waiting for device tree"))
  else extract START END (join [LF] logs).

Definition collect (w : World) (rendering : jsstring) (fuel : nat)
  : option (nat * tick jsstring) :=
  let id := runId rendering in
  let deadline := clock w 0 + timeoutMs in
  poll (fun k => poll_cb (clock w k) deadline (buffer w k) (START id) (END id))
       fuel 1.

End DeviceTree.

(** *** Real-time analysis: the slice that is reported *)

Module Analysis.

Definition beginTag : jsstring := js "===== RT_ANALYSIS_BEGIN".
Definition endTag : jsstring := js "===== RT_ANALYSIS_END".

(** [s.substring(a, b)]: the arguments are swapped when [a > b] and the
    result is cut at the end of [s]. *)
Definition substring (s : jsstring) (a b : nat) : jsstring :=
  take (Nat.max a b - Nat.min a b) (drop (Nat.min a b) s).

Definition pickAnalysisSlice (raw : jsstring) : jsstring :=
  match indexOf beginTag raw 0 with
  | None => trim raw
  | Some firstBegin =>
      match indexOf endTag raw (firstBegin + length beginTag) with
      | None => trim raw
      | Some firstEnd =>
          let secondBegin := indexOf beginTag raw (firstEnd + length endTag) in
          let secondEnd :=
            match secondBegin with
            | Some sb => indexOf endTag raw (sb + length beginTag)
            | None => None
            end in
          match secondBegin, secondEnd with
          | Some sb, Some se => trim (substring raw sb (se + length endTag))
          | _, _ => trim (substring raw firstBegin (firstEnd + length endTag))
          end
      end
  end.

(** The block from the begin tag at [b] to the end tag at [e], both
    included. *)
Definition block (raw : jsstring) (b e : nat) : jsstring :=
  beginTag ++ between raw (b + length beginTag) e ++ endTag.

(** An analysis printed twice, as a device with echo shows it. *)
Definition two_blocks : jsstring :=
  js "# ===== RT_ANALYSIS_BEGIN =====" ++ [LF] ++ js "stale" ++ [LF]
  ++ js "===== RT_ANALYSIS_END =====" ++ [LF]
  ++ js "===== RT_ANALYSIS_BEGIN =====" ++ [LF] ++ js "PREEMPT_RT" ++ [LF]
  ++ js "===== RT_ANALYSIS_END =====" ++ [LF].

End Analysis.

Module RealTime.

Definition pollMs : Z := 150.
Definition timeoutMs : Z := 60000.

Definition START (id : jsstring) : jsstring := marker "RT_START" id.
Definition END (id : jsstring) : jsstring := marker "RT_END" id.

(** The isolated payload of one firing of [poll]: the piece behind the
    second start marker, up to the first end marker in it. [None] when the
    callback returns to wait for more output. *)
Definition extract (START END full : jsstring) : option jsstring :=
  let startPieces := split START full in
  if (length startPieces <? 3)%nat then None
  else
    let afterSecondStart := default [] (startPieces !! 2%nat) in
    match indexOf END afterSecondStart 0 with
    | None => None
    | Some secondEndIdx => Some (between afterSecondStart 0 secondEndIdx)
    end.

(** One firing of [poll]: the promise is resolved with the analysis slice
    of the isolated payload. *)
Definition poll_cb (now deadline : Z) (logs : list jsstring)
    (START END : jsstring) : tick jsstring :=
  if deadline <? now then
    Settled (Rejected (js "Timeout waiting for RT analysis output"))
  else
    match extract START END (join [LF] logs) with
    | None => Pending
    | Some payload => Settled (Resolved (Analysis.pickAnalysisSlice payload))
    end.

Definition collect (w : World) (rendering : jsstring) (fuel : nat)
  : option (nat * tick jsstring) :=
  let id := runId rendering in
  let deadline := clock w 0 + timeoutMs in
  poll (fun k => poll_cb (clock w k) deadline (buffer w k) (START id) (END id))
       fuel 1.

End RealTime.

(** A captured slice: the echoed script lines, then the device's output. *)
Definition echoed_capture : list jsstring :=
  [ js "echo __START_k3x9q1__";
    js "uname -m";
    js "echo __END_k3x9q1__";
    js "__START_k3x9q1__";
    js "Foo Board";
    js "aarch64";
    js "__END_k3x9q1__";
    js "# " ].

(** A position where [pat] occurs in [s]. *)
Definition occurs_at (pat s : jsstring) (i : nat) : Prop :=
  take (length pat) (drop i s) = pat.

(** [i] is the first position at or after [from] where [pat] occurs. *)
Definition first_occ (pat s : jsstring) (from i : nat) : Prop :=
  (from <= i)%nat /\ occurs_at pat s i /\
  forall j, (from <= j < i)%nat -> ~ occurs_at pat s j.

(** [pat] does not occur at or after [from]. *)
Definition no_occ (pat s : jsstring) (from : nat) : Prop :=
  forall j, (from <= j)%nat -> ~ occurs_at pat s j.

(** The scan of the device-tree step finds two complete pairs: the first
    start marker, the first end marker behind it, the next start marker
    behind that one and the next end marker. *)
Definition two_pairs (START END full : jsstring) (s1 e1 s2 e2 : nat) : Prop :=
  first_occ START full 0 s1 /\
  first_occ END full (s1 + length START) e1 /\
  first_occ START full (e1 + length END) s2 /\
  first_occ END full (s2 + length START) e2.

(** The scan finds one complete pair and no second one. *)
Definition one_pair (START END full : jsstring) (s1 e1 : nat) : Prop :=
  first_occ START full 0 s1 /\
  first_occ END full (s1 + length START) e1 /\
  (no_occ START full (e1 + length END) \/
   exists s2, first_occ START full (e1 + length END) s2 /\
              no_occ END full (s2 + length START)).

(** A device-tree capture with the markers of one request three times: in
    the echoed script, around the output, and around a later repetition. *)
Definition dt_three_pairs : list jsstring :=
  [ js "echo __DT_START_k3x9q1__";
    js "echo __DT_END_k3x9q1__";
    js "__DT_START_k3x9q1__";
    js "N|/soc|simple-bus";
    js "__DT_END_k3x9q1__";
    js "__DT_START_k3x9q1__";
    js "N|/chosen|";
    js "__DT_END_k3x9q1__" ].

(** A capture without echo: one pair. *)
Definition rt_one_pair : list jsstring :=
  [ js "__RT_START_k3x9q1__";
    js "PREEMPT_RT";
    js "__RT_END_k3x9q1__" ].

(** A real-time capture with one complete pair whose start marker is
    printed twice. *)
Definition rt_start_twice : list jsstring :=
  [ js "__RT_START_k3x9q1__";
    js "aborted";
    js "__RT_START_k3x9q1__";
    js "PREEMPT_RT";
    js "__RT_END_k3x9q1__" ].

(** A device-info capture with two line-exact pairs. *)
Definition info_two_pairs : list jsstring :=
  [ js "__START_k3x9q1__";
    js "stale";
    js "__END_k3x9q1__";
    js "__START_k3x9q1__";
    js "fresh";
    js "__END_k3x9q1__" ].

(** Timer callbacks fire in increasing time, at most [pollMs] apart. *)
Definition ticking (w : World) (pollMs : Z) : Prop :=
  forall k, clock w k < clock w (S k) <= clock w k + pollMs.

(** The lines captured behind the fence at the [k]-th firing. *)
Definition captured (w : World) (k : nat) : list jsstring :=
  slice_from (buffer w k) (Z.of_nat (length (buffer w 0))).

(** A device that prints nothing, observed by an exact 150 ms timer. *)
Definition silent_world : World :=
  {| clock := fun k => 1000 + 150 * Z.of_nat k;
     buffer := fun _ => [js "boot ok"] |}.

End Framing.

(* ===================================================================== *)
(** ** The session as the tools see it *)
(* ===================================================================== *)

Module Session.
Import Js Cli.

(** The three variables the log ring consists of. *)
Definition ring (st : State) : list jsstring * Z * jsstring :=
  (logs st, lastCommandStartIdx st, partialSerialLine st).

(** A buffered line: not empty, no line feed inside, no blank at its end. *)
Definition line_ok (l : jsstring) : Prop :=
  l <> [] /\ (LF ∉ l) /\ trimEnd l = l.

(** Truthiness of [globalThis.<name>]: objects and arrays, also the empty
    array, are truthy; a missing property is [undefined]. *)
Definition global_set (st : State) (name : string) : bool :=
  bool_decide (is_Some (globalThis st !! name)).

(** Truthiness of an optional string: [undefined] and [''] are falsy. *)
Definition truthy (s : option jsstring) : bool :=
  match s with
  | Some (_ :: _) => true
  | _ => false
  end.

(** The parameters of a tool call that decide how it collects.
    [schema_ok] is the verdict of [SchemaValidator.validate], which these
    sources do not hold. *)
Record tool_params := mkParams {
  schema_ok : bool;
  serial_port : option jsstring;
  use_current_serial : bool;
  output_dir : option jsstring;
  duration : option Z;
  top : option Z
}.

(** [path.isAbsolute(p)] on a POSIX host. *)
Definition isAbsolute (p : jsstring) : bool := starts_with (js "/") p.

(** [params.x && !path.isAbsolute(params.x)] *)
Definition not_absolute (x : option jsstring) : bool :=
  truthy x && negb (isAbsolute (default [] x)).

(** [params.x !== undefined && params.x <= 0] *)
Definition not_positive (x : option Z) : bool :=
  match x with
  | Some v => v <=? 0
  | None => false
  end.

(** The [validateToolParams] of the five tools: the message returned, or
    [None] for [null]. *)
Definition rt_validate (p : tool_params) : option jsstring :=
  if negb (schema_ok p) then Some (js "Parameters failed schema validation.")
  else if not_absolute (serial_port p)
  then Some (js "serial_port must be absolute path")
  else None.

Definition dt_validate (p : tool_params) : option jsstring :=
  if negb (schema_ok p) then Some (js "Parameters failed schema validation.")
  else if not_absolute (serial_port p)
  then Some (js "Serial port must be absolute path")
  else if not_absolute (output_dir p)
  then Some (js "output_dir must be absolute path")
  else None.

Definition info_validate (p : tool_params) : option jsstring :=
  if negb (schema_ok p) then Some (js "Parameters failed schema validation.")
  else if not_absolute (serial_port p)
  then Some (js "Serial port must be an absolute path but got: "
             ++ default [] (serial_port p))
  else None.

Definition drv_validate (p : tool_params) : option jsstring :=
  if negb (schema_ok p) then Some (js "Parameters failed schema validation.")
  else None.

Definition kh_validate (p : tool_params) : option jsstring :=
  if negb (schema_ok p) then Some (js "Parameters failed schema validation.")
  else if not_positive (duration p) then Some (js "duration must be >0")
  else if not_positive (top p) then Some (js "top must be >0")
  else None.

(** What [execute] does with a call: it returns the validation message
    without collecting, runs one of its collectors, throws for a session
    without log buffer, or answers that serial logging is not
    available. *)
Inductive route :=
| Invalid (message : jsstring)
| ViaLogBuffer
| ViaStream
| ViaFreshSerial
| ViaLocal
| RouteError
| NotAvailable.

(** [params.serial_port] after
    [if (!params.serial_port && params.use_current_serial
         && process.env.GEMINI_SERIAL_PORT) params.serial_port = ...]. *)
Definition resolved_port (st : State) (p : tool_params) : option jsstring :=
  if negb (truthy (serial_port p)) && use_current_serial p
     && truthy (env st !! "GEMINI_SERIAL_PORT"%string)
  then env st !! "GEMINI_SERIAL_PORT"%string
  else serial_port p.

(** [RealTimeAnalysisTool.execute]: what runs, in order. *)
Definition rt_route (st : State) (p : tool_params) : list route :=
  match rt_validate p with
  | Some invalid => [Invalid invalid]
  | None =>
      let port := resolved_port st p in
      let active := global_set st "GEMINI_ACTIVE_SERIAL" in
      let logs := global_set st "GEMINI_SERIAL_LOGS" in
      if active && logs then [ViaLogBuffer]
      else if active then [ViaStream]
      else if truthy port then [ViaFreshSerial]
      else [ViaLocal]
  end.

(** [GetDeviceTreeTool.execute]: what runs, or the error it throws when a
    session is active without a log buffer. *)
Definition dt_route (st : State) (p : tool_params) : list route :=
  match dt_validate p with
  | Some invalid => [Invalid invalid]
  | None =>
      let port := resolved_port st p in
      let active := global_set st "GEMINI_ACTIVE_SERIAL" in
      let logs := global_set st "GEMINI_SERIAL_LOGS" in
      if active && logs then [ViaLogBuffer]
      else if truthy port then [ViaFreshSerial]
      else if negb active then [ViaLocal]
      else [RouteError]
  end.

(** [typeof v.send === 'function'] and [typeof v.write === 'function']:
    the console has a [send] method; neither it nor an array has [write]. *)
Definition has_send (v : gval) : bool :=
  match v with
  | SerialObj => true
  | ArrayRef _ => false
  end.

Definition has_write (v : gval) : bool := false.

(** [GetDeviceInfoTool.execute]: the saved port is taken whenever no port
    was given. *)
Definition info_resolved_port (st : State) (p : tool_params) : option jsstring :=
  if negb (truthy (serial_port p))
     && (use_current_serial p || negb (truthy (serial_port p)))
     && truthy (env st !! "GEMINI_SERIAL_PORT"%string)
  then env st !! "GEMINI_SERIAL_PORT"%string
  else serial_port p.

(** Whether the promise of [collectViaActiveSerialLogBuffer] is rejected:
    at once when the handle has no [send] method or there is no log
    buffer, and otherwise when its poll, whose outcome is [polled], ends
    in a rejection. *)
Definition info_buffer_rejected {A} (st : State) (serial_ : gval)
    (polled : option (nat * Framing.tick A)) : bool :=
  negb (has_send serial_ && global_set st "GEMINI_SERIAL_LOGS")
  || match polled with
     | Some (_, Framing.Settled (Framing.Rejected _)) => true
     | _ => false
     end.

(** With a session handle the log buffer is tried first, inside a [try]
    of its own: when that promise is rejected the stream listener
    [collectViaActiveSerial] runs next. *)
Definition info_route {A} (st : State) (p : tool_params)
    (polled : option (nat * Framing.tick A)) : list route :=
  match info_validate p with
  | Some validationError => [Invalid validationError]
  | None =>
      let port := info_resolved_port st p in
      match globalThis st !! "GEMINI_ACTIVE_SERIAL"%string with
      | Some activeSerial =>
          if info_buffer_rejected st activeSerial polled
          then [ViaLogBuffer; ViaStream] else [ViaLogBuffer]
      | None => if truthy port then [ViaFreshSerial] else [ViaLocal]
      end
  end.

(** [GetDriverInfoTool.execute]: with a session handle
    [scanViaSerialLogBuffer], which answers 'Serial logging not available.'
    without a [send] method or a log buffer; otherwise a local scan. *)
Definition drv_route (st : State) (p : tool_params) : list route :=
  match drv_validate p with
  | Some invalid => [Invalid invalid]
  | None =>
      match globalThis st !! "GEMINI_ACTIVE_SERIAL"%string with
      | Some serial_ =>
          if has_send serial_ && global_set st "GEMINI_SERIAL_LOGS"
          then [ViaLogBuffer] else [NotAvailable]
      | None => [ViaLocal]
      end
  end.

(** [KernelHotspotsTool.execute] and [sampleViaSerial]. *)
Definition kh_route (st : State) (p : tool_params) : list route :=
  match kh_validate p with
  | Some invalid => [Invalid invalid]
  | None =>
      match globalThis st !! "GEMINI_ACTIVE_SERIAL"%string with
      | Some activeSerial =>
          if has_write activeSerial || has_send activeSerial then
            if (has_send activeSerial || has_write activeSerial)
               && global_set st "GEMINI_SERIAL_LOGS"
            then [ViaLogBuffer] else [NotAvailable]
          else [ViaLocal]
      | None => [ViaLocal]
      end
  end.

(** A call without parameters, and one that names a port. *)
Definition no_params : tool_params := mkParams true None false None None None.

Definition port_params (port : jsstring) : tool_params :=
  mkParams true (Some port) false None None None.

(** What holds of the published references in every state. *)
Definition published (st : State) : Prop :=
  globalThis st !! "GEMINI_SERIAL_LOGS"%string = Some (ArrayRef (recentLogs st)) /\
  recentLogs st = 0%nat /\
  is_Some (arrays st !! recentLogs st) /\
  (is_Some (globalThis st !! "GEMINI_ACTIVE_SERIAL"%string)
     <-> is_Some (env st !! "GEMINI_SERIAL_PORT"%string)) /\
  (is_Some (globalThis st !! "GEMINI_ACTIVE_SERIAL"%string) -> is_Some (serial st)) /\
  (forall v, globalThis st !! "GEMINI_ACTIVE_SERIAL"%string = Some v -> v = SerialObj).

(** What holds of the buffered text in every state. *)
Definition well_formed (st : State) : Prop :=
  Forall line_ok (logs st) /\ (LF ∉ partialSerialLine st).

(** The data handler as a function of the ring alone: what a push, one
    round of the loop, the loop and a whole chunk do to the three
    variables. *)
Definition ring_push (line : jsstring) (r : list jsstring * Z * jsstring)
  : list jsstring * Z * jsstring :=
  let '(lg, f, p) := r in
  if (0 <? length line)%nat then
    let lg1 := lg ++ [line] in
    if (LOG_RING_SIZE <? length lg1)%nat then
      let excess := (length lg1 - LOG_RING_SIZE)%nat in
      (drop excess lg1, Z.max 0 (f - Z.of_nat excess), p)
    else (lg1, f, p)
  else r.

Definition ring_step (r : list jsstring * Z * jsstring)
  : option (list jsstring * Z * jsstring) :=
  let '(lg, f, p) := r in
  match search_newline p with
  | None => None
  | Some newlineIdx =>
      let line := trimEnd (slice p 0 (Z.of_nat newlineIdx)) in
      let adv :=
        if bool_decide (p !! newlineIdx = Some CR)
           && bool_decide (p !! S newlineIdx = Some LF)
        then 2%nat else 1%nat in
      Some (ring_push line (lg, f, slice_from p (Z.of_nat (newlineIdx + adv))))
  end.

Fixpoint ring_drain (fuel : nat) (r : list jsstring * Z * jsstring)
  : list jsstring * Z * jsstring :=
  match fuel with
  | O => r
  | S fuel' =>
      match ring_step r with
      | None => r
      | Some r' => ring_drain fuel' r'
      end
  end.

Definition ring_feed (data : jsstring) (r : list jsstring * Z * jsstring)
  : list jsstring * Z * jsstring :=
  let '(lg, f, p) := r in
  ring_drain (length (p ++ data)) (lg, f, p ++ data).

(** [/serial summarize]: the text handed to the model, the number in
    'Summarizing N captured lines ...' and the preview of the debug
    message. [split(/\n/)] is a split at every line feed. *)
Definition logsToSummarize (args : option jsstring) (st : State) : jsstring :=
  join [LF] (summarize_lines args st).

Definition linesCount (args : option jsstring) (st : State) : nat :=
  length (split [LF] (logsToSummarize args st)).

Definition previewLines (args : option jsstring) (st : State) : jsstring :=
  join [LF] (slice (split [LF] (logsToSummarize args st)) 0 20).

(** A session is closed and another one opened, and the new device sends
    its first text. *)
Definition reconnect (args : option jsstring) (data : jsstring) : list input :=
  [ Command (Some (js "disconnect")) None;
    Command (Some (js "connect")) args;
    PortOpen;
    PortData data ].

End Session.


(** ** The console under arbitrary use *)

Module ConsoleOps.
Import Js.

(** What can happen to a console: a call of one of its three methods, or
    one of the 'open', 'data' and 'close' events of its port. *)
Inductive op :=
| Connect (path : jsstring) (baudRate : option Z)
| Send (data : jsstring)
| Disconnect
| PortOpened
| PortReceived (data : jsstring)
| PortClosed.

(** The port's callbacks are registered on the port object inside
    [connect], so no event arrives before a port was created. A [connect]
    that throws leaves the console as it was, and its caller goes on. *)
Definition apply (c : SerialConsole.t) (o : op) : SerialConsole.t :=
  match o with
  | Connect p b => SerialConsole.connect p b c
  | Send d => SerialConsole.send d c
  | Disconnect => SerialConsole.disconnect c
  | PortOpened =>
      match SerialConsole.port c with
      | Some _ => SerialConsole.on_port_open c
      | None => c
      end
  | PortReceived d =>
      match SerialConsole.port c with
      | Some _ => SerialConsole.on_port_data d c
      | None => c
      end
  | PortClosed =>
      match SerialConsole.port c with
      | Some _ => SerialConsole.on_port_close c
      | None => c
      end
  end.

Definition console_after (ops : list op) : SerialConsole.t :=
  foldl apply SerialConsole.new ops.

(** The 'error' events among the emitted ones. *)
Definition errors (c : SerialConsole.t) : list jsstring :=
  omap (fun e => match e with SerialConsole.EvError m => Some m | _ => None end)
       (SerialConsole.emitted c).

Definition close_requested (c : SerialConsole.t) : bool :=
  match SerialConsole.port c with
  | Some p => SerialConsole.closeCalled p
  | None => false
  end.

(** What holds of a console however it is used. *)
Definition console_ok (c : SerialConsole.t) : Prop :=
  (SerialConsole.isOpen c = true -> is_Some (SerialConsole.port c)) /\
  Forall (fun w => exists d, w = d ++ [LF]) (SerialConsole.transmitted c) /\
  Forall (fun m => m = js "Serial port already open" \/
                   m = js "Serial port not open") (errors c).

End ConsoleOps.


(** ** Driver scan: what becomes of the captured payload *)

Module DriverParse.
Import Js Framing.

(** The five tags of the scan script, in the order the loop tests them. *)
Definition tags : list jsstring :=
  [ js "---SYSFS---"; js "---LSPCI---"; js "---LSUSB---"; js "---FW---";
    js "---TAINT---" ].

(** Does [line] include one of the tags? *)
Definition tagged (line : jsstring) : bool :=
  existsb (fun t => includes t line) tags.

(** The lines of the four list sections, in that order. *)
Definition stored (s : DriverInfo.sections) : list jsstring :=
  DriverInfo.sysfs s ++ DriverInfo.lspci s ++ DriverInfo.lsusb s
  ++ DriverInfo.fw s.

(** *** [decodeTaint] *)

(** [ToInt32] of an integer-valued number. *)
Definition to_int32 (x : Z) : Z := (x + 2 ^ 31) mod 2 ^ 32 - 2 ^ 31.

(** [a & b] *)
Definition bit_and (a b : Z) : Z := Z.land (to_int32 a) (to_int32 b).

Record TaintInfo := mkTaint {
  raw : Z;
  flags : list jsstring
}.

(** [if (cond) flags.push(name)] *)
Definition push_if (cond : Z) (name : string) (flags_ : list jsstring)
  : list jsstring :=
  if cond =? 0 then flags_ else flags_ ++ [js name].

Definition decodeTaint (raw_ : Z) : TaintInfo :=
  let f := [] in
  let f := push_if (bit_and raw_ 1) "PROPRIETARY" f in
  let f := push_if (bit_and raw_ 2) "FORCED" f in
  let f := push_if (bit_and raw_ 4) "UNSAFE" f in
  let f := push_if (bit_and raw_ 8) "ODD_BUG" f in
  let f := push_if (bit_and raw_ 16) "USER" f in
  let f := push_if (bit_and raw_ 32) "MODULE_UNSIGNED" f in
  mkTaint raw_ f.

(** [parseInt(result.taint || '0', 10) || 0]: [NaN] and [0] both give 0. *)
Definition taint_number (taint : jsstring) : Z :=
  default 0 (parseInt10 (match taint with [] => js "0" | _ => taint end)).

Definition taintInfo (s : DriverInfo.sections) : TaintInfo :=
  decodeTaint (taint_number (DriverInfo.taint s)).

(** *** [parseSysfsLines] *)

(** [toLowerCase] on one code unit of the Latin-1 range: A-Z and the
    accented capitals U+00C0-U+00DE, the multiplication sign apart. *)
Definition to_lower_char (c : ascii) : ascii :=
  let n := nat_of_ascii c in
  if ((65 <=? n) && (n <=? 90)
      || (192 <=? n) && (n <=? 222) && negb (n =? 215))%nat
  then ascii_of_nat (n + 32) else c.

Definition toLowerCase (s : jsstring) : jsstring := map to_lower_char s.

(** [parts[i] || ''] *)
Definition part (parts : list jsstring) (i : nat) : jsstring :=
  default [] (parts !! i).

(** [s || undefined] *)
Definition or_undefined (s : jsstring) : option jsstring :=
  match s with [] => None | _ => Some s end.

(** Truthiness of a string. *)
Definition nonempty (s : jsstring) : bool :=
  match s with [] => false | _ => true end.

Record SysfsDevice := mkDevice {
  path : jsstring;
  bus : jsstring;
  driver : option jsstring;
  module_ : option jsstring;
  builtIn : bool;
  modalias : option jsstring;
  ids_pci : option (jsstring * jsstring);
  ids_usb : option (jsstring * jsstring);
  candidates : list jsstring
}.

(** One round of the loop of [parseSysfsLines]: [None] is [continue]. *)
Definition parse_sysfs_line (line : jsstring) : option SysfsDevice :=
  if negb (starts_with (js "D|") line) then None
  else
    let parts := split (js "|") line in
    let path_ := part parts 1 in
    let bus_ := part parts 2 in
    let driver_ := part parts 3 in
    let module := part parts 4 in
    let builtin := bool_decide (part parts 5 = js "yes") in
    let modalias_ := part parts 6 in
    let cands := filter (fun s => nonempty s = true)
                   (map trim (split (js ",") (part parts 7))) in
    let pci_vendor := toLowerCase (part parts 8) in
    let pci_device := toLowerCase (part parts 9) in
    let usb_vid := toLowerCase (part parts 10) in
    let usb_pid := toLowerCase (part parts 11) in
    Some {| path := path_; bus := bus_;
            driver := or_undefined driver_; module_ := or_undefined module;
            builtIn := builtin; modalias := or_undefined modalias_;
            ids_pci := if nonempty pci_vendor || nonempty pci_device
                       then Some (pci_vendor, pci_device) else None;
            ids_usb := if nonempty usb_vid || nonempty usb_pid
                       then Some (usb_vid, usb_pid) else None;
            candidates := cands |}.

Definition parseSysfsLines (lines : list jsstring) : list SysfsDevice :=
  omap parse_sysfs_line lines.

(** The line the scan script prints for one device:
    [printf 'D|%s|%s|%s|%s|%s|%s|%s|%s|%s|%s|%s\n']. *)
Definition sysfs_line (fields : list jsstring) : jsstring :=
  js "D|" ++ join (js "|") fields.

(** The payload the scan script prints, section by section. *)
Definition scan_output (pre s p u f : list jsstring) (t : jsstring)
  : list jsstring :=
  pre ++ [js "---SYSFS---"] ++ s ++ [js "---LSPCI---"] ++ p
  ++ [js "---LSUSB---"] ++ u ++ [js "---FW---"] ++ f
  ++ [js "---TAINT---"; t].

(** A line as the log buffer holds it, free of the tags. *)
Definition plain (l : jsstring) : Prop :=
  l <> [] /\ tagged l = false /\ trimEnd l = l.

(** A field or a candidate name without the separator [c]. *)
Definition free_of (c : ascii) (s : jsstring) : Prop := c ∉ s.

End DriverParse.


(** ** Device tree: from the payload to the nodes *)

Module DeviceTreeParse.
Import Js Cli Framing DriverParse.

(** Length of the match of [/\r?\n/] that starts at [i]. *)
Definition break_length (s : jsstring) (i : nat) : nat :=
  if bool_decide (s !! i = Some CR) then 2 else 1.

(** [s.split(/\r?\n/)]: every match consumes at least one code unit, so
    [length s] rounds are enough. *)
Fixpoint split_lines_fuel (n : nat) (s : jsstring) : list jsstring :=
  match n with
  | O => [s]
  | S n' =>
      match search_newline s with
      | None => [s]
      | Some i => take i s :: split_lines_fuel n' (drop (i + break_length s i) s)
      end
  end.

Definition split_lines (s : jsstring) : list jsstring :=
  split_lines_fuel (length s) s.

(** [s.split(/[...]+/)] for a class [sep] of code units: the pieces
    between the maximal runs of separators. A run at the very start or end
    leaves an empty piece there. [cur] is the piece being read and
    [in_sep] tells whether the previous code unit was a separator. *)
Fixpoint split_class_from (sep : ascii -> bool) (cur : jsstring) (in_sep : bool)
    (s : jsstring) : list jsstring :=
  match s with
  | [] => [cur]
  | c :: s' =>
      if sep c then
        if in_sep then split_class_from sep [] true s'
        else cur :: split_class_from sep [] true s'
      else split_class_from sep (cur ++ [c]) false s'
  end.

Definition split_class (sep : ascii -> bool) (s : jsstring) : list jsstring :=
  split_class_from sep [] false s.

(** The class [[\s,]]. *)
Definition is_ws_or_comma (c : ascii) : bool :=
  is_ws c || bool_decide (c = ","%char).

(** [.filter(Boolean)] on strings. *)
Definition filter_Boolean (l : list jsstring) : list jsstring :=
  filter (fun s => nonempty s = true) l.

Record DTNodeInfo := mkNode {
  node : jsstring;
  compatible : list jsstring;
  reg : list jsstring
}.

(** One round of the loop of [parseLines]: [None] is [continue]. *)
Definition parse_line (raw_ : jsstring) : option DTNodeInfo :=
  let line := trim raw_ in
  match indexOf (js "N|") line 0 with
  | None => None
  | Some idx =>
      let payload := slice_from line (Z.of_nat idx) in
      let p := split (js "|") payload in
      Some {| node := part p 1;
              compatible := filter_Boolean (split_class is_ws_or_comma (part p 2));
              reg := map (fun h => js "0x" ++ toLowerCase h)
                       (filter_Boolean (split_class is_ws (part p 3))) |}
  end.

(** [parseLines(lines, out)]: the nodes are pushed onto [out]. *)
Definition parseLines (lines : list jsstring) (out : list DTNodeInfo)
  : list DTNodeInfo :=
  out ++ omap parse_line lines.

(** What the promise is resolved with, from the payload:
    [this.parseLines(payload.split(/\r?\n/), nodes); resolve(nodes)]. *)
Definition nodes_of (payload : jsstring) : list DTNodeInfo :=
  parseLines (split_lines payload) [].

(** The line the script prints for one node: [echo "N|$name|$comp|$reg"]. *)
Definition node_line (name comp reg_ : jsstring) : jsstring :=
  js "N|" ++ name ++ js "|" ++ comp ++ js "|" ++ reg_.

(** A token: non-empty and without code units of the class [sep]. *)
Definition token (sep : ascii -> bool) (t : jsstring) : Prop :=
  t <> [] /\ Forall (fun c => sep c = false) t.

(** What the script reads for one node: the base name of its directory,
    the names in its [compatible] file, each of them terminated by a NUL
    byte there, and the words of its [reg] file as [hexdump] renders
    them. *)
Record DTFiles := mkFiles {
  dir_name : jsstring;
  compatible_file : list jsstring;
  reg_file : list jsstring
}.

(** [tr -d "\0" < "$n/compatible" | head -c120]: the names run together,
    cut at 120 bytes. *)
Definition comp_text (f : DTFiles) : jsstring :=
  take 120 (concat (compatible_file f)).

(** [hexdump -v -e "1/4 %08x " "$n/reg"]: every word followed by a
    blank. *)
Definition reg_text (f : DTFiles) : jsstring :=
  concat (map (fun w => w ++ js " ") (reg_file f)).

(** The line the script prints for the node, and the node the parser is to
    return for it. *)
Definition printed (f : DTFiles) : jsstring :=
  node_line (dir_name f) (comp_text f) (reg_text f).

Definition parsed (f : DTFiles) : DTNodeInfo :=
  {| node := dir_name f;
     compatible := filter_Boolean (split_class is_ws_or_comma (comp_text f));
     reg := map (fun h => js "0x" ++ toLowerCase h) (reg_file f) |}.



(** *** [parseRegFile] *)

Definition hex_alphabet : jsstring := js "0123456789abcdef".

Definition hex_digit (d : N) : ascii :=
  default "0"%char (hex_alphabet !! N.to_nat d).

(** [n.toString(16)] for a non-negative integer: no leading zero, ['0']
    for zero. *)
Fixpoint toString16_fuel (fuel : nat) (n : N) (acc : jsstring) : jsstring :=
  match fuel with
  | O => acc
  | S fuel' =>
      let acc' := hex_digit (n mod 16) :: acc in
      if (n / 16 =? 0)%N then acc' else toString16_fuel fuel' (n / 16) acc'
  end.

Definition toString16 (n : N) : jsstring := toString16_fuel (N.to_nat (N.log2 n) + 1) n [].

(** [s.padStart(len, '0')] *)
Definition padStart0 (len : nat) (s : jsstring) : jsstring :=
  repeat "0"%char (len - length s) ++ s.

(** [buf.readUInt32BE(i)], for [i + 4 <= buf.length]. *)
Definition readUInt32BE (buf : list N) (i : nat) : N :=
  (default 0 (buf !! i) * 2 ^ 24 + default 0 (buf !! (i + 1)%nat) * 2 ^ 16
   + default 0 (buf !! (i + 2)%nat) * 2 ^ 8 + default 0 (buf !! (i + 3)%nat))%N.

(** The loop [for (let i = 0; i + 4 <= buf.length; i += 4)]; the buffer is
    a list of bytes. *)
Fixpoint parseRegFile_from (fuel : nat) (buf : list N) (i : nat) : list jsstring :=
  match fuel with
  | O => []
  | S fuel' =>
      if (i + 4 <=? length buf)%nat then
        (js "0x" ++ padStart0 8 (toString16 (readUInt32BE buf i)))
        :: parseRegFile_from fuel' buf (i + 4)
      else []
  end.

Definition parseRegFile (buf : list N) : list jsstring :=
  parseRegFile_from (length buf) buf 0.

(** [n] written with exactly [k] hexadecimal digits, the lowest last. *)
Fixpoint fixed_hex (k : nat) (n : N) : jsstring :=
  match k with
  | O => []
  | S k' => fixed_hex k' (n / 16) ++ [hex_digit (n mod 16)]
  end.

(** The big-endian word at [i]: its four bytes. *)
Definition word_bytes (buf : list N) (i : nat) : list N :=
  take 4 (drop i buf).

(** One byte as two hexadecimal digits. *)
Definition hex2 (b : N) : jsstring := [hex_digit (b / 16); hex_digit (b mod 16)].

Definition is_byte (b : N) : Prop := (b < 256)%N.

End DeviceTreeParse.


(** ** Waiting for the device tree and for the real-time analysis *)

Module Waiting.
Import Js Framing.

(** [pat] is found at most once by a scan that steps over each match. *)
Definition at_most_one (pat s : jsstring) : Prop :=
  no_occ pat s 0 \/
  exists s1, first_occ pat s 0 s1 /\ no_occ pat s (s1 + length pat).

(** The joined buffer the callbacks of both tools scan at firing [k]. *)
Definition full (w : World) (k : nat) : jsstring := join [LF] (buffer w k).

(** A device without echo that has printed a complete real-time analysis,
    observed by an exact 150 ms timer. *)
Definition rt_no_echo : World :=
  {| clock := fun k => 1000 + 150 * Z.of_nat k;
     buffer := fun k => match k with O => [] | _ => rt_one_pair end |}.

(** A buffer in which the end marker of the request is followed by its
    start marker and nothing else. *)
Definition dt_end_first : World :=
  {| clock := fun k => 1000 + 150 * Z.of_nat k;
     buffer := fun k =>
       match k with
       | O => []
       | _ => [ js "echo __DT_END_k3x9q1__"; js "__DT_START_k3x9q1__";
                js "N|/soc|simple-bus" ]
       end |}.

End Waiting.

(** ** Kernel hot spots: counter differences *)

Module Hotspots.
Import Js.

(** A [Map] with string keys, as the list of its entries in insertion
    order. *)
Definition jsmap (V : Type) : Type := list (jsstring * V).

(** [m.get(k)]; [None] is [undefined]. *)
Fixpoint map_get {V} (m : jsmap V) (k : jsstring) : option V :=
  match m with
  | [] => None
  | (k', v) :: m' => if bool_decide (k' = k) then Some v else map_get m' k
  end.

(** [m.set(k, v)]: an existing key keeps its place. *)
Fixpoint map_set {V} (m : jsmap V) (k : jsstring) (v : V) : jsmap V :=
  match m with
  | [] => [(k, v)]
  | (k', v') :: m' =>
      if bool_decide (k' = k) then (k', v) :: m' else (k', v') :: map_set m' k v
  end.

Definition keys {V} (m : jsmap V) : list jsstring := map fst m.

(** [set.add(k)] and [new Set(iterable)], in insertion order. *)
Definition set_add (s : list jsstring) (k : jsstring) : list jsstring :=
  if bool_decide (k ∈ s) then s else s ++ [k].

Definition new_Set (ks : list jsstring) : list jsstring := foldl set_add [] ks.

(** [a.get(k)?.count ?? 0] *)
Definition count_of {T} (count : T -> Z) (m : jsmap T) (k : jsstring) : Z :=
  match map_get m k with
  | Some t => count t
  | None => 0
  end.

Definition diffNumericMaps {T} (count : T -> Z) (a b : jsmap T) : jsmap Z :=
  foldl (fun res k =>
           let av := count_of count a k in
           let bv := count_of count b k in
           map_set res k (Z.max 0 (bv - av)))
        [] (new_Set (keys a ++ keys b)).

Record IrqSnapshot := mkIrq { label : jsstring; count : Z }.

Record Hottest := mkHottest { irq : jsstring; delta : Z; hot_label : jsstring }.

(** [irqB.get(irq)?.label || ''] *)
Definition label_of (irqB : jsmap IrqSnapshot) (k : jsstring) : jsstring :=
  match map_get irqB k with
  | Some s => label s
  | None => []
  end.

(** The loop [for (const [irq, delta] of irqDeltaMap)] over the
    differences. *)
Definition hottest_of (irqB : jsmap IrqSnapshot) (deltas : jsmap Z) : Hottest :=
  foldl (fun h kv =>
           if delta h <? snd kv
           then mkHottest (fst kv) (snd kv) (label_of irqB (fst kv))
           else h)
        (mkHottest [] 0 []) deltas.

Definition hottestIrq (irqA irqB : jsmap IrqSnapshot) : Hottest :=
  hottest_of irqB (diffNumericMaps count irqA irqB).

(** Two snapshots of [/proc/interrupts]: one counter rose, one fell, one
    line is new. *)
Definition irq_before : jsmap IrqSnapshot :=
  [ (js "17", mkIrq (js "GICv2 eth0") 1000);
    (js "23", mkIrq (js "GICv2 mmc0") 500) ].

Definition irq_after : jsmap IrqSnapshot :=
  [ (js "17", mkIrq (js "GICv2 eth0") 1400);
    (js "23", mkIrq (js "GICv2 mmc0") 20);
    (js "31", mkIrq (js "GICv2 uart") 400) ].

End Hotspots.

(** ** Device info: the diagnostic *)

Module Diagnostic.
Import Js.

(** Matching under the flag [i]: in the Latin-1 range a code unit matches
    an ASCII letter of the pattern exactly when it is that letter in
    either case, and any other code unit of the pattern only when it is
    the same. The patterns are written in lower case and compared with the
    text folded to lower case. *)
Definition fold_char (c : ascii) : ascii :=
  let n := nat_of_ascii c in
  if ((65 <=? n) && (n <=? 90))%nat then ascii_of_nat (n + 32) else c.

Definition fold_case (s : jsstring) : jsstring := map fold_char s.

(** [word\s] at the start of [l], under the flag [i]. *)
Definition word_then_space (word : string) (l : jsstring) : bool :=
  starts_with (js word) (fold_case l)
  && match l !! length (js word) with
     | Some c => is_ws c
     | None => false
     end.

(** [COMMAND_PREFIX_RE.test(l)] for
    [/^(>|echo\s|cat\s|uname\s|grep\s|uptime\s|free\s|df\s|lsusb|ip\s)/i]. *)
Definition command_like (l : jsstring) : bool :=
  starts_with (js ">") l
  || word_then_space "echo" l || word_then_space "cat" l
  || word_then_space "uname" l || word_then_space "grep" l
  || word_then_space "uptime" l || word_then_space "free" l
  || word_then_space "df" l || starts_with (js "lsusb") (fold_case l)
  || word_then_space "ip" l.

(** The filter of [parseDiagnostic]:
    [l && !l.startsWith('awk:') && !COMMAND_PREFIX_RE.test(l)]. *)
Definition kept (l : jsstring) : bool :=
  DriverParse.nonempty l && negb (starts_with (js "awk:") l)
  && negb (command_like l).

(** Whether the whole of [t] is one of the alternatives of
    [/(armv\d+l?|aarch64|x86_64|i[3-6]86|riscv\d+|mips|arm64|powerpc|ppc64le)$/i]. *)
Definition arch_name (t : jsstring) : bool :=
  let u := fold_case t in
  (starts_with (js "armv") u
   && (let r := drop 4 u in
       Cli.all_digits r
       || match rev r with
          | c :: d => bool_decide (c = "l"%char) && Cli.all_digits (rev d)
          | [] => false
          end))
  || bool_decide (u = js "aarch64")
  || bool_decide (u = js "x86_64")
  || match u with
     | [i; d; e; s] =>
         bool_decide (i = "i"%char)
         && bool_decide (d ∈ js "3456")
         && bool_decide (e = "8"%char) && bool_decide (s = "6"%char)
     | _ => false
     end
  || (starts_with (js "riscv") u && Cli.all_digits (drop 5 u))
  || bool_decide (u = js "mips")
  || bool_decide (u = js "arm64")
  || bool_decide (u = js "powerpc")
  || bool_decide (u = js "ppc64le").

(** Where the match of [ARCH_RE] starts: the leftmost position from which
    the rest of the text is one of the alternatives. [None] when
    [ARCH_RE.test] fails. *)
Fixpoint arch_index (s : jsstring) : option nat :=
  if arch_name s then Some 0%nat
  else match s with
       | [] => None
       | _ :: s' => S <$> arch_index s'
       end.

(** [distroLine.replace(re, '$1')], where [re] is [PRETTY_NAME=], an
    optional double quote, a greedy group of any characters and another
    optional double quote: the first [PRETTY_NAME=] and a double quote
    right behind it are deleted. The greedy group takes a closing quote
    with it, so that one stays. *)
Definition distro_of (distroLine : jsstring) : jsstring :=
  match indexOf (js "PRETTY_NAME=") distroLine 0 with
  | None => distroLine
  | Some i =>
      take i distroLine
      ++ match drop (i + length (js "PRETTY_NAME=")) distroLine with
         | c :: r => if bool_decide (c = ascii_of_nat 34) then r else c :: r
         | [] => []
         end
  end.

(** The closure [next]: [lines.length ? lines.shift() || '' : ''], with
    the lines left. *)
Definition next (lines : list jsstring) : jsstring * list jsstring :=
  match lines with
  | [] => ([], [])
  | l :: rest => (l, rest)
  end.

(** The closure [seekMarker] of [parseDiagnostic], on the array [lines] it
    mutates: [lines.splice(0, idx + 1)] when a line includes the marker. *)
Definition seekMarker (marker : jsstring) (lines : list jsstring) : list jsstring :=
  match findIndex (fun l _ => includes marker l) lines with
  | None => lines
  | Some idx => drop (idx + 1) lines
  end.

(** [while (lines.length && !lines[0].includes(stop)) acc.push(next())]:
    the lines collected and the lines left. *)
Fixpoint take_section (stop : jsstring) (lines : list jsstring)
  : list jsstring * list jsstring :=
  match lines with
  | [] => ([], [])
  | l :: rest =>
      if includes stop l then ([], lines)
      else let '(acc, remaining) := take_section stop rest in (l :: acc, remaining)
  end.

Record sections := mkSections {
  memLines : list jsstring;
  storageLines : list jsstring;
  usbLines : list jsstring;
  ifaceLines : list jsstring
}.

(** [parseDiagnostic] from [seekMarker('---MEM---')] on; [lines] is what
    the identity and uptime lines have left of the filtered payload. *)
Definition split_sections (lines : list jsstring) : sections :=
  let lines := seekMarker (js "---MEM---") lines in
  let '(mem, lines) := take_section (js "---STORAGE---") lines in
  let lines := seekMarker (js "---STORAGE---") lines in
  let '(storage, lines) := take_section (js "---USB---") lines in
  let lines := seekMarker (js "---USB---") lines in
  let '(usb, lines) := take_section (js "---NET---") lines in
  let lines := seekMarker (js "---NET---") lines in
  mkSections mem storage usb lines.

Record identity := mkIdentity {
  model : jsstring;
  arch : jsstring;
  kernel : jsstring;
  distro : jsstring
}.

(** The result of [parseDiagnostic]: [identity], [uptime],
    [cpuMem.memSummary], [storage.root], [peripherals.usb] and
    [network.ifaces]. *)
Record diagnostic := mkDiagnostic {
  identity_of : identity;
  uptime : jsstring;
  memSummary : jsstring;
  root : jsstring;
  usb : jsstring;
  ifaces : jsstring
}.

(** [parseDiagnostic], once the lines are trimmed and filtered. *)
Definition parse_lines (lines : list jsstring) : diagnostic :=
  let '(first, lines) := next lines in
  let '(model_, arch_, lines) :=
    match arch_index first with
    | Some i =>
        let m := trim (take i first) in
        (match m with [] => js "(unknown)" | _ => m end, drop i first, lines)
    | None => let '(a, lines) := next lines in (first, a, lines)
    end in
  let '(kernel_, lines) := next lines in
  let '(distroLine, lines) := next lines in
  let '(uptime_, lines) := next lines in
  let s := split_sections lines in
  {| identity_of := mkIdentity model_ arch_ kernel_ (distro_of distroLine);
     uptime := uptime_;
     memSummary := join [LF] (memLines s);
     root := join [LF] (storageLines s);
     usb := join [LF] (usbLines s);
     ifaces := join [LF] (ifaceLines s) |}.

(** [parseDiagnostic(out)] *)
Definition parseDiagnostic (out : jsstring) : diagnostic :=
  let rawLines := map trim (DeviceTreeParse.split_lines out) in
  parse_lines (filter (fun l => kept l = true) rawLines).

(** The lines of a payload that count: trimmed, and neither empty nor
    taken for an [awk] message or an echoed command. *)
Definition shown (payload : list jsstring) : list jsstring :=
  filter (fun l => kept l = true) (map trim payload).

(** No line of [ls] includes [marker]. *)
Definition without (marker : jsstring) (ls : list jsstring) : Prop :=
  Forall (fun l => includes marker l = false) ls.

(** The diagnostic as the script prints it behind the uptime line. *)
Definition diag_output (pre mem storage usb net : list jsstring) : list jsstring :=
  pre ++ [js "---MEM---"] ++ mem ++ [js "---STORAGE---"] ++ storage
  ++ [js "---USB---"] ++ usb ++ [js "---NET---"] ++ net.

(** The lines a board prints for the diagnostic script, with the echo of
    one command and the header of [free -h], which begins with blanks. *)
Definition board_payload : list jsstring :=
  [ js "Raspberry Pi 4 Model B Rev 1.4";
    js "aarch64";
    js "6.1.21-v8+";
    [ascii_of_nat 34] ++ js "Debian GNU/Linux 11 (bullseye)" ++ [ascii_of_nat 34];
    js "up 3 hours, 12 minutes";
    js "---MEM---";
    js "free -h";
    js "               total        used        free";
    js "Mem:           3.7Gi       1.2Gi       2.1Gi";
    js "---STORAGE---";
    js "/dev/root        29G  4.1G   24G  15% /";
    js "---USB---";
    js "---NET---";
    js "eth0:192.168.1.7/24" ].

End Diagnostic.

(* ===================================================================== *)
(** ** Facts about the JavaScript primitives *)
(* ===================================================================== *)

Module JsFacts.
Import Js.

Lemma rel_index_nonneg (len : nat) (i : Z) :
  0 <= i -> rel_index len i = Nat.min (Z.to_nat i) len.
Proof.
  intros Hi. unfold rel_index.
  destruct (Z.ltb_spec i 0); [lia | reflexivity].
Qed.

Lemma rel_index_of_nat (len i : nat) : rel_index len (Z.of_nat i) = Nat.min i len.
Proof. rewrite rel_index_nonneg by lia. now rewrite Nat2Z.id. Qed.

Lemma rel_index_neg (len : nat) (n : Z) :
  0 < n -> rel_index len (- n) = (len - Z.to_nat n)%nat.
Proof.
  intros Hn. unfold rel_index.
  destruct (Z.ltb_spec (- n) 0); lia.
Qed.

Lemma rel_index_le (len : nat) (i : Z) : (rel_index len i <= len)%nat.
Proof.
  unfold rel_index. destruct (Z.ltb_spec i 0); lia.
Qed.

Lemma slice_from_nil {A} (i : Z) : slice_from (@nil A) i = [].
Proof. unfold slice_from. now rewrite drop_nil. Qed.

Lemma slice_from_of_nat {A} (l : list A) (i : nat) :
  slice_from l (Z.of_nat i) = drop i l.
Proof.
  unfold slice_from. rewrite rel_index_of_nat.
  destruct (Nat.le_gt_cases i (length l)) as [Hle | Hgt].
  - now rewrite Nat.min_l.
  - rewrite Nat.min_r by lia. now rewrite !drop_ge by lia.
Qed.

Lemma slice_of_nat {A} (l : list A) (a b : nat) :
  slice l (Z.of_nat a) (Z.of_nat b) = take (b - a) (drop a l).
Proof.
  unfold slice. rewrite !rel_index_of_nat.
  destruct (Nat.le_gt_cases a (length l)) as [Ha | Ha].
  - rewrite (Nat.min_l a) by lia.
    destruct (Nat.le_gt_cases b (length l)) as [Hb | Hb].
    + now rewrite Nat.min_l by lia.
    + rewrite Nat.min_r by lia.
      rewrite !take_ge; [reflexivity | rewrite length_drop; lia ..].
  - rewrite !(drop_ge l) by lia. now rewrite !take_nil.
Qed.

Lemma slice_prefix {A} (l : list A) (b : nat) :
  slice l 0 (Z.of_nat b) = take b l.
Proof.
  change (slice l 0 (Z.of_nat b)) with (slice l (Z.of_nat 0) (Z.of_nat b)).
  now rewrite slice_of_nat, drop_0, Nat.sub_0_r.
Qed.

(** *** Numbers and numerals *)

Lemma to_number_exact (z : Z) : Z.abs z < 2 ^ 53 -> to_number z = z.
Proof.
  intros H. unfold to_number. cbv zeta.
  destruct (Z.ltb_spec (Z.abs z) (2 ^ 53)); [reflexivity | lia].
Qed.

Lemma to_number_opp (z : Z) : to_number (- z) = - to_number z.
Proof.
  unfold to_number. cbv zeta. rewrite Z.abs_opp, Z.sgn_opp.
  destruct (Z.abs z <? 2 ^ 53); [reflexivity |]. lia.
Qed.

Lemma to_number_large (z : Z) : 2 ^ 53 <= z -> 2 ^ 53 <= to_number z.
Proof.
  intros Hz. unfold to_number. cbv zeta.
  assert (Hpos : 0 < z) by (assert (0 < 2 ^ 53) by reflexivity; lia).
  rewrite (Z.abs_eq z) by lia.
  destruct (Z.ltb_spec z (2 ^ 53)); [lia |].
  rewrite (Z.sgn_pos z) by lia. rewrite Z.mul_1_l.
  assert (Hlog : 53 <= Z.log2 z) by (apply Z.log2_le_pow2; lia).
  set (e := Z.log2 z - 52).
  assert (He : 1 <= e) by (unfold e; lia).
  rewrite Z.shiftr_div_pow2 by lia.
  assert (Hq : 2 ^ 52 <= z / 2 ^ e).
  { apply Z.div_le_lower_bound; [apply Z.pow_pos_nonneg; lia |].
    rewrite <- Z.pow_add_r by lia.
    replace (e + 52) with (Z.log2 z) by (unfold e; lia).
    apply Z.log2_spec. lia. }
  set (q := z / 2 ^ e) in *.
  set (q' := if _ : bool then q + 1 else q).
  assert (Hq' : 2 ^ 52 <= q') by (unfold q'; destruct (_ : bool); lia).
  rewrite Z.shiftl_mul_pow2 by lia.
  assert (Hpe : 2 <= 2 ^ e).
  { change 2 with (2 ^ 1) at 1. apply Z.pow_le_mono_r; lia. }
  assert (Hv : 2 ^ 53 <= q' * 2 ^ e).
  { change (2 ^ 53) with (2 ^ 52 * 2). apply Z.mul_le_mono_nonneg; lia. }
  destruct (Infinity <=? q' * 2 ^ e); [| exact Hv].
  unfold Infinity. apply Z.pow_le_mono_r; lia.
Qed.

(** Beyond the finite range the Number is the infinity. *)
Lemma to_number_overflow (z : Z) : Infinity <= z -> to_number z = Infinity.
Proof.
  unfold Infinity. intros Hz. unfold to_number, Infinity. cbv zeta.
  assert (H53 : 2 ^ 53 < 2 ^ 1024) by (apply Z.pow_lt_mono_r; lia).
  assert (Hpos : 0 < z) by lia.
  rewrite (Z.abs_eq z) by lia.
  destruct (Z.ltb_spec z (2 ^ 53)); [lia |].
  rewrite (Z.sgn_pos z) by lia. rewrite Z.mul_1_l.
  assert (Hlog : 1024 <= Z.log2 z) by (apply Z.log2_le_pow2; lia).
  set (e := Z.log2 z - 52).
  assert (He : 972 <= e) by (unfold e; lia).
  rewrite Z.shiftr_div_pow2 by lia.
  assert (Hq : 2 ^ 52 <= z / 2 ^ e).
  { apply Z.div_le_lower_bound; [apply Z.pow_pos_nonneg; lia |].
    rewrite <- Z.pow_add_r by lia.
    replace (e + 52) with (Z.log2 z) by (unfold e; lia).
    apply Z.log2_spec. lia. }
  set (q := z / 2 ^ e) in *.
  set (q' := if _ : bool then q + 1 else q).
  assert (Hq' : 2 ^ 52 <= q') by (unfold q'; destruct (_ : bool); lia).
  rewrite Z.shiftl_mul_pow2 by lia.
  assert (Hv : 2 ^ 1024 <= q' * 2 ^ e).
  { replace 1024 with (52 + 972) by lia. rewrite Z.pow_add_r by lia.
    apply Z.mul_le_mono_nonneg; [lia | exact Hq' | lia |].
    apply Z.pow_le_mono_r; lia. }
  destruct (Z.leb_spec (2 ^ 1024) (q' * 2 ^ e)); [reflexivity | lia].
Qed.

Lemma digit_val_char (d : Z) : 0 <= d < 10 -> digit_val (digit_char d) = Some d.
Proof.
  intros H.
  assert (d = 0 \/ d = 1 \/ d = 2 \/ d = 3 \/ d = 4 \/ d = 5 \/ d = 6 \/ d = 7
          \/ d = 8 \/ d = 9) as Hd by lia.
  repeat (destruct Hd as [-> | Hd]; [reflexivity |]). now subst d.
Qed.

Lemma parse_digits_app (a : Z) (xs ys : jsstring) :
  Forall is_digit xs ->
  parse_digits a (xs ++ ys) = parse_digits (parse_digits a xs) ys.
Proof.
  intros H. revert a. induction H as [| c xs [d Hd] _ IH]; intros a; [reflexivity |].
  cbn [app parse_digits]. rewrite Hd. apply IH.
Qed.

Lemma decimal_fuel_acc (fuel : nat) (n : Z) (acc : jsstring) :
  decimal_fuel fuel n acc = decimal_fuel fuel n [] ++ acc.
Proof.
  revert n acc. induction fuel as [| fuel IH]; intros n acc; [reflexivity |].
  cbn [decimal_fuel]. destruct (n <? 10); [reflexivity |].
  rewrite (IH (n / 10) (_ :: acc)), (IH (n / 10) [_]).
  now rewrite <- app_assoc.
Qed.

Lemma decimal_fuel_digits (fuel : nat) (n : Z) :
  0 <= n -> Forall is_digit (decimal_fuel fuel n []).
Proof.
  revert n. induction fuel as [| fuel IH]; intros n Hn; [constructor |].
  cbn [decimal_fuel].
  assert (Hd : is_digit (digit_char (n mod 10))).
  { exists (n mod 10). apply digit_val_char. apply Z.mod_pos_bound. lia. }
  destruct (n <? 10); [repeat constructor; exact Hd |].
  rewrite decimal_fuel_acc. apply Forall_app. split.
  - apply IH. apply Z.div_pos; lia.
  - repeat constructor. exact Hd.
Qed.

Lemma decimal_fuel_value (fuel : nat) (n : Z) :
  0 <= n < 2 ^ Z.of_nat fuel ->
  parse_digits 0 (decimal_fuel fuel n []) = n.
Proof.
  revert n. induction fuel as [| fuel IH]; intros n Hn.
  - cbn in Hn. cbn. lia.
  - cbn [decimal_fuel].
    assert (Hmod : 0 <= n mod 10 < 10) by (apply Z.mod_pos_bound; lia).
    destruct (Z.ltb_spec n 10) as [Hlt | Hge].
    + cbn [parse_digits]. rewrite digit_val_char by exact Hmod.
      rewrite Z.mod_small by lia. reflexivity.
    + rewrite decimal_fuel_acc.
      rewrite parse_digits_app by (apply decimal_fuel_digits; apply Z.div_pos; lia).
      assert (Hdiv : 0 <= n / 10 < 2 ^ Z.of_nat fuel).
      { split; [apply Z.div_pos; lia |].
        apply Z.div_lt_upper_bound; [lia |].
        rewrite Nat2Z.inj_succ, Z.pow_succ_r in Hn by lia. lia. }
      rewrite (IH _ Hdiv). cbn [parse_digits].
      rewrite digit_val_char by exact Hmod.
      pose proof (Z.div_mod n 10 ltac:(lia)). lia.
Qed.

Lemma decimal_digits (n : Z) : 0 <= n -> Forall is_digit (decimal n).
Proof. intros Hn. now apply decimal_fuel_digits. Qed.

Lemma decimal_value (n : Z) : 0 <= n -> parse_digits 0 (decimal n) = n.
Proof.
  intros Hn. apply decimal_fuel_value. split; [exact Hn |].
  destruct (Z.eq_dec n 0) as [-> | Hne]; [reflexivity |].
  rewrite Nat2Z.inj_succ, Z2Nat.id by apply Z.log2_nonneg.
  apply Z.log2_spec. lia.
Qed.

Lemma decimal_nonempty (n : Z) : decimal n <> [].
Proof.
  unfold decimal. cbn [decimal_fuel]. destruct (n <? 10); [discriminate |].
  rewrite decimal_fuel_acc. destruct (decimal_fuel _ _ []); discriminate.
Qed.

Lemma decimal_leading_digit (n : Z) : 0 <= n -> leading_digit (decimal n) = true.
Proof.
  intros Hn. pose proof (decimal_digits n Hn) as H.
  pose proof (decimal_nonempty n) as Hne.
  destruct (decimal n) as [| c rest]; [congruence |].
  apply Forall_inv in H. cbn. now apply bool_decide_eq_true.
Qed.

(** A digit is neither white space nor a sign. *)
Lemma digit_plain (c : ascii) :
  is_digit c -> is_ws c = false /\ c <> "-"%char /\ c <> "+"%char.
Proof.
  intros [d Hd].
  destruct c as [[] [] [] [] [] [] [] []]; try discriminate Hd;
    repeat split; try reflexivity; discriminate.
Qed.

Lemma parseInt10_digits (s : jsstring) :
  leading_digit s = true -> parseInt10 s = Some (to_number (parse_digits 0 s)).
Proof.
  intros H. destruct s as [| c rest]; [discriminate |].
  cbn in H. apply bool_decide_eq_true in H.
  destruct (digit_plain c H) as (Hws & Hm & Hp).
  unfold parseInt10. cbn [trimStart]. rewrite Hws. cbn [strip_sign].
  rewrite !bool_decide_eq_false_2 by assumption.
  cbn [leading_digit]. rewrite bool_decide_eq_true_2 by exact H. reflexivity.
Qed.

Lemma parseInt10_decimal (n : Z) :
  0 <= n -> parseInt10 (decimal n) = Some (to_number n).
Proof.
  intros Hn. rewrite parseInt10_digits by now apply decimal_leading_digit.
  now rewrite decimal_value.
Qed.

Lemma parseInt10_minus_decimal (n : Z) :
  0 <= n -> parseInt10 ("-"%char :: decimal n) = Some (- to_number n).
Proof.
  intros Hn. unfold parseInt10. cbn [trimStart is_ws nat_of_ascii].
  change (is_ws "-"%char) with false. cbn [strip_sign].
  rewrite bool_decide_eq_true_2 by reflexivity.
  rewrite decimal_leading_digit by exact Hn.
  now rewrite decimal_value, to_number_opp.
Qed.

Lemma parseInt10_NaN (s : jsstring) :
  leading_digit (snd (strip_sign (trimStart s))) = false -> parseInt10 s = None.
Proof.
  intros H. unfold parseInt10. destruct (strip_sign (trimStart s)) as [neg body].
  cbn in H. now rewrite H.
Qed.

End JsFacts.

(* ===================================================================== *)
(** ** The log ring: capacity, fences, tail, clear, disconnect *)
(* ===================================================================== *)

Module CliFacts.
Import Js Cli JsFacts.

Lemma logs_set_logs (l : list jsstring) (st : State) : logs (set_logs l st) = l.
Proof. unfold logs, deref, set_logs; simpl. now rewrite lookup_insert_eq. Qed.

Lemma fence_set_logs (l : list jsstring) (st : State) :
  lastCommandStartIdx (set_logs l st) = lastCommandStartIdx st.
Proof. reflexivity. Qed.

Lemma push_line_logs (line : jsstring) (st : State) :
  line <> [] ->
  logs (push_line line st) = drop (excess_of st) (logs st ++ [line]).
Proof.
  intros Hne. unfold push_line, excess_of.
  destruct line as [| c line]; [congruence |].
  change (0 <? length (c :: line))%nat with true; cbv iota zeta.
  rewrite !logs_set_logs, length_app; cbn [length].
  destruct (Nat.ltb_spec LOG_RING_SIZE (length (logs st) + 1)) as [Hgt | Hle].
  - change (logs (set_lastCommandStartIdx ?i ?s)) with (logs s).
    now rewrite logs_set_logs.
  - replace (length (logs st) + 1 - LOG_RING_SIZE)%nat with 0%nat by lia.
    now rewrite logs_set_logs.
Qed.

Lemma push_line_empty (st : State) : push_line [] st = st.
Proof. reflexivity. Qed.

Lemma push_line_fence (line : jsstring) (st : State) :
  line <> [] ->
  lastCommandStartIdx (push_line line st) =
    if (0 <? excess_of st)%nat
    then Z.max 0 (lastCommandStartIdx st - Z.of_nat (excess_of st))
    else lastCommandStartIdx st.
Proof.
  intros Hne. unfold push_line, excess_of.
  destruct line as [| c line]; [congruence |].
  change (0 <? length (c :: line))%nat with true; cbv iota zeta.
  rewrite !logs_set_logs, length_app; cbn [length].
  destruct (Nat.ltb_spec LOG_RING_SIZE (length (logs st) + 1)) as [Hgt | Hle];
    destruct (Nat.ltb_spec 0 (length (logs st) + 1 - LOG_RING_SIZE)); try lia;
    reflexivity.
Qed.

Lemma push_line_bounded (line : jsstring) (st : State) :
  bounded st -> bounded (push_line line st).
Proof.
  unfold bounded. intros Hb.
  destruct line as [| c line]; [exact Hb |].
  rewrite push_line_logs by discriminate.
  rewrite length_drop, length_app. unfold excess_of. cbn [length]. lia.
Qed.

Lemma push_line_fence_ok (line : jsstring) (st : State) :
  fence_ok st -> fence_ok (push_line line st).
Proof.
  unfold fence_ok. intros Hf.
  destruct line as [| c line]; [exact Hf |].
  rewrite push_line_fence by discriminate.
  destruct (0 <? excess_of st)%nat; lia.
Qed.

Lemma push_line_inv (line : jsstring) (st : State) : inv st -> inv (push_line line st).
Proof.
  intros [Hb Hf]. split; [now apply push_line_bounded | now apply push_line_fence_ok].
Qed.

Lemma drain_step_inv (st st' : State) :
  drain_step st = Some st' -> inv st -> inv st'.
Proof.
  unfold drain_step. intros Hstep Hinv.
  destruct (search_newline (partialSerialLine st)) as [i |]; [| discriminate].
  injection Hstep as <-. apply push_line_inv. exact Hinv.
Qed.

Lemma drain_inv (fuel : nat) (st : State) : inv st -> inv (drain fuel st).
Proof.
  revert st. induction fuel as [| fuel IH]; intros st Hinv; cbn [drain].
  - exact Hinv.
  - destruct (drain_step st) as [st' |] eqn:Hstep; [| exact Hinv].
    apply IH. eapply drain_step_inv; eauto.
Qed.

Lemma worker_post_inv (m : worker_msg) (st : State) : inv st -> inv (worker_post m st).
Proof. unfold worker_post. now destruct (serialWorker st). Qed.

Lemma showSerialHint_inv (st : State) : inv st -> inv (showSerialHint st).
Proof. unfold showSerialHint. now destruct (serialHintShown st). Qed.

Lemma on_data_inv (data : jsstring) (st : State) : inv st -> inv (on_data data st).
Proof.
  intros Hinv. unfold on_data.
  match goal with |- inv (if ?b then _ else _) => destruct b end;
    cbv zeta;
    match goal with
    | |- inv (set_summaryBuf _ (set_summaryBuf _ ?s)) => change (inv s)
    | |- inv (set_summaryBuf _ ?s) => change (inv s)
    end;
    apply drain_inv;
    match goal with |- inv (set_partialSerialLine _ ?s) => change (inv s) end;
    now apply worker_post_inv, showSerialHint_inv.
Qed.

Lemma send_fence_inv (st : State) :
  inv st -> inv (set_lastCommandStartIdx (getSerialLogLength st) st).
Proof.
  intros [Hb Hf]. split; [exact Hb |].
  unfold fence_ok, getSerialLogLength. cbn. lia.
Qed.

Lemma serial_send_inv args c (st : State) : inv st -> inv (serial_send args c st).
Proof.
  intros Hinv. unfold serial_send. cbv zeta.
  match goal with |- inv (set_serial _ ?s) => change (inv s) end.
  destruct args as [[| a0 a] |];
    [| apply worker_post_inv | ]; now apply send_fence_inv.
Qed.

Lemma serial_prompt_send_inv cmd (st : State) :
  inv st -> inv (serial_prompt_send cmd st).
Proof.
  intros Hinv. unfold serial_prompt_send.
  destruct (serial st); [| exact Hinv]. cbv zeta.
  match goal with |- inv (set_serial _ ?s) => change (inv s) end.
  now apply worker_post_inv, send_fence_inv.
Qed.

Lemma serial_clear_inv (st : State) : inv st -> inv (serial_clear st).
Proof.
  intros [Hb Hf]. split.
  - unfold bounded, serial_clear.
    change (logs (addMessage ?m ?s)) with (logs s).
    rewrite logs_set_logs. cbn. lia.
  - exact Hf.
Qed.

Lemma disconnect_serial_inv (st : State) : inv st -> inv (disconnect_serial st).
Proof. unfold disconnect_serial. now destruct (serial st). Qed.

Lemma serial_action_inv sub args (st : State) :
  inv st -> inv (serial_action sub args st).
Proof.
  intros Hinv. unfold serial_action.
  repeat match goal with
         | |- inv (if ?b then _ else _) => destruct b
         | |- inv (match ?o with Some _ => _ | None => _ end) => destruct o
         | |- inv (match ?l with [] => _ | _ :: _ => _ end) => destruct l
         end;
    try exact Hinv;
    try (now apply serial_send_inv);
    try (now apply serial_clear_inv).
  - (* connect *)
    unfold serial_connect. cbv zeta.
    destruct (SerialConsole.connect_throws _ _);
      change (inv (disconnect_serial (set_serialHintShown false st)));
      apply disconnect_serial_inv; exact Hinv.
  - (* disconnect *)
    unfold serial_disconnect. cbv zeta.
    change (inv (disconnect_serial st)).
    now apply disconnect_serial_inv.
Qed.

Lemma step_inv (st : State) (i : input) : inv st -> inv (step st i).
Proof.
  intros Hinv. destruct i as [sub args | cmd | | data |]; cbn [step].
  - now apply serial_action_inv.
  - now apply serial_prompt_send_inv.
  - now destruct (serial st).
  - destruct (serial st); [| exact Hinv]. now apply on_data_inv.
  - now destruct (serial st).
Qed.

Lemma init_inv : inv init.
Proof.
  split.
  - unfold bounded, logs, deref, init; cbn.
    rewrite lookup_singleton_eq. cbn. unfold LOG_RING_SIZE. lia.
  - unfold fence_ok; cbn. lia.
Qed.

Lemma run_inv (ins : list input) (st : State) : inv st -> inv (run ins st).
Proof.
  revert st. induction ins as [| i ins IH]; intros st Hinv; cbn.
  - exact Hinv.
  - apply IH, step_inv, Hinv.
Qed.

Lemma reachable_inv (st : State) : reachable st -> inv st.
Proof. intros [ins ->]. apply run_inv, init_inv. Qed.

End CliFacts.

Module CliClaims.
Import Js Cli JsFacts CliFacts.

Lemma push_lines_logs (ls : list jsstring) (st : State) :
  Forall (fun l => l <> []) ls ->
  bounded st ->
  logs (push_lines ls st) =
    drop (length (logs st ++ ls) - LOG_RING_SIZE) (logs st ++ ls).
Proof.
  intros Hne. revert st.
  induction Hne as [| l ls Hl _ IH]; intros st Hb; cbn [push_lines foldl].
  - rewrite app_nil_r. unfold bounded in Hb.
    now replace (length (logs st) - LOG_RING_SIZE)%nat with 0%nat by lia.
  - fold (push_lines ls (push_line l st)).
    rewrite IH by now apply push_line_bounded.
    rewrite (push_line_logs l st Hl). unfold excess_of.
    rewrite <- drop_app_le by (rewrite length_app; cbn; lia).
    rewrite drop_drop, <- app_assoc. cbn [app].
    f_equal. rewrite length_drop, !length_app. cbn [length]. lia.
Qed.

Lemma five_lines_logs :
  logs five_lines = [js "a"; js "b"; js "c"; js "d"; js "e"].
Proof. vm_compute. reflexivity. Qed.

Lemma numbered_lines_nonempty (n : nat) :
  Forall (fun l => l <> []) (numbered_lines n).
Proof.
  unfold numbered_lines. apply Forall_forall. intros l Hl.
  apply list_elem_of_fmap in Hl as (i & -> & _). discriminate.
Qed.

Lemma numbered_lines_length (n : nat) : length (numbered_lines n) = n.
Proof. unfold numbered_lines. now rewrite length_map, length_seq. Qed.

Lemma full_buffer_logs : logs full_buffer = numbered_lines LOG_RING_SIZE.
Proof.
  unfold full_buffer.
  change (logs (set_lastCommandStartIdx ?i ?s)) with (logs s).
  rewrite push_lines_logs.
  - change (logs init) with (@nil jsstring) at 1 2.
    cbn [app]. rewrite numbered_lines_length, Nat.sub_diag. reflexivity.
  - apply numbered_lines_nonempty.
  - apply init_inv.
Qed.

Lemma five_lines_reachable : reachable five_lines.
Proof. unfold reachable, five_lines. eexists. reflexivity. Qed.

Lemma search_newline_from_clean (l rest : jsstring) (i : nat) :
  Forall (fun c => c <> LF /\ c <> CR) l ->
  search_newline_from (l ++ LF :: rest) i = Some (i + length l)%nat.
Proof.
  intros Hl. revert i. induction Hl as [| c l [Hlf Hcr] _ IH]; intros i; cbn.
  - rewrite bool_decide_eq_true_2 by reflexivity. f_equal. lia.
  - rewrite (bool_decide_eq_false_2 (c = LF)) by exact Hlf.
    rewrite (bool_decide_eq_false_2 (c = CR)) by exact Hcr.
    cbn [andb]. rewrite IH. f_equal. lia.
Qed.

Lemma push_line_partial (line : jsstring) (st : State) :
  partialSerialLine (push_line line st) = partialSerialLine st.
Proof.
  unfold push_line. destruct (0 <? length line)%nat; [| reflexivity].
  cbv zeta.
  match goal with |- context [if ?b then _ else _] => destruct b end; reflexivity.
Qed.

Lemma drain_step_line (l : jsstring) (st : State) :
  clean_line l -> partialSerialLine st = l ++ [LF] ->
  drain_step st = Some (push_line l (set_partialSerialLine [] st)).
Proof.
  intros (Hne & Hchars & Htrim) Hp. unfold drain_step, search_newline.
  rewrite Hp, (search_newline_from_clean l [] 0 Hchars). cbn [Nat.add].
  rewrite slice_prefix, take_app_length, Htrim.
  rewrite lookup_app_r, Nat.sub_diag by lia. cbn [lookup list_lookup].
  rewrite (bool_decide_eq_false_2 (Some LF = Some CR)) by discriminate.
  cbn [andb]. rewrite slice_from_of_nat.
  rewrite drop_ge by (rewrite length_app; cbn; lia).
  reflexivity.
Qed.

Lemma drain_line (l : jsstring) (st : State) (fuel : nat) :
  clean_line l -> partialSerialLine st = l ++ [LF] ->
  drain (S fuel) st = push_line l (set_partialSerialLine [] st).
Proof.
  intros Hclean Hp. cbn [drain]. rewrite (drain_step_line l st Hclean Hp).
  destruct fuel as [| fuel]; cbn [drain]; [reflexivity |].
  unfold drain_step. rewrite push_line_partial. reflexivity.
Qed.

Lemma push_line_congr (l : jsstring) (st st' : State) :
  logs st = logs st' -> lastCommandStartIdx st = lastCommandStartIdx st' ->
  logs (push_line l st) = logs (push_line l st') /\
  lastCommandStartIdx (push_line l st) = lastCommandStartIdx (push_line l st').
Proof.
  intros Hlogs Hfence. destruct l as [| c l]; [now split |].
  rewrite !push_line_logs, !push_line_fence by discriminate.
  unfold excess_of. now rewrite Hlogs, Hfence.
Qed.

Lemma worker_post_ring (m : worker_msg) (st : State) :
  logs (worker_post m st) = logs st /\
  lastCommandStartIdx (worker_post m st) = lastCommandStartIdx st /\
  partialSerialLine (worker_post m st) = partialSerialLine st.
Proof. unfold worker_post. destruct (serialWorker st); repeat split. Qed.

Lemma showSerialHint_ring (st : State) :
  logs (showSerialHint st) = logs st /\
  lastCommandStartIdx (showSerialHint st) = lastCommandStartIdx st /\
  partialSerialLine (showSerialHint st) = partialSerialLine st.
Proof. unfold showSerialHint. destruct (serialHintShown st); repeat split. Qed.

(** A chunk holding one clean line and its line feed pushes that line. *)
Lemma on_data_line (l : jsstring) (st : State) :
  clean_line l -> partialSerialLine st = [] ->
  logs (on_data (l ++ [LF]) st) = logs (push_line l st) /\
  lastCommandStartIdx (on_data (l ++ [LF]) st)
    = lastCommandStartIdx (push_line l st) /\
  partialSerialLine (on_data (l ++ [LF]) st) = [].
Proof.
  intros Hclean Hp.
  set (st0 := worker_post (WLine (l ++ [LF])) (showSerialHint st)).
  assert (H0 : logs st0 = logs st /\
               lastCommandStartIdx st0 = lastCommandStartIdx st /\
               partialSerialLine st0 = []).
  { destruct (worker_post_ring (WLine (l ++ [LF])) (showSerialHint st))
      as (H1 & H2 & H3).
    destruct (showSerialHint_ring st) as (H4 & H5 & H6).
    unfold st0. rewrite H1, H2, H3, H4, H5, H6. now rewrite Hp. }
  destruct H0 as (Hlogs0 & Hfence0 & Hp0).
  set (st1 := set_partialSerialLine (partialSerialLine st0 ++ (l ++ [LF])) st0).
  assert (Hp1 : partialSerialLine st1 = l ++ [LF]) by (cbn; now rewrite Hp0).
  assert (Hdrain : drain (length (partialSerialLine st1)) st1
                   = push_line l (set_partialSerialLine [] st1)).
  { rewrite Hp1, length_app. cbn [length].
    replace (length l + 1)%nat with (S (length l)) by lia.
    now apply drain_line. }
  destruct (push_line_congr l (set_partialSerialLine [] st1) st Hlogs0 Hfence0)
    as (Hl & Hf).
  assert (Hp2 : partialSerialLine (push_line l (set_partialSerialLine [] st1)) = [])
    by now rewrite push_line_partial.
  unfold on_data. fold st0. cbv zeta. fold st1. rewrite Hdrain.
  match goal with |- context [if ?b then _ else _] => destruct b end;
    (split; [exact Hl | split; [exact Hf | exact Hp2]]).
Qed.

Lemma feed_lines_ring (ls : list jsstring) (st st' : State) :
  Forall clean_line ls ->
  partialSerialLine st = [] ->
  logs st = logs st' -> lastCommandStartIdx st = lastCommandStartIdx st' ->
  logs (feed_lines ls st) = logs (push_lines ls st') /\
  lastCommandStartIdx (feed_lines ls st)
    = lastCommandStartIdx (push_lines ls st').
Proof.
  intros Hclean. revert st st'.
  induction Hclean as [| l ls Hl _ IH]; intros st st' Hp Hlogs Hfence;
    cbn [feed_lines push_lines foldl]; [now split |].
  fold (feed_lines ls (on_data (l ++ [LF]) st)).
  fold (push_lines ls (push_line l st')).
  destruct (on_data_line l st Hl Hp) as (H1 & H2 & H3).
  destruct (push_line_congr l st st' Hlogs Hfence) as (H4 & H5).
  apply IH; [exact H3 | now rewrite H1 | now rewrite H2].
Qed.

Lemma clean_lines_nonempty (ls : list jsstring) :
  Forall clean_line ls -> Forall (fun l => l <> []) ls.
Proof. intros H. eapply Forall_impl; [exact H |]. intros l (Hne & _). exact Hne. Qed.

(** C3. The log ring never holds more than [LOG_RING_SIZE] = 2000 lines in
    any state the process can reach; a push keeps the last lines of the
    buffer followed by the new line, removing the excess over the capacity
    from the head in one batch; and after [LOG_RING_SIZE + k] lines were
    pushed into an empty buffer it holds exactly the last [LOG_RING_SIZE]
    of them, in the order they were pushed; the same holds when the lines
    arrive as serial data, one line and its line feed per chunk. *)
Theorem ring_buffer_holds_last_capacity_lines :
  LOG_RING_SIZE = 2000%nat /\
  (forall st, reachable st -> (length (logs st) <= LOG_RING_SIZE)%nat) /\
  (forall line st, line <> [] ->
     logs (push_line line st) =
       drop (length (logs st ++ [line]) - LOG_RING_SIZE) (logs st ++ [line])) /\
  (forall ls k st,
     Forall (fun l => l <> []) ls -> logs st = [] ->
     length ls = (LOG_RING_SIZE + k)%nat ->
     logs (push_lines ls st) = drop k ls /\
     length (logs (push_lines ls st)) = LOG_RING_SIZE) /\
  (forall ls k st,
     Forall clean_line ls -> logs st = [] -> partialSerialLine st = [] ->
     length ls = (LOG_RING_SIZE + k)%nat ->
     logs (feed_lines ls st) = drop k ls).
Proof.
  assert (Hlast : forall ls k st,
     Forall (fun l => l <> []) ls -> logs st = [] ->
     length ls = (LOG_RING_SIZE + k)%nat ->
     logs (push_lines ls st) = drop k ls).
  { intros ls k st Hne Hempty Hlen.
    rewrite push_lines_logs; [| exact Hne |].
    - rewrite Hempty. cbn [app]. f_equal. lia.
    - unfold bounded. rewrite Hempty. cbn [length]. lia. }
  split; [reflexivity |]. split; [| split; [| split]].
  - intros st Hr. apply (reachable_inv st Hr).
  - intros line st Hne. rewrite (push_line_logs line st Hne).
    unfold excess_of. now rewrite length_app.
  - intros ls k st Hne Hempty Hlen.
    pose proof (Hlast ls k st Hne Hempty Hlen) as Hlogs.
    split; [exact Hlogs |].
    rewrite Hlogs, length_drop. lia.
  - intros ls k st Hclean Hempty Hp Hlen.
    destruct (feed_lines_ring ls st st Hclean Hp eq_refl eq_refl) as [Hfeed _].
    rewrite Hfeed. apply Hlast; [now apply clean_lines_nonempty | assumption ..].
Qed.

Lemma ring_buffer_holds_last_capacity_lines_witness :
  logs (push_lines (numbered_lines (LOG_RING_SIZE + 3)) init)
    = drop 3 (numbered_lines (LOG_RING_SIZE + 3))
  /\ (length (logs five_lines) <= LOG_RING_SIZE)%nat.
Proof.
  destruct ring_buffer_holds_last_capacity_lines as (_ & Hbound & _ & Hlast & _).
  split.
  - apply (Hlast (numbered_lines (LOG_RING_SIZE + 3)) 3%nat init).
    + apply numbered_lines_nonempty.
    + reflexivity.
    + apply numbered_lines_length.
  - apply (Hbound five_lines). exists
      [Command (Some (js "connect")) (Some (js "/dev/ttyUSB0 115200"));
       PortOpen;
       PortData [ "a"%char; LF; "b"%char; LF; "c"%char; CR; LF ];
       PortData [ "d"%char; LF; "e"%char; LF ]].
    reflexivity.
Defined.

(** C4 (as the code has it). When a push evicts [N > 0] lines from the
    head of the log buffer, the saved command-start index becomes
    [max 0 (index - N)]; it is never negative in a state the process can
    reach. [/serial summarize], which starts from the saved index unless a
    number is given, replaces a start index at or beyond the current buffer
    length by 0, so that it summarises the buffer from its first line. The
    timer of [/serial prompt] cuts the buffer at the saved index without
    that check: with an index at or beyond the buffer length its excerpt
    is empty. *)
Theorem fence_follows_eviction :
  (forall line st, line <> [] -> (0 < excess_of st)%nat ->
     logs (push_line line st) = drop (excess_of st) (logs st ++ [line]) /\
     lastCommandStartIdx (push_line line st)
       = Z.max 0 (lastCommandStartIdx st - Z.of_nat (excess_of st)) /\
     0 <= lastCommandStartIdx (push_line line st)) /\
  (forall st, reachable st -> 0 <= lastCommandStartIdx st) /\
  (forall st, summarize_requested None st = lastCommandStartIdx st) /\
  (forall args st,
     Z.of_nat (length (logs st)) <= summarize_requested args st ->
     clamp_startIdx (summarize_requested args st) st = 0 /\
     summarize_lines args st = logs st) /\
  (forall st,
     Z.of_nat (length (logs st)) <= lastCommandStartIdx st ->
     prompt_excerpt st = []).
Proof.
  split; [| split; [| split; [reflexivity | split]]].
  - intros line st Hne Hex.
    split; [now apply push_line_logs |].
    rewrite (push_line_fence line st Hne).
    destruct (Nat.ltb_spec 0 (excess_of st)); [| lia].
    split; [reflexivity | lia].
  - intros st Hr. apply (reachable_inv st Hr).
  - intros args st Hge.
    assert (Hclamp : clamp_startIdx (summarize_requested args st) st = 0).
    { unfold clamp_startIdx.
      destruct (Z.leb_spec (Z.of_nat (length (logs st)))
                           (summarize_requested args st)); [| lia].
      now rewrite orb_true_r. }
    split; [exact Hclamp |].
    unfold summarize_lines. rewrite Hclamp.
    apply (slice_from_of_nat (logs st) 0).
  - intros st Hge. unfold prompt_excerpt, slice_from, rel_index.
    destruct (Z.ltb_spec (lastCommandStartIdx st) 0); [lia |].
    apply drop_ge. lia.
Qed.

Lemma fence_follows_eviction_witness :
  lastCommandStartIdx (push_line (js "one more") full_buffer) = 4
  /\ 0 <= lastCommandStartIdx five_lines
  /\ summarize_lines (Some (js "7 what happened")) five_lines = logs five_lines
  /\ prompt_excerpt (serial_prompt_send (js "uname -r") five_lines) = [].
Proof.
  destruct fence_follows_eviction as (Hevict & Hnonneg & _ & Hstale & Hprompt).
  split; [| split; [| split]].
  - destruct (Hevict (js "one more") full_buffer) as (_ & Hfence & _).
    + discriminate.
    + unfold excess_of. rewrite full_buffer_logs, numbered_lines_length. lia.
    + rewrite Hfence. unfold excess_of.
      rewrite full_buffer_logs, numbered_lines_length.
      replace (LOG_RING_SIZE + 1 - LOG_RING_SIZE)%nat with 1%nat by lia.
      reflexivity.
  - apply Hnonneg. exists
      [Command (Some (js "connect")) (Some (js "/dev/ttyUSB0 115200"));
       PortOpen;
       PortData [ "a"%char; LF; "b"%char; LF; "c"%char; CR; LF ];
       PortData [ "d"%char; LF; "e"%char; LF ]].
    reflexivity.
  - apply (Hstale (Some (js "7 what happened")) five_lines).
    vm_compute. discriminate.
  - apply (Hprompt (serial_prompt_send (js "uname -r") five_lines)).
    vm_compute. discriminate.
Defined.

(** C4, counterexample: a session holds five lines when [/serial prompt]
    sends a command, which saves the index 5, the buffer length. Before
    the device answers, [/serial summarize] treats that index as the start
    of the buffer and covers all five lines, but the timer of
    [/serial prompt] cuts at 5 and gets nothing. The same holds after
    [/serial clear] and one new line, when the saved index 5 lies beyond
    the buffer length 1. *)
Lemma prompt_timer_does_not_clamp :
  let st := run [PromptDerived (js "uname -r")] five_lines in
  let st' := run [Command (Some (js "clear")) None;
                  PortData (js "login:" ++ [LF])] st in
  lastCommandStartIdx st = 5
  /\ logs st = [js "a"; js "b"; js "c"; js "d"; js "e"]
  /\ summarize_lines None st = logs st
  /\ prompt_excerpt st = []
  /\ prompt_excerpt st <> logs st
  /\ lastCommandStartIdx st' = 5
  /\ logs st' = [js "login:"]
  /\ summarize_lines None st' = logs st'
  /\ prompt_excerpt st' = []
  /\ prompt_excerpt st' <> logs st'.
Proof.
  cbv zeta. repeat split; try (vm_compute; reflexivity); vm_compute; discriminate.
Qed.

Lemma tail_lines_positive (st : State) (n : Z) :
  0 < n ->
  tail_lines n st = drop (length (logs st) - Z.to_nat n) (logs st) /\
  length (tail_lines n st) = Nat.min (Z.to_nat n) (length (logs st)).
Proof.
  intros Hn. unfold tail_lines, slice_from.
  rewrite rel_index_neg by exact Hn.
  split; [reflexivity |]. rewrite length_drop. lia.
Qed.

Lemma tail_count_decimal (n : Z) :
  1 <= n -> tail_count (Some (decimal n)) = to_number n /\ 1 <= to_number n.
Proof.
  intros Hn.
  assert (Hpos : 1 <= to_number n).
  { destruct (Z.lt_ge_cases n (2 ^ 53)) as [Hlt | Hge].
    - rewrite to_number_exact by lia. exact Hn.
    - pose proof (to_number_large n Hge) as H.
      assert (1 <= 2 ^ 53) by (vm_compute; discriminate). lia. }
  split; [| exact Hpos].
  unfold tail_count. pose proof (decimal_nonempty n) as Hne.
  destruct (decimal n) as [| c rest] eqn:E; [congruence |].
  rewrite <- E, parseInt10_decimal by lia.
  destruct (Z.eqb_spec (to_number n) 0); [lia | reflexivity].
Qed.

(** What matters of a count is its minimum with the buffer length, which
    rounding to a double does not change for a buffer below 2^53 lines. *)
Lemma to_number_min (n : Z) (len : nat) :
  0 <= n -> Z.of_nat len < 2 ^ 53 ->
  Nat.min (Z.to_nat (to_number n)) len = Nat.min (Z.to_nat n) len.
Proof.
  intros Hn Hlen. destruct (Z.lt_ge_cases n (2 ^ 53)) as [Hlt | Hge].
  - now rewrite to_number_exact by lia.
  - pose proof (to_number_large n Hge). lia.
Qed.

Lemma bounded_below_2_53 (st : State) :
  bounded st -> Z.of_nat (length (logs st)) < 2 ^ 53.
Proof.
  unfold bounded, LOG_RING_SIZE. intros H.
  assert (2000 < 2 ^ 53) by reflexivity. lia.
Qed.

(** A count of infinity shows the whole buffer, as [slice(-Infinity)]
    does. *)
Lemma tail_lines_Infinity (st : State) :
  bounded st -> tail_lines Infinity st = logs st.
Proof.
  intros Hb. unfold tail_lines, slice_from, rel_index.
  assert (HI : 2 ^ 53 < Infinity) by reflexivity.
  assert (H53 : 0 < 2 ^ 53) by reflexivity.
  pose proof (bounded_below_2_53 st Hb) as Hlen.
  destruct (Z.ltb_spec (- Infinity) 0); [| lia].
  replace (Z.to_nat (Z.max (Z.of_nat (length (logs st)) + - Infinity) 0))
    with 0%nat by lia.
  reflexivity.
Qed.

(** C6 (as the code has it). [/serial tail] with a count [n >= 1], written
    as a decimal numeral, shows the last [n] lines of the buffer in their
    stored order, all of them when the buffer holds fewer: the count read
    is [n] rounded to a double, which is [n] itself below 2^53 and never
    below the buffer length otherwise. [tail 3] on a buffer holding
    a, b, c, d, e gives c, d, e. A missing or empty count, a count that
    does not begin with a decimal number, and a count of 0 are replaced by
    20. A negative count [-k] shows the buffer without its first [k]
    lines. *)
Theorem tail_returns_last_lines :
  (forall st n, 0 < n ->
     tail_lines n st = drop (length (logs st) - Z.to_nat n) (logs st) /\
     length (tail_lines n st) = Nat.min (Z.to_nat n) (length (logs st))) /\
  (forall n, 1 <= n ->
     tail_count (Some (decimal n)) = to_number n /\
     (n < 2 ^ 53 -> tail_count (Some (decimal n)) = n)) /\
  (forall st n, reachable st -> 1 <= n ->
     let shown := drop (length (logs st) - Z.to_nat n) (logs st) in
     tail_lines (tail_count (Some (decimal n))) st = shown /\
     length shown = Nat.min (Z.to_nat n) (length (logs st)) /\
     messages (serial_action (Some (js "tail")) (Some (decimal n)) st)
       = messages st ++ [InfoTail (to_number n) (join [LF] shown)]) /\
  (tail_count (Some (js "3")) = 3 /\
   tail_lines 3 five_lines = [js "c"; js "d"; js "e"]) /\
  (tail_count None = 20 /\ tail_count (Some []) = 20 /\
   (forall a, leading_digit (snd (strip_sign (trimStart a))) = false ->
      parseInt10 a = None /\ tail_count (Some a) = 20) /\
   (forall a, parseInt10 a = Some 0 -> tail_count (Some a) = 20) /\
   tail_count (Some (js "0")) = 20 /\ tail_count (Some (js "all")) = 20) /\
  (forall st k, reachable st -> 1 <= k ->
     tail_count (Some ("-"%char :: decimal k)) = - to_number k /\
     tail_lines (tail_count (Some ("-"%char :: decimal k))) st
       = drop (Z.to_nat k) (logs st)).
Proof.
  split; [exact tail_lines_positive |].
  split; [| split; [| split; [| split]]].
  - intros n Hn. destruct (tail_count_decimal n Hn) as [Hc _].
    split; [exact Hc |]. intros Hlt. rewrite Hc. apply to_number_exact. lia.
  - intros st n Hr Hn. cbv zeta.
    destruct (tail_count_decimal n Hn) as [Hc Hpos].
    pose proof (bounded_below_2_53 st (proj1 (reachable_inv st Hr))) as Hlen.
    pose proof (to_number_min n (length (logs st)) ltac:(lia) Hlen) as Hmin.
    assert (Hshown : tail_lines (tail_count (Some (decimal n))) st
                     = drop (length (logs st) - Z.to_nat n) (logs st)).
    { rewrite Hc.
      destruct (tail_lines_positive st (to_number n) ltac:(lia)) as [-> _].
      f_equal. lia. }
    split; [exact Hshown |]. split; [rewrite length_drop; lia |].
    change (serial_action (Some (js "tail")) (Some (decimal n)) st)
      with (serial_tail (Some (decimal n)) st).
    unfold serial_tail. cbv zeta. rewrite Hshown, Hc. reflexivity.
  - split; [reflexivity | vm_compute; reflexivity].
  - split; [reflexivity |]. split; [reflexivity |].
    split; [| split; [| split; reflexivity]].
    + intros a Ha. pose proof (parseInt10_NaN a Ha) as Hnan.
      split; [exact Hnan |]. unfold tail_count.
      destruct a as [| c rest]; [reflexivity |]. now rewrite Hnan.
    + intros a Ha. unfold tail_count.
      destruct a as [| c rest]; [reflexivity |]. now rewrite Ha.
  - intros st k Hr Hk.
    pose proof (bounded_below_2_53 st (proj1 (reachable_inv st Hr))) as Hlen.
    pose proof (to_number_min k (length (logs st)) ltac:(lia) Hlen) as Hmin.
    assert (Hpos : 1 <= to_number k) by apply (tail_count_decimal k Hk).
    assert (Hc : tail_count (Some ("-"%char :: decimal k)) = - to_number k).
    { unfold tail_count. rewrite parseInt10_minus_decimal by lia.
      destruct (Z.eqb_spec (- to_number k) 0); [lia | reflexivity]. }
    split; [exact Hc |]. rewrite Hc.
    unfold tail_lines, slice_from, rel_index. rewrite Z.opp_involutive.
    destruct (Z.ltb_spec (to_number k) 0); [lia |].
    destruct (Nat.le_gt_cases (Z.to_nat k) (length (logs st))) as [Hle | Hgt].
    + f_equal. lia.
    + rewrite !drop_ge by lia. reflexivity.
Qed.

Lemma tail_returns_last_lines_witness :
  tail_lines 2 five_lines = drop (length (logs five_lines) - 2) (logs five_lines)
  /\ tail_count (Some (decimal 4)) = 4
  /\ tail_lines (tail_count (Some (decimal 4))) five_lines
     = drop (length (logs five_lines) - 4) (logs five_lines)
  /\ tail_count (Some (js "last")) = 20
  /\ tail_lines (tail_count (Some ("-"%char :: decimal 2))) five_lines
     = drop 2 (logs five_lines).
Proof.
  destruct tail_returns_last_lines as (Hlast & Hcount & Hshow & _ & Hfall & Hneg).
  assert (Hr : reachable five_lines).
  { exists
      [Command (Some (js "connect")) (Some (js "/dev/ttyUSB0 115200"));
       PortOpen;
       PortData [ "a"%char; LF; "b"%char; LF; "c"%char; CR; LF ];
       PortData [ "d"%char; LF; "e"%char; LF ]].
    reflexivity. }
  split; [| split; [| split; [| split]]].
  - destruct (Hlast five_lines 2) as [Heq _]; [lia |]. exact Heq.
  - destruct (Hcount 4) as [_ Hexact]; [lia |]. apply Hexact. reflexivity.
  - destruct (Hshow five_lines 4 Hr) as [Heq _]; [lia |]. exact Heq.
  - destruct Hfall as (_ & _ & Hnan & _).
    destruct (Hnan (js "last")) as [_ H20]; [reflexivity |]. exact H20.
  - destruct (Hneg five_lines 2 Hr) as [_ Heq]; [lia |]. exact Heq.
Defined.

(** C6, counterexample: [/serial tail 0] on a buffer holding a, b, c, d, e
    shows all five lines, not an empty sequence. *)
Lemma tail_zero_is_not_empty :
  serial_action (Some (js "tail")) (Some (js "0")) five_lines
    = serial_tail (Some (js "0")) five_lines
  /\ tail_lines (tail_count (Some (js "0"))) five_lines
       = [js "a"; js "b"; js "c"; js "d"; js "e"]
  /\ tail_lines (tail_count (Some (js "0"))) five_lines <> [].
Proof.
  split; [reflexivity |].
  assert (H : tail_lines (tail_count (Some (js "0"))) five_lines
              = [js "a"; js "b"; js "c"; js "d"; js "e"])
    by (vm_compute; reflexivity).
  split; [exact H | rewrite H; discriminate].
Qed.

(** C7. [/serial clear] empties the array [recentLogs] refers to and
    allocates nothing: the binding and the global table are unchanged and
    the heap differs only in that array, so a holder of the old reference
    reads the emptied array. Clearing twice leaves the buffer empty after
    each call, and [tail] right after a clear shows nothing, for every
    count. *)
Theorem clear_empties_buffer_in_place (args : option jsstring) (st : State) :
  let st1 := serial_action (Some (js "clear")) args st in
  let st2 := serial_action (Some (js "clear")) args st1 in
  recentLogs st1 = recentLogs st /\
  globalThis st1 = globalThis st /\
  arrays st1 = <[ recentLogs st := [] ]> (arrays st) /\
  deref st1 (recentLogs st) = [] /\
  logs st1 = [] /\ logs st2 = [] /\
  (forall n, tail_lines n st1 = [] /\ tail_lines n st2 = []) /\
  (forall targs, exists n,
     messages (serial_action (Some (js "tail")) targs st1)
       = messages st1 ++ [InfoTail n []]).
Proof.
  cbv zeta.
  change (serial_action (Some (js "clear")) args st) with (serial_clear st).
  change (serial_action (Some (js "clear")) args (serial_clear st))
    with (serial_clear (serial_clear st)).
  assert (H1 : logs (serial_clear st) = []).
  { unfold serial_clear. change (logs (addMessage ?m ?s)) with (logs s).
    apply logs_set_logs. }
  assert (H2 : logs (serial_clear (serial_clear st)) = []).
  { unfold serial_clear at 1. change (logs (addMessage ?m ?s)) with (logs s).
    apply logs_set_logs. }
  repeat split; try reflexivity; try assumption.
  - unfold tail_lines. rewrite H1. apply slice_from_nil.
  - unfold tail_lines. rewrite H2. apply slice_from_nil.
  - intros targs. exists (tail_count targs).
    change (serial_action (Some (js "tail")) targs (serial_clear st))
      with (serial_tail targs (serial_clear st)).
    unfold serial_tail, tail_lines. rewrite H1, slice_from_nil. reflexivity.
Qed.

(** C9 (as the code has it). [/serial disconnect] stops the worker and
    removes [GEMINI_ACTIVE_SERIAL] from the global table and
    [GEMINI_SERIAL_PORT] from the environment. The heap of arrays, and with
    it the contents of the log buffer and the published
    [GEMINI_SERIAL_LOGS] reference, are unchanged. It calls [close()] on
    the port of a console that is open; a console that is not open, its
    port still opening included, is left as it is. *)
Theorem disconnect_keeps_log_buffer (args : option jsstring) (st : State) :
  let st' := serial_action (Some (js "disconnect")) args st in
  arrays st' = arrays st /\
  recentLogs st' = recentLogs st /\
  logs st' = logs st /\
  globalThis st' !! "GEMINI_SERIAL_LOGS"%string
    = globalThis st !! "GEMINI_SERIAL_LOGS"%string /\
  globalThis st' !! "GEMINI_ACTIVE_SERIAL"%string = None /\
  env st' !! "GEMINI_SERIAL_PORT"%string = None /\
  serialWorker st' = None /\
  serial st' = SerialConsole.disconnect <$> serial st /\
  (forall c p,
     serial st = Some c -> SerialConsole.port c = Some p ->
     SerialConsole.isOpen c = true ->
     exists c', serial st' = Some c' /\
       SerialConsole.port c' = Some (SerialConsole.port_close p) /\
       SerialConsole.closeCalled (SerialConsole.port_close p) = true) /\
  (forall c,
     serial st = Some c -> SerialConsole.isOpen c = false ->
     serial st' = Some c).
Proof.
  cbv zeta.
  change (serial_action (Some (js "disconnect")) args st)
    with (serial_disconnect st).
  assert (Hserial : serial (serial_disconnect st)
                    = SerialConsole.disconnect <$> serial st).
  { unfold serial_disconnect, disconnect_serial.
    destruct (serial st) eqn:E; cbn [fmap option_fmap option_map]; [reflexivity |].
    change (serial st = None). exact E. }
  assert (Harr : arrays (serial_disconnect st) = arrays st).
  { unfold serial_disconnect, disconnect_serial. destruct (serial st); reflexivity. }
  assert (Href : recentLogs (serial_disconnect st) = recentLogs st).
  { unfold serial_disconnect, disconnect_serial. destruct (serial st); reflexivity. }
  assert (Hglob : globalThis (serial_disconnect st)
                  = delete "GEMINI_ACTIVE_SERIAL"%string (globalThis st)).
  { unfold serial_disconnect, disconnect_serial. destruct (serial st); reflexivity. }
  assert (Henv : env (serial_disconnect st)
                 = delete "GEMINI_SERIAL_PORT"%string (env st)).
  { unfold serial_disconnect, disconnect_serial. destruct (serial st); reflexivity. }
  split; [exact Harr |]. split; [exact Href |].
  split; [unfold logs, deref; now rewrite Harr, Href |].
  split; [rewrite Hglob; now apply lookup_delete_ne |].
  split; [rewrite Hglob; apply lookup_delete_eq |].
  split; [rewrite Henv; apply lookup_delete_eq |].
  split; [reflexivity |].
  split; [exact Hserial |].
  split.
  - intros c p Hc Hp Hopen.
    exists (SerialConsole.disconnect c).
    split; [rewrite Hserial, Hc; reflexivity |].
    unfold SerialConsole.disconnect. rewrite Hp, Hopen. split; reflexivity.
  - intros c Hc Hclosed. rewrite Hserial, Hc. cbn [fmap option_fmap option_map].
    unfold SerialConsole.disconnect. rewrite Hclosed.
    now destruct (SerialConsole.port c).
Qed.

Lemma disconnect_keeps_log_buffer_witness :
  (exists c',
    serial (serial_action (Some (js "disconnect")) None five_lines) = Some c'
    /\ SerialConsole.port c'
       = Some (SerialConsole.port_close
                 (SerialConsole.mkPort (js "/dev/ttyUSB0") (Some 115200) [] false))
    /\ SerialConsole.closeCalled
         (SerialConsole.port_close
            (SerialConsole.mkPort (js "/dev/ttyUSB0") (Some 115200) [] false)) = true)
  /\ serial (serial_action (Some (js "disconnect")) None connecting)
     = Some (SerialConsole.connect (js "/dev/ttyUSB0") (Some 115200)
               SerialConsole.new).
Proof.
  split.
  - destruct (disconnect_keeps_log_buffer None five_lines)
      as (_ & _ & _ & _ & _ & _ & _ & _ & Hclose & _).
    apply (Hclose
             (SerialConsole.on_port_data [ "d"%char; LF; "e"%char; LF ]
                (SerialConsole.on_port_data
                   [ "a"%char; LF; "b"%char; LF; "c"%char; CR; LF ] open_console)));
      reflexivity.
  - destruct (disconnect_keeps_log_buffer None connecting)
      as (_ & _ & _ & _ & _ & _ & _ & _ & _ & Hleft).
    apply Hleft; reflexivity.
Defined.

(** C9, counterexample: [/serial disconnect] right after
    [/serial connect], before the port has opened. The session state is
    cleared, but [close()] is not called on the port: the console is the
    one [connect] left. The port then opens and the text it delivers is
    pushed into the log buffer of the session that was disconnected. *)
Lemma disconnect_before_open_leaves_port :
  let st := run [Command (Some (js "disconnect")) None] connecting in
  let later := run [PortOpen; PortData (js "login:" ++ [LF])] st in
  globalThis st !! "GEMINI_ACTIVE_SERIAL"%string = None
  /\ env st !! "GEMINI_SERIAL_PORT"%string = None
  /\ serial st = serial connecting
  /\ (SerialConsole.closeCalled <$> (serial st ≫= SerialConsole.port)) = Some false
  /\ (SerialConsole.isOpen <$> serial later) = Some true
  /\ logs st = []
  /\ logs later = [js "login:"].
Proof. cbv zeta. repeat split; vm_compute; reflexivity. Qed.

End CliClaims.

(* ===================================================================== *)
(** ** Sending on the console *)
(* ===================================================================== *)

Module SerialConsoleClaims.
Import Js SerialConsole.

(** C5 (as the code has it). On a console whose port is open, [send(text)]
    writes the text followed by one line break, whether or not the text
    already ends with one, and emits nothing. On a console without an open
    port it writes nothing and emits an 'error' event saying that the
    serial port is not open. *)
Theorem send_appends_line_break (data : jsstring) (c : t) :
  (forall p, port c = Some p -> isOpen c = true ->
     transmitted (send data c) = transmitted c ++ [data ++ [LF]] /\
     emitted (send data c) = emitted c) /\
  (port c = None \/ isOpen c = false ->
     transmitted (send data c) = transmitted c /\
     emitted (send data c)
       = emitted c ++ [EvError (js "Serial port not open")]).
Proof.
  split.
  - intros p Hp Hopen. unfold send, transmitted. rewrite Hp, Hopen.
    split; reflexivity.
  - intros Hclosed. unfold send, transmitted.
    destruct (port c) as [p |] eqn:Hp.
    + destruct Hclosed as [Hnone | Hnot]; [discriminate |].
      rewrite Hnot. cbn. rewrite Hp. split; reflexivity.
    + cbn. rewrite Hp. split; reflexivity.
Qed.

Lemma send_appends_line_break_witness :
  transmitted (send (js "uname -r") Cli.open_console)
    = [js "uname -r" ++ [LF]]
  /\ emitted (send (js "uname -r") new) = [EvError (js "Serial port not open")].
Proof.
  split.
  - destruct (send_appends_line_break (js "uname -r") Cli.open_console)
      as [Hopen _].
    destruct (Hopen (mkPort (js "/dev/ttyUSB0") (Some 115200) [] false))
      as [Hsent _]; [reflexivity | reflexivity |].
    exact Hsent.
  - destruct (send_appends_line_break (js "uname -r") new) as [_ Hclosed].
    destruct Hclosed as [_ Hemit]; [left; reflexivity |].
    exact Hemit.
Defined.

(** C5, counterexample: a text that already ends with a line break is sent
    with a second one. *)
Lemma send_doubles_trailing_line_break :
  transmitted (send [ "l"%char; "s"%char; LF ] Cli.open_console)
    = [[ "l"%char; "s"%char; LF; LF ]]
  /\ transmitted (send [ "l"%char; "s"%char; LF ] Cli.open_console)
     <> [[ "l"%char; "s"%char; LF ]].
Proof. split; [reflexivity | discriminate]. Qed.

End SerialConsoleClaims.

(* ===================================================================== *)
(** ** Line-exact extraction *)
(* ===================================================================== *)

Module LineFacts.
Import Js Framing JsFacts.

Section FindIndex.
Context {A : Type} (p : A -> nat -> bool).

Lemma findIndex_from_Some (l : list A) (i k : nat) :
  findIndex_from p l i = Some k ->
  exists x, (i <= k)%nat /\ l !! (k - i)%nat = Some x /\ p x k = true /\
    forall j y, (j < k - i)%nat -> l !! j = Some y -> p y (i + j)%nat = false.
Proof.
  revert i. induction l as [| x l IH]; intros i H; cbn in H; [discriminate |].
  destruct (p x i) eqn:Hp.
  - injection H as <-. exists x. rewrite Nat.sub_diag.
    repeat split; [lia | assumption | intros j y Hj; lia].
  - destruct (IH (S i) H) as (y & Hle & Hlook & Hpy & Hbefore).
    exists y. replace (k - i)%nat with (S (k - S i)) by lia.
    repeat split; [lia | exact Hlook | exact Hpy |].
    intros [| j] z Hj Hz.
    + cbn in Hz. injection Hz as <-. now rewrite Nat.add_0_r.
    + cbn in Hz. replace (i + S j)%nat with (S i + j)%nat by lia.
      apply (Hbefore j z); [lia | exact Hz].
Qed.

Lemma findIndex_from_first (l0 : list A) (x : A) (rest : list A) (i : nat) :
  (forall j y, l0 !! j = Some y -> p y (i + j)%nat = false) ->
  p x (i + length l0)%nat = true ->
  findIndex_from p (l0 ++ x :: rest) i = Some (i + length l0)%nat.
Proof.
  revert i. induction l0 as [| y l0 IH]; intros i Hbefore Hx; cbn.
  - rewrite Nat.add_0_r in *. now rewrite Hx.
  - assert (Hy : p y i = false).
    { specialize (Hbefore 0%nat y eq_refl). now rewrite Nat.add_0_r in Hbefore. }
    rewrite Hy. rewrite IH.
    + f_equal. lia.
    + intros j z Hz. specialize (Hbefore (S j) z Hz).
      now replace (S i + j)%nat with (i + S j)%nat by lia.
    + now replace (S i + length l0)%nat with (i + S (length l0))%nat by lia.
Qed.

Lemma findIndex_from_None (l : list A) (i : nat) :
  (forall j y, l !! j = Some y -> p y (i + j)%nat = false) ->
  findIndex_from p l i = None.
Proof.
  revert i. induction l as [| y l IH]; intros i Hall; cbn; [reflexivity |].
  assert (Hy : p y i = false).
  { specialize (Hall 0%nat y eq_refl). now rewrite Nat.add_0_r in Hall. }
  rewrite Hy. apply IH. intros j z Hz. specialize (Hall (S j) z Hz).
  now replace (S i + j)%nat with (i + S j)%nat by lia.
Qed.
End FindIndex.

Lemma is_marker_line_true (mark l : jsstring) :
  is_marker_line mark l = true <-> trim l = mark.
Proof. unfold is_marker_line. apply bool_decide_eq_true. Qed.

Lemma is_marker_line_false (mark l : jsstring) :
  is_marker_line mark l = false <-> trim l <> mark.
Proof. unfold is_marker_line. apply bool_decide_eq_false. Qed.

(** What a successful extraction returns. *)
Lemma extract_lines_sound (START END : jsstring) (lines payload : list jsstring) :
  extract_lines START END lines = Some payload ->
  exists i j ls le,
    (i < j)%nat /\
    lines !! i = Some ls /\ trim ls = START /\
    lines !! j = Some le /\ trim le = END /\
    (forall i' l, (i' < i)%nat -> lines !! i' = Some l -> trim l <> START) /\
    (forall j' l, (i < j' < j)%nat -> lines !! j' = Some l -> trim l <> END) /\
    payload = take (j - (i + 1)) (drop (i + 1) lines).
Proof.
  unfold extract_lines, findIndex. intros H.
  destruct (findIndex_from (fun l _ => is_marker_line START l) lines 0)
    as [i |] eqn:Hi; [| discriminate].
  destruct (findIndex_from
              (fun l k => (i <? k)%nat && is_marker_line END l) lines 0)
    as [j |] eqn:Hj; [| discriminate].
  injection H as <-.
  apply findIndex_from_Some in Hi as (ls & _ & Hls & Hps & Hbefore_s).
  apply findIndex_from_Some in Hj as (le & _ & Hle & Hpe & Hbefore_e).
  rewrite Nat.sub_0_r in *.
  apply andb_true_iff in Hpe as [Hlt Hpe]. apply Nat.ltb_lt in Hlt.
  exists i, j, ls, le.
  repeat split; try assumption; try lia.
  - now apply is_marker_line_true.
  - now apply is_marker_line_true.
  - intros i' l Hi' Hl. apply is_marker_line_false.
    apply (Hbefore_s i' l Hi' Hl).
  - intros j' l [Hij Hj'] Hl. apply is_marker_line_false.
    specialize (Hbefore_e j' l Hj' Hl). cbn in Hbefore_e.
    apply andb_false_iff in Hbefore_e as [Hnlt | Hnot]; [| exact Hnot].
    apply Nat.ltb_ge in Hnlt. lia.
  - replace (Z.of_nat i + 1) with (Z.of_nat (i + 1)) by lia.
    apply slice_of_nat.
Qed.

(** The first start line and the first end line behind it are selected,
    whatever follows them. *)
Lemma extract_lines_first_pair (START END : jsstring)
    (before : list jsstring) (ls : jsstring) (payload : list jsstring)
    (le : jsstring) (rest : list jsstring) :
  Forall (fun l => trim l <> START) before ->
  trim ls = START ->
  Forall (fun l => trim l <> END) payload ->
  trim le = END ->
  extract_lines START END (before ++ ls :: payload ++ le :: rest) = Some payload.
Proof.
  intros Hbefore Hls Hpayload Hle. unfold extract_lines, findIndex.
  rewrite (findIndex_from_first (fun l _ => is_marker_line START l)
             before ls (payload ++ le :: rest) 0).
  2: { intros j y Hy. apply is_marker_line_false.
       rewrite Forall_forall in Hbefore. apply Hbefore.
       eapply list_elem_of_lookup_2; eauto. }
  2: { now apply is_marker_line_true. }
  cbn [Nat.add].
  replace (before ++ ls :: payload ++ le :: rest)
    with ((before ++ ls :: payload) ++ le :: rest)
    by (rewrite <- app_assoc; reflexivity).
  rewrite (findIndex_from_first
             (fun l i => (length before <? i)%nat && is_marker_line END l)
             (before ++ ls :: payload) le rest 0).
  - cbn [Nat.add]. f_equal.
    replace (Z.of_nat (length before) + 1) with (Z.of_nat (length before + 1)) by lia.
    rewrite slice_of_nat.
    rewrite length_app. cbn [length].
    replace (length before + S (length payload) - (length before + 1))%nat
      with (length payload) by lia.
    rewrite <- app_assoc. cbn [app].
    replace (before ++ ls :: payload ++ le :: rest)
      with ((before ++ [ls]) ++ payload ++ le :: rest)
      by (rewrite <- app_assoc; reflexivity).
    rewrite drop_app_length'; [| rewrite length_app; cbn; lia].
    now rewrite take_app_length.
  - intros j y Hy. cbn [Nat.add]. apply andb_false_iff.
    destruct (Nat.le_gt_cases j (length before)) as [Hj | Hj].
    + left. apply Nat.ltb_ge. exact Hj.
    + right. apply is_marker_line_false.
      rewrite lookup_app_r in Hy by lia.
      destruct (j - length before)%nat as [| m] eqn:Hm; [lia |].
      cbn in Hy. rewrite Forall_forall in Hpayload. apply Hpayload.
      eapply list_elem_of_lookup_2; eauto.
  - cbn [Nat.add]. apply andb_true_iff. split.
    + apply Nat.ltb_lt. rewrite length_app. cbn [length]. lia.
    + now apply is_marker_line_true.
Qed.

(** Trimming leaves a text alone when neither end is blank. *)
Lemma trimEnd_last_not_ws (s : jsstring) (c : ascii) :
  is_ws c = false -> trimEnd (s ++ [c]) = s ++ [c].
Proof.
  intros Hc. unfold trimEnd. rewrite rev_app_distr. cbn [rev app trimStart].
  rewrite Hc. change (c :: rev s) with ([c] ++ rev s).
  rewrite rev_app_distr, rev_involutive. reflexivity.
Qed.

Lemma trimStart_app_not_ws (pre s : jsstring) :
  existsb (fun c => negb (is_ws c)) pre = true ->
  exists pre', pre' <> [] /\ trimStart (pre ++ s) = pre' ++ s.
Proof.
  induction pre as [| c pre IH]; intros H; cbn in H; [discriminate |].
  cbn [app trimStart]. destruct (is_ws c) eqn:Hc.
  - cbn in H. destruct (IH H) as (pre' & Hne & Heq). now exists pre'.
  - exists (c :: pre). split; [discriminate | reflexivity].
Qed.

Lemma marker_ends_with_underscore (tag : string) (id : jsstring) :
  exists body, marker tag id = body ++ ["_"%char].
Proof.
  unfold marker. exists (js "__" ++ js tag ++ js "_" ++ id ++ js "_").
  rewrite <- !app_assoc. reflexivity.
Qed.

(** A marker preceded by other text on its line, such as the echoed
    [echo <marker>] of the script source, is not a marker line. *)
Lemma prefixed_marker_rejected (tag : string) (id pre : jsstring) :
  existsb (fun c => negb (is_ws c)) pre = true ->
  is_marker_line (marker tag id) (pre ++ marker tag id) = false.
Proof.
  intros Hpre. apply is_marker_line_false.
  destruct (trimStart_app_not_ws pre (marker tag id) Hpre) as (pre' & Hne & Heq).
  unfold trim. rewrite Heq.
  destruct (marker_ends_with_underscore tag id) as (body & Hbody).
  rewrite Hbody, app_assoc, trimEnd_last_not_ws by reflexivity.
  intros Habs. apply (f_equal length) in Habs.
  rewrite !length_app in Habs. destruct pre'; [congruence | cbn in Habs; lia].
Qed.

Lemma echo_line_rejected (tag : string) (id : jsstring) :
  is_marker_line (marker tag id) (js "echo " ++ marker tag id) = false.
Proof. apply prefixed_marker_rejected. reflexivity. Qed.

(** C10. In the log-buffer extraction of the device-info and driver-info
    tools a line is a marker line exactly when its trimmed text equals the
    marker, so the echoed source line [echo <marker>] is none. A successful
    extraction has found the first start-marker line and the first
    end-marker line behind it, and returns the lines strictly between the
    two, without the marker lines; both pollers hand on exactly these. *)
Theorem marker_lines_are_exact (START END : jsstring)
    (lines payload : list jsstring) :
  extract_lines START END lines = Some payload ->
  (exists i j ls le,
     (i < j)%nat /\
     lines !! i = Some ls /\ trim ls = START /\
     lines !! j = Some le /\ trim le = END /\
     (forall i' l, (i' < i)%nat -> lines !! i' = Some l -> trim l <> START) /\
     (forall j' l, (i < j' < j)%nat -> lines !! j' = Some l -> trim l <> END) /\
     payload = take (j - (i + 1)) (drop (i + 1) lines)) /\
  (forall mark l, is_marker_line mark l = true <-> trim l = mark) /\
  (forall tag id,
     is_marker_line (marker tag id) (js "echo " ++ marker tag id) = false) /\
  (forall now startTime logs startLen,
     lines = slice_from logs (Z.of_nat startLen) ->
     now - startTime <= DeviceInfo.timeoutMs ->
     DeviceInfo.poller now startTime logs startLen START END
       = Settled (Resolved (join [LF] payload))) /\
  (forall now deadline logs startLen,
     lines = slice_from logs (Z.of_nat startLen) ->
     now <= deadline ->
     DriverInfo.timer now deadline logs startLen START END
       = Settled (Resolved (DriverInfo.parse_payload payload))).
Proof.
  intros H. split; [now apply extract_lines_sound |].
  split; [apply is_marker_line_true |].
  split; [apply echo_line_rejected |].
  split.
  - intros now startTime logs startLen -> Hnow. unfold DeviceInfo.poller.
    destruct (Z.ltb_spec DeviceInfo.timeoutMs (now - startTime)); [lia |].
    now rewrite H.
  - intros now deadline logs startLen -> Hnow. unfold DriverInfo.timer.
    destruct (Z.ltb_spec deadline now); [lia |].
    now rewrite H.
Qed.

Lemma marker_lines_are_exact_witness :
  DeviceInfo.poller 1150 1000 (js "boot ok" :: echoed_capture) 1
    (DeviceInfo.START_MARK (js "k3x9q1")) (DeviceInfo.END_MARK (js "k3x9q1"))
  = Settled (Resolved (join [LF] [js "Foo Board"; js "aarch64"])).
Proof.
  destruct (marker_lines_are_exact
              (DeviceInfo.START_MARK (js "k3x9q1"))
              (DeviceInfo.END_MARK (js "k3x9q1"))
              echoed_capture [js "Foo Board"; js "aarch64"])
    as (_ & _ & _ & Hpoller & _).
  - vm_compute. reflexivity.
  - apply Hpoller; [vm_compute; reflexivity | vm_compute; discriminate].
Defined.

End LineFacts.

(* ===================================================================== *)
(** ** Occurrences, [indexOf] and [split] *)
(* ===================================================================== *)

Module TextFacts.
Import Js Framing JsFacts.

Lemma starts_with_spec (pat s : jsstring) :
  starts_with pat s = true <-> take (length pat) s = pat.
Proof.
  revert s. induction pat as [| p pat IH]; intros s; cbn.
  - split; reflexivity.
  - destruct s as [| c s]; cbn.
    + split; discriminate.
    + rewrite andb_true_iff, bool_decide_eq_true, IH. split.
      * intros [-> ->]. reflexivity.
      * intros H. injection H as -> H. split; [reflexivity | exact H].
Qed.

Lemma occurs_at_0 (pat s : jsstring) : occurs_at pat s 0 <-> starts_with pat s = true.
Proof. unfold occurs_at. rewrite drop_0. symmetry. apply starts_with_spec. Qed.

Lemma occurs_at_cons (pat : jsstring) (c : ascii) (s : jsstring) (i : nat) :
  occurs_at pat (c :: s) (S i) <-> occurs_at pat s i.
Proof. reflexivity. Qed.

Lemma occurs_at_drop (pat s : jsstring) (k i : nat) :
  occurs_at pat (drop k s) i <-> occurs_at pat s (k + i).
Proof. unfold occurs_at. now rewrite drop_drop. Qed.

Lemma occurs_at_bound (pat s : jsstring) (i : nat) :
  pat <> [] -> occurs_at pat s i -> (i + length pat <= length s)%nat.
Proof.
  unfold occurs_at. intros Hne H. apply (f_equal length) in H.
  rewrite length_take, length_drop in H.
  assert (0 < length pat)%nat by (destruct pat; [congruence | cbn; lia]).
  lia.
Qed.

Lemma occurs_at_take (pat s : jsstring) (n i : nat) :
  (i + length pat <= n)%nat ->
  occurs_at pat (take n s) i <-> occurs_at pat s i.
Proof.
  intros Hle. unfold occurs_at.
  replace n with (i + (n - i))%nat at 1 by lia.
  rewrite <- take_drop_commute, take_take.
  replace (length pat `min` (n - i))%nat with (length pat) by lia.
  reflexivity.
Qed.

Lemma occurs_at_take_inv (pat s : jsstring) (n i : nat) :
  pat <> [] -> occurs_at pat (take n s) i -> occurs_at pat s i.
Proof.
  intros Hne H. pose proof (occurs_at_bound _ _ _ Hne H) as Hb.
  rewrite length_take in Hb.
  apply (occurs_at_take pat s n i); [lia | exact H].
Qed.

Lemma index_from_first (pat s : jsstring) (k n : nat) :
  occurs_at pat s n ->
  (forall j, (j < n)%nat -> ~ occurs_at pat s j) ->
  index_from pat s k = Some (k + n)%nat.
Proof.
  revert s k. induction n as [| n IH]; intros s k Hocc Hfirst.
  - apply occurs_at_0 in Hocc. destruct s; cbn in *; rewrite Hocc;
      now rewrite Nat.add_0_r.
  - assert (Hno : starts_with pat s = false).
    { destruct (starts_with pat s) eqn:E; [| reflexivity].
      exfalso. apply (Hfirst 0%nat); [lia | now apply occurs_at_0]. }
    destruct s as [| c s].
    + exfalso. apply (Hfirst 0%nat); [lia |].
      unfold occurs_at in *. now rewrite drop_nil in *.
    + cbn [index_from]. rewrite Hno.
      rewrite (IH s (S k)).
      * f_equal. lia.
      * exact Hocc.
      * intros j Hj. specialize (Hfirst (S j) ltac:(lia)). exact Hfirst.
Qed.

Lemma index_from_none (pat s : jsstring) (k : nat) :
  (forall j, ~ occurs_at pat s j) -> index_from pat s k = None.
Proof.
  revert k. induction s as [| c s IH]; intros k Hno.
  - cbn. destruct (starts_with pat []) eqn:E; [| reflexivity].
    exfalso. apply (Hno 0%nat). now apply occurs_at_0.
  - cbn [index_from]. destruct (starts_with pat (c :: s)) eqn:E.
    + exfalso. apply (Hno 0%nat). now apply occurs_at_0.
    + apply IH. intros j. exact (Hno (S j)).
Qed.

Lemma index_from_Some (pat s : jsstring) (k i : nat) :
  index_from pat s k = Some i ->
  exists n, i = (k + n)%nat /\ occurs_at pat s n /\
    forall j, (j < n)%nat -> ~ occurs_at pat s j.
Proof.
  revert k. induction s as [| c s IH]; intros k H.
  - cbn in H. destruct (starts_with pat []) eqn:E; [| discriminate].
    injection H as <-. exists 0%nat.
    repeat split; [lia | now apply occurs_at_0 | intros j Hj; lia].
  - cbn [index_from] in H. destruct (starts_with pat (c :: s)) eqn:E.
    + injection H as <-. exists 0%nat.
      repeat split; [lia | now apply occurs_at_0 | intros j Hj; lia].
    + destruct (IH (S k) H) as (n & -> & Hocc & Hfirst).
      exists (S n). repeat split; [lia | exact Hocc |].
      intros [| j] Hj.
      * rewrite occurs_at_0, E. discriminate.
      * apply Hfirst. lia.
Qed.

(** [indexOf] finds the first occurrence. *)
Lemma indexOf_first_occ (pat s : jsstring) (from i : nat) :
  pat <> [] -> first_occ pat s from i -> indexOf pat s from = Some i.
Proof.
  intros Hne (Hle & Hocc & Hfirst). unfold indexOf.
  pose proof (occurs_at_bound _ _ _ Hne Hocc) as Hb.
  rewrite Nat.min_l by lia.
  replace i with (from + (i - from))%nat at 1 by lia.
  apply index_from_first.
  - apply occurs_at_drop. now replace (from + (i - from))%nat with i by lia.
  - intros j Hj Habs. apply occurs_at_drop in Habs.
    apply (Hfirst (from + j)%nat); [lia | exact Habs].
Qed.

Lemma indexOf_no_occ (pat s : jsstring) (from : nat) :
  no_occ pat s from -> indexOf pat s from = None.
Proof.
  intros Hno. unfold indexOf. apply index_from_none.
  intros j Habs. apply occurs_at_drop in Habs.
  apply (Hno (from + j)%nat); [lia | exact Habs].
Qed.

Lemma indexOf_Some (pat s : jsstring) (from i : nat) :
  pat <> [] -> indexOf pat s from = Some i -> first_occ pat s from i.
Proof.
  intros Hne H. unfold indexOf in H.
  apply index_from_Some in H as (n & -> & Hocc & Hfirst).
  pose proof (occurs_at_bound _ _ _ Hne Hocc) as Hb.
  rewrite length_drop in Hb.
  assert (0 < length pat)%nat by (destruct pat; [congruence | cbn; lia]).
  rewrite Nat.min_l by lia.
  repeat split; [lia | now apply occurs_at_drop |].
  intros j Hj Habs. apply (Hfirst (j - from)%nat); [lia |].
  apply occurs_at_drop. now replace (from + (j - from))%nat with j by lia.
Qed.

Lemma index_from_None_inv (pat s : jsstring) (k : nat) :
  index_from pat s k = None -> forall j, ~ occurs_at pat s j.
Proof.
  revert k. induction s as [| c s IH]; intros k H j Hocc.
  - cbn in H. destruct (starts_with pat []) eqn:E; [discriminate |].
    unfold occurs_at in Hocc. rewrite drop_nil, take_nil in Hocc.
    subst pat. discriminate.
  - cbn [index_from] in H. destruct (starts_with pat (c :: s)) eqn:E;
      [discriminate |].
    destruct j as [| j].
    + apply occurs_at_0 in Hocc. congruence.
    + apply (IH (S k) H j). exact Hocc.
Qed.

Lemma indexOf_None (pat s : jsstring) (from : nat) :
  indexOf pat s from = None -> no_occ pat s from.
Proof.
  intros H j Hj Hocc. unfold indexOf in H.
  apply (index_from_None_inv _ _ _ H (j - from)%nat).
  apply occurs_at_drop. now replace (from + (j - from))%nat with j by lia.
Qed.

Lemma occurs_includes (pat s : jsstring) (i : nat) :
  occurs_at pat s i -> includes pat s = true.
Proof.
  intros Hocc. unfold includes. apply bool_decide_eq_true.
  destruct (indexOf pat s 0) as [k |] eqn:E; [now exists k |].
  exfalso. apply (indexOf_None _ _ _ E i); [lia | exact Hocc].
Qed.

End TextFacts.

(* ===================================================================== *)
(** ** Which marker pair the substring extractions select *)
(* ===================================================================== *)

Module PairFacts.
Import Js Framing JsFacts TextFacts LineFacts.

Lemma between_eq (s : jsstring) (a b : nat) :
  between s a b = take (b - a) (drop a s).
Proof. apply slice_of_nat. Qed.

Lemma first_occ_self (pat s : jsstring) (from i : nat) :
  first_occ pat s from i -> first_occ pat s i i.
Proof.
  intros (_ & Hocc & _). repeat split; [lia | exact Hocc | intros j Hj; lia].
Qed.

Lemma first_occ_drop (pat s : jsstring) (from i : nat) :
  first_occ pat s from i -> first_occ pat (drop from s) 0 (i - from).
Proof.
  intros (Hle & Hocc & Hfirst). repeat split; [lia | |].
  - apply occurs_at_drop. now replace (from + (i - from))%nat with i by lia.
  - intros j Hj Habs. apply occurs_at_drop in Habs.
    apply (Hfirst (from + j)%nat); [lia | exact Habs].
Qed.

Lemma pat_length_pos (pat : jsstring) : pat <> [] -> (0 < length pat)%nat.
Proof. destruct pat; [congruence | cbn; lia]. Qed.

Section Markers.
Variables START END : jsstring.
Hypothesis START_nonempty : START <> [].
Hypothesis END_nonempty : END <> [].

(** Device tree: with two pairs in the scan, the second is returned. *)
Lemma dt_second_pair (full : jsstring) (s1 e1 s2 e2 : nat) :
  two_pairs START END full s1 e1 s2 e2 ->
  DeviceTree.extract START END full
    = Settled (Resolved (between full (s2 + length START) e2)).
Proof using START_nonempty END_nonempty.
  intros (Hs1 & He1 & Hs2 & He2). unfold DeviceTree.extract.
  rewrite (occurs_includes START full s1) by apply Hs1.
  rewrite (occurs_includes END full e1) by apply He1.
  cbn [negb orb].
  rewrite (indexOf_first_occ _ _ _ _ START_nonempty Hs1).
  rewrite (indexOf_first_occ _ _ _ _ END_nonempty He1).
  rewrite (indexOf_first_occ _ _ _ _ START_nonempty Hs2).
  rewrite (indexOf_first_occ _ _ _ _ END_nonempty He2).
  reflexivity.
Qed.

Lemma dt_fallback_one_pair (full : jsstring) (s1 e1 : nat) :
  one_pair START END full s1 e1 ->
  DeviceTree.fallback (S (length full)) START END full s1 []
    = (if DeviceTree.has_N_line (between full (s1 + length START) e1)
       then between full (s1 + length START) e1 else []).
Proof using START_nonempty END_nonempty.
  intros (Hs1 & He1 & Hrest).
  pose proof (occurs_at_bound _ _ _ START_nonempty (proj1 (proj2 Hs1))) as Hb.
  pose proof (pat_length_pos _ START_nonempty) as Hpos.
  destruct (length full) as [| n] eqn:Hlen; [lia |].
  cbn [DeviceTree.fallback].
  rewrite (indexOf_first_occ _ _ _ _ START_nonempty (first_occ_self _ _ _ _ Hs1)).
  rewrite (indexOf_first_occ _ _ _ _ END_nonempty He1).
  destruct Hrest as [Hno | (s2 & Hs2 & Hno)].
  - now rewrite (indexOf_no_occ _ _ _ Hno).
  - rewrite (indexOf_first_occ _ _ _ _ START_nonempty Hs2).
    now rewrite (indexOf_no_occ _ _ _ Hno).
Qed.

(** Device tree: a single pair is returned only if its text has a line
    that begins with [N|]; otherwise the payload is empty. *)
Lemma dt_single_pair (full : jsstring) (s1 e1 : nat) :
  one_pair START END full s1 e1 ->
  DeviceTree.extract START END full
    = Settled (Resolved
        (if DeviceTree.has_N_line (between full (s1 + length START) e1)
         then between full (s1 + length START) e1 else [])).
Proof using START_nonempty END_nonempty.
  intros Hone. pose proof Hone as (Hs1 & He1 & Hrest).
  unfold DeviceTree.extract.
  rewrite (occurs_includes START full s1) by apply Hs1.
  rewrite (occurs_includes END full e1) by apply He1.
  cbn [negb orb].
  rewrite (indexOf_first_occ _ _ _ _ START_nonempty Hs1).
  rewrite (indexOf_first_occ _ _ _ _ END_nonempty He1).
  rewrite (dt_fallback_one_pair full s1 e1 Hone).
  destruct Hrest as [Hno | (s2 & Hs2 & Hno)].
  - now rewrite (indexOf_no_occ _ _ _ Hno).
  - rewrite (indexOf_first_occ _ _ _ _ START_nonempty Hs2).
    now rewrite (indexOf_no_occ _ _ _ Hno).
Qed.

Lemma split_fuel_head (n : nat) (s : jsstring) :
  (length s <= n)%nat ->
  head (split_fuel n START s)
    = Some (match indexOf START s 0 with Some i => take i s | None => s end).
Proof using START_nonempty.
  intros Hn. destruct n as [| n]; cbn [split_fuel].
  - destruct s; [| cbn in Hn; lia].
    destruct START; [congruence | reflexivity].
  - destruct (indexOf START s 0); reflexivity.
Qed.

Lemma split_fuel_no_occ (n : nat) (s : jsstring) :
  indexOf START s 0 = None -> split_fuel n START s = [s].
Proof. intros H. destruct n; cbn [split_fuel]; [| rewrite H]; reflexivity. Qed.

(** Real time: with two start markers in the text, the third piece of
    the split is the text behind the second one, up to the next start
    marker, and the step looks for the end marker in that piece. *)
Lemma rt_third_piece (full : jsstring) (s1 s2 : nat) :
  first_occ START full 0 s1 ->
  first_occ START full (s1 + length START) s2 ->
  RealTime.extract START END full
    = (let rest := drop (s2 + length START) full in
       let piece := match indexOf START rest 0 with
                    | Some i3 => take i3 rest
                    | None => rest
                    end in
       match indexOf END piece 0 with
       | None => None
       | Some secondEndIdx => Some (between piece 0 secondEndIdx)
       end).
Proof using START_nonempty.
  intros Hs1 Hs2. cbv zeta.
  pose proof (pat_length_pos _ START_nonempty) as Hpos.
  pose proof (occurs_at_bound _ _ _ START_nonempty (proj1 (proj2 Hs2))) as Hb2.
  pose proof Hs2 as (Hle2 & _ & _).
  unfold RealTime.extract, split.
  destruct (length full) as [| [| n]] eqn:Hlen; [lia | lia |].
  cbn [split_fuel].
  rewrite (indexOf_first_occ _ _ _ _ START_nonempty Hs1).
  rewrite (indexOf_first_occ _ _ _ _ START_nonempty (first_occ_drop _ _ _ _ Hs2)).
  rewrite drop_drop.
  replace (s1 + length START + (s2 - (s1 + length START) + length START))%nat
    with (s2 + length START)%nat by lia.
  set (rest := drop (s2 + length START) full).
  assert (Hrest_len : (length rest <= n)%nat)
    by (unfold rest; rewrite length_drop; lia).
  pose proof (split_fuel_head n rest Hrest_len) as Hhead.
  destruct (split_fuel n START rest) as [| piece more] eqn:Hsplit;
    [discriminate |].
  cbn in Hhead. injection Hhead as Hpiece.
  cbn [length Nat.ltb Nat.leb lookup list_lookup default].
  change (default [] (Some piece)) with piece.
  now rewrite Hpiece.
Qed.

(** Real time: the text behind the second start marker is returned, up
    to the first end marker, when no third start marker comes first. *)
Lemma rt_second_start (full : jsstring) (s1 s2 e2 : nat) :
  first_occ START full 0 s1 ->
  first_occ START full (s1 + length START) s2 ->
  first_occ END full (s2 + length START) e2 ->
  (forall j, (s2 + length START <= j < e2 + length END)%nat ->
             ~ occurs_at START full j) ->
  RealTime.extract START END full
    = Some (between full (s2 + length START) e2).
Proof using START_nonempty END_nonempty.
  intros Hs1 Hs2 He2 Hthird.
  rewrite (rt_third_piece full s1 s2 Hs1 Hs2). cbv zeta.
  pose proof (pat_length_pos _ END_nonempty) as HposE.
  pose proof He2 as (Hlee & Hocce & Hfirste).
  set (rest := drop (s2 + length START) full).
  pose proof (first_occ_drop _ _ _ _ He2) as Hre. fold rest in Hre.
  set (r := (e2 - (s2 + length START))%nat) in *.
  assert (Hpayload : between full (s2 + length START) e2 = take r rest)
    by apply between_eq.
  rewrite Hpayload.
  destruct (indexOf START rest 0) as [i3 |] eqn:Hi3.
  - apply (indexOf_Some _ _ _ _ START_nonempty) in Hi3 as (_ & Hocc3 & _).
    apply occurs_at_drop in Hocc3.
    assert (Hi3 : (r + length END <= i3)%nat).
    { destruct (Nat.le_gt_cases (r + length END) i3) as [H | H]; [exact H |].
      exfalso. apply (Hthird (s2 + length START + i3)%nat); [| exact Hocc3].
      unfold r in H. lia. }
    assert (Hfo : first_occ END (take i3 rest) 0 r).
    { destruct Hre as (_ & Hocc_r & Hfirst_r). repeat split; [lia | |].
      - now apply occurs_at_take.
      - intros j Hj Habs. apply (Hfirst_r j Hj).
        now apply (occurs_at_take_inv END rest i3 j END_nonempty). }
    rewrite (indexOf_first_occ _ _ _ _ END_nonempty Hfo).
    f_equal. rewrite between_eq, drop_0, Nat.sub_0_r, take_take.
    f_equal. lia.
  - rewrite (indexOf_first_occ _ _ _ _ END_nonempty Hre).
    f_equal. now rewrite between_eq, drop_0, Nat.sub_0_r.
Qed.

(** Real time: when a third start marker comes before any end marker
    behind the second one, nothing is returned, whatever follows. *)
Lemma rt_third_start_first (full : jsstring) (s1 s2 s3 : nat) :
  first_occ START full 0 s1 ->
  first_occ START full (s1 + length START) s2 ->
  first_occ START full (s2 + length START) s3 ->
  (forall j, (s2 + length START <= j)%nat -> (j + length END <= s3)%nat ->
             ~ occurs_at END full j) ->
  RealTime.extract START END full = None.
Proof using START_nonempty END_nonempty.
  intros Hs1 Hs2 Hs3 Hno.
  rewrite (rt_third_piece full s1 s2 Hs1 Hs2). cbv zeta.
  set (rest := drop (s2 + length START) full).
  pose proof (first_occ_drop _ _ _ _ Hs3) as Hr3. fold rest in Hr3.
  rewrite (indexOf_first_occ _ _ _ _ START_nonempty Hr3).
  rewrite indexOf_no_occ; [reflexivity |].
  intros j _ Hocc.
  pose proof (occurs_at_bound _ _ _ END_nonempty Hocc) as Hb.
  rewrite length_take in Hb.
  apply (occurs_at_take_inv END rest _ j END_nonempty) in Hocc.
  apply occurs_at_drop in Hocc.
  destruct Hs3 as (Hle3 & _ & _).
  apply (Hno (s2 + length START + j)%nat); [lia | lia | exact Hocc].
Qed.

(** Real time: without an end marker behind the second start marker
    nothing is returned. *)
Lemma rt_no_end (full : jsstring) (s1 s2 : nat) :
  first_occ START full 0 s1 ->
  first_occ START full (s1 + length START) s2 ->
  no_occ END full (s2 + length START) ->
  RealTime.extract START END full = None.
Proof using START_nonempty END_nonempty.
  intros Hs1 Hs2 Hno.
  rewrite (rt_third_piece full s1 s2 Hs1 Hs2). cbv zeta.
  set (rest := drop (s2 + length START) full).
  assert (Hrest : forall j, ~ occurs_at END rest j).
  { intros j Hocc. apply occurs_at_drop in Hocc.
    apply (Hno (s2 + length START + j)%nat); [lia | exact Hocc]. }
  rewrite indexOf_no_occ; [reflexivity |].
  intros j _ Hocc. destruct (indexOf START rest 0) as [i3 |].
  - apply (Hrest j). now apply (occurs_at_take_inv END rest i3 j END_nonempty).
  - now apply (Hrest j).
Qed.

(** Real time: with a single start marker nothing is returned. *)
Lemma rt_single_start (full : jsstring) (s1 : nat) :
  first_occ START full 0 s1 ->
  no_occ START full (s1 + length START) ->
  RealTime.extract START END full = None.
Proof using START_nonempty.
  intros Hs1 Hno.
  pose proof (pat_length_pos _ START_nonempty) as Hpos.
  pose proof (occurs_at_bound _ _ _ START_nonempty (proj1 (proj2 Hs1))) as Hb.
  unfold RealTime.extract, split.
  destruct (length full) as [| n] eqn:Hlen; [lia |].
  cbn [split_fuel].
  rewrite (indexOf_first_occ _ _ _ _ START_nonempty Hs1).
  rewrite split_fuel_no_occ; [reflexivity |].
  apply indexOf_no_occ. intros j _ Habs. apply occurs_at_drop in Habs.
  apply (Hno (s1 + length START + j)%nat); [lia | exact Habs].
Qed.

(** Real time: without a start marker nothing is returned. *)
Lemma rt_no_start (full : jsstring) :
  no_occ START full 0 -> RealTime.extract START END full = None.
Proof.
  intros Hno. unfold RealTime.extract, split.
  now rewrite (split_fuel_no_occ _ _ (indexOf_no_occ _ _ _ Hno)).
Qed.
End Markers.

(** C1 (as the code has it). For non-empty markers. Device tree: when the
    scan finds two complete pairs the step selects the second one, whatever
    follows, and takes the text between its markers; when it finds a single
    pair it takes that pair's text if it has a line beginning with [N|] and
    the empty text otherwise. Real time: the step splits the text at the
    start marker and looks at the piece behind the second one. It takes
    the text from the second start marker to the first end marker behind
    it, provided no third start marker comes before that end marker; it
    takes nothing when a third start marker comes before any end marker,
    when no end marker follows the second start marker, and while the text
    holds the start marker once or not at all, a complete pair included.
    Before its deadline the step resolves the request with the analysis
    slice of the text taken, not with the text itself, and waits when
    nothing is taken. Device info: the step takes the lines of the first
    line-exact pair behind the fence. *)
Theorem extraction_selects_second_pair (START END : jsstring) :
  START <> [] -> END <> [] ->
  (forall full s1 e1 s2 e2,
     two_pairs START END full s1 e1 s2 e2 ->
     DeviceTree.extract START END full
       = Settled (Resolved (between full (s2 + length START) e2))) /\
  (forall full s1 e1,
     one_pair START END full s1 e1 ->
     DeviceTree.extract START END full
       = Settled (Resolved
           (if DeviceTree.has_N_line (between full (s1 + length START) e1)
            then between full (s1 + length START) e1 else []))) /\
  (forall full s1 s2 e2,
     first_occ START full 0 s1 ->
     first_occ START full (s1 + length START) s2 ->
     first_occ END full (s2 + length START) e2 ->
     (forall j, (s2 + length START <= j < e2 + length END)%nat ->
                ~ occurs_at START full j) ->
     RealTime.extract START END full
       = Some (between full (s2 + length START) e2)) /\
  (forall full s1 s2 s3,
     first_occ START full 0 s1 ->
     first_occ START full (s1 + length START) s2 ->
     first_occ START full (s2 + length START) s3 ->
     (forall j, (s2 + length START <= j)%nat -> (j + length END <= s3)%nat ->
                ~ occurs_at END full j) ->
     RealTime.extract START END full = None) /\
  (forall full s1 s2,
     first_occ START full 0 s1 ->
     first_occ START full (s1 + length START) s2 ->
     no_occ END full (s2 + length START) ->
     RealTime.extract START END full = None) /\
  (forall full s1,
     first_occ START full 0 s1 ->
     no_occ START full (s1 + length START) ->
     RealTime.extract START END full = None) /\
  (forall full,
     no_occ START full 0 -> RealTime.extract START END full = None) /\
  (forall now deadline logs,
     now <= deadline ->
     RealTime.poll_cb now deadline logs START END
       = match RealTime.extract START END (join [LF] logs) with
         | Some payload => Settled (Resolved (Analysis.pickAnalysisSlice payload))
         | None => Pending
         end) /\
  (forall before ls payload le rest,
     Forall (fun l => trim l <> START) before ->
     trim ls = START ->
     Forall (fun l => trim l <> END) payload ->
     trim le = END ->
     extract_lines START END (before ++ ls :: payload ++ le :: rest)
       = Some payload).
Proof.
  intros HS HE. repeat apply conj.
  - apply (dt_second_pair START END HS HE).
  - apply (dt_single_pair START END HS HE).
  - apply (rt_second_start START END HS HE).
  - apply (rt_third_start_first START END HS HE).
  - apply (rt_no_end START END HS HE).
  - apply (rt_single_start START END HS).
  - apply (rt_no_start START END).
  - intros now deadline logs Hnow. unfold RealTime.poll_cb.
    destruct (Z.ltb_spec deadline now) as [Hlt | _]; [lia |].
    now destruct (RealTime.extract START END (join [LF] logs)).
  - apply extract_lines_first_pair.
Qed.

Lemma extraction_selects_second_pair_witness :
  DeviceTree.extract (DeviceTree.START (js "k3x9q1")) (DeviceTree.END (js "k3x9q1"))
    (join [LF] dt_three_pairs)
  = Settled (Resolved (between (join [LF] dt_three_pairs) (48 + 19) 86))
  /\ RealTime.extract (RealTime.START (js "k3x9q1")) (RealTime.END (js "k3x9q1"))
       (join [LF] rt_start_twice)
     = Some (between (join [LF] rt_start_twice) (28 + 19) 59).
Proof.
  split.
  - destruct (extraction_selects_second_pair
                (DeviceTree.START (js "k3x9q1")) (DeviceTree.END (js "k3x9q1")))
      as (Hsecond & _); [discriminate | discriminate |].
    apply (Hsecond (join [LF] dt_three_pairs) 5%nat 30%nat 48%nat 86%nat).
    unfold two_pairs. split; [| split; [| split]];
      (apply indexOf_Some; [discriminate | vm_compute; reflexivity]).
  - destruct (extraction_selects_second_pair
                (RealTime.START (js "k3x9q1")) (RealTime.END (js "k3x9q1")))
      as (_ & _ & Hrt & _); [discriminate | discriminate |].
    apply (Hrt (join [LF] rt_start_twice) 0%nat 28%nat 59%nat).
    + apply indexOf_Some; [discriminate | vm_compute; reflexivity].
    + apply indexOf_Some; [discriminate | vm_compute; reflexivity].
    + apply indexOf_Some; [discriminate | vm_compute; reflexivity].
    + intros j Hj.
      assert (Hno : no_occ (RealTime.START (js "k3x9q1"))
                      (join [LF] rt_start_twice) (28 + 19)).
      { apply indexOf_None. vm_compute. reflexivity. }
      apply Hno. change (length (RealTime.START (js "k3x9q1"))) with 19%nat in Hj.
      lia.
Defined.

(** C1, counterexample: the markers of one request occur three times in
    the captured text. The device-tree step returns the text of the second
    pair, not of the last one. With a single pair and its start marker once
    the real-time step takes nothing; with a single pair whose start marker
    is repeated before the end marker it resolves with the text behind the
    repetition, trimmed. The device-info step returns the first of two
    line-exact pairs. *)
Lemma second_pair_is_not_last :
  let START := DeviceTree.START (js "k3x9q1") in
  let END := DeviceTree.END (js "k3x9q1") in
  join [LF] dt_three_pairs
    = js "echo " ++ START ++ (LF :: js "echo ") ++ END ++ [LF]
      ++ START ++ (LF :: js "N|/soc|simple-bus" ++ [LF]) ++ END ++ [LF]
      ++ START ++ (LF :: js "N|/chosen|" ++ [LF]) ++ END
  /\ DeviceTree.extract START END (join [LF] dt_three_pairs)
     = Settled (Resolved (LF :: js "N|/soc|simple-bus" ++ [LF]))
  /\ DeviceTree.extract START END (join [LF] dt_three_pairs)
     <> Settled (Resolved (LF :: js "N|/chosen|" ++ [LF]))
  /\ RealTime.extract (RealTime.START (js "k3x9q1")) (RealTime.END (js "k3x9q1"))
       (join [LF] rt_one_pair) = None
  /\ RealTime.poll_cb 0 0 rt_start_twice
       (RealTime.START (js "k3x9q1")) (RealTime.END (js "k3x9q1"))
     = Settled (Resolved (js "PREEMPT_RT"))
  /\ extract_lines (DeviceInfo.START_MARK (js "k3x9q1"))
       (DeviceInfo.END_MARK (js "k3x9q1")) info_two_pairs = Some [js "stale"].
Proof.
  cbv zeta. split; [vm_compute; reflexivity |].
  assert (H : DeviceTree.extract (DeviceTree.START (js "k3x9q1"))
                (DeviceTree.END (js "k3x9q1")) (join [LF] dt_three_pairs)
              = Settled (Resolved (LF :: js "N|/soc|simple-bus" ++ [LF])))
    by (vm_compute; reflexivity).
  split; [exact H |]. split; [rewrite H; vm_compute; discriminate |].
  repeat split; vm_compute; reflexivity.
Qed.

End PairFacts.

(* ===================================================================== *)
(** ** Deadlines *)
(* ===================================================================== *)

Module TimeoutFacts.
Import Js Framing JsFacts LineFacts.

Lemma poll_settles {A} (cb : nat -> tick A) (fuel k : nat) (t : tick A) :
  t <> Pending -> cb k = t -> poll cb (S fuel) k = Some (k, t).
Proof.
  intros Hne Hcb. cbn [poll]. rewrite Hcb. destruct t; [congruence | |]; reflexivity.
Qed.

Lemma poll_pending {A} (cb : nat -> tick A) (fuel k : nat) :
  cb k = Pending -> poll cb (S fuel) k = poll cb fuel (S k).
Proof. intros Hcb. cbn [poll]. now rewrite Hcb. Qed.

Section Expiry.
Context {A : Type} (cb : nat -> tick A) (clk : nat -> Z).
Variables (limit step : Z) (t : tick A).
Hypothesis t_settles : t <> Pending.
Hypothesis clk_ticks : forall k, clk k < clk (S k) <= clk k + step.
Hypothesis cb_spec : forall k, cb k = if limit <? clk k then t else Pending.

Lemma poll_expires_from (m k : nat) :
  clk k <= limit ->
  (Z.to_nat (limit - clk k) <= m)%nat ->
  exists k', (k < k')%nat /\ limit < clk k' <= limit + step /\
    forall fuel, (m + 1 <= fuel)%nat -> poll cb fuel (S k) = Some (k', t).
Proof using t_settles clk_ticks cb_spec.
  revert k. induction m as [| m IH]; intros k Hk Hm;
    pose proof (clk_ticks k) as Htick;
    destruct (Z.ltb_spec limit (clk (S k))) as [Hexp | Hnot]; try lia.
  - exists (S k). repeat split; [lia | lia | lia |].
    intros [| fuel] Hfuel; [lia |].
    apply poll_settles; [exact t_settles |].
    rewrite cb_spec. destruct (Z.ltb_spec limit (clk (S k))); [reflexivity | lia].
  - exists (S k). repeat split; [lia | lia | lia |].
    intros [| fuel] Hfuel; [lia |].
    apply poll_settles; [exact t_settles |].
    rewrite cb_spec. destruct (Z.ltb_spec limit (clk (S k))); [reflexivity | lia].
  - destruct (IH (S k) Hnot ltac:(lia)) as (k' & Hlt & Hwhen & Hpoll).
    exists k'. repeat split; [lia | lia | lia |].
    intros [| fuel] Hfuel; [lia |].
    rewrite poll_pending.
    + apply Hpoll. lia.
    + rewrite cb_spec. destruct (Z.ltb_spec limit (clk (S k))); [lia | reflexivity].
Qed.
End Expiry.

Lemma extract_lines_no_end (START END : jsstring) (lines : list jsstring) :
  (forall l, l ∈ lines -> trim l <> END) ->
  extract_lines START END lines = None.
Proof.
  intros Hno. destruct (extract_lines START END lines) as [payload |] eqn:E;
    [| reflexivity].
  apply extract_lines_sound in E as (i & j & ls & le & _ & _ & _ & Hle & Hend & _).
  exfalso. apply (Hno le); [| exact Hend].
  eapply list_elem_of_lookup_2; eauto.
Qed.

(** C2 (as the code has it). With timer callbacks at most one poll interval
    (150 ms) apart, a request whose end marker never shows up as a line of
    the captured text ends no later than its deadline plus one poll
    interval, counted from the moment the request was sent. The device-info
    request then fails with a time-out error and no payload. The
    driver-info request does not fail: it resolves with the accumulators
    as they were created, which hold no captured line. *)
Theorem request_ends_by_deadline (w : World) (rendering : jsstring) :
  ticking w 150 ->
  ((forall k l, l ∈ captured w k ->
      trim l <> DeviceInfo.END_MARK (runId rendering)) ->
   exists k,
     clock w k <= clock w 0 + DeviceInfo.timeoutMs + DeviceInfo.pollMs /\
     forall fuel, DeviceInfo.timeoutMs + 2 <= Z.of_nat fuel ->
       DeviceInfo.collect w rendering fuel
         = Some (k, Settled (Rejected (js "Timed out waiting for device info")))) /\
  ((forall k l, l ∈ captured w k ->
      trim l <> DriverInfo.END (runId rendering)) ->
   exists k,
     clock w k <= clock w 0 + DriverInfo.timeoutMs + DriverInfo.pollMs /\
     forall fuel, DriverInfo.timeoutMs + 2 <= Z.of_nat fuel ->
       DriverInfo.scan w rendering fuel
         = Some (k, Settled (Resolved DriverInfo.empty_sections))).
Proof.
  intros Htick. split; intros Hno.
  - destruct (poll_expires_from
                (fun k => DeviceInfo.poller (clock w k) (clock w 0) (buffer w k)
                            (length (buffer w 0))
                            (DeviceInfo.START_MARK (runId rendering))
                            (DeviceInfo.END_MARK (runId rendering)))
                (clock w) (clock w 0 + DeviceInfo.timeoutMs) 150
                (Settled (Rejected (js "Timed out waiting for device info")))
                ltac:(discriminate) Htick)
      with (m := Z.to_nat DeviceInfo.timeoutMs) (k := 0%nat)
      as (k & _ & Hwhen & Hpoll).
    + intros k. unfold DeviceInfo.poller.
      destruct (Z.ltb_spec DeviceInfo.timeoutMs (clock w k - clock w 0));
        destruct (Z.ltb_spec (clock w 0 + DeviceInfo.timeoutMs) (clock w k));
        try lia; [reflexivity |].
      rewrite extract_lines_no_end; [reflexivity |]. apply (Hno k).
    + unfold DeviceInfo.timeoutMs. lia.
    + unfold DeviceInfo.timeoutMs. lia.
    + exists k. split; [unfold DeviceInfo.pollMs; lia |].
      intros fuel Hfuel. unfold DeviceInfo.collect. apply Hpoll.
      unfold DeviceInfo.timeoutMs in *. lia.
  - destruct (poll_expires_from
                (fun k => DriverInfo.timer (clock w k)
                            (clock w 0 + DriverInfo.timeoutMs) (buffer w k)
                            (length (buffer w 0))
                            (DriverInfo.START (runId rendering))
                            (DriverInfo.END (runId rendering)))
                (clock w) (clock w 0 + DriverInfo.timeoutMs) 150
                (Settled (Resolved DriverInfo.empty_sections))
                ltac:(discriminate) Htick)
      with (m := Z.to_nat DriverInfo.timeoutMs) (k := 0%nat)
      as (k & _ & Hwhen & Hpoll).
    + intros k. unfold DriverInfo.timer.
      destruct (Z.ltb_spec (clock w 0 + DriverInfo.timeoutMs) (clock w k));
        [reflexivity |].
      rewrite extract_lines_no_end; [reflexivity |]. apply (Hno k).
    + unfold DriverInfo.timeoutMs. lia.
    + unfold DriverInfo.timeoutMs. lia.
    + exists k. split; [unfold DriverInfo.pollMs; lia |].
      intros fuel Hfuel. unfold DriverInfo.scan. apply Hpoll.
      unfold DriverInfo.timeoutMs in *. lia.
Qed.

Lemma silent_world_ticking : ticking silent_world 150.
Proof. intros k. cbn. lia. Qed.

Lemma silent_world_captured (k : nat) : captured silent_world k = [].
Proof. reflexivity. Qed.

Lemma request_ends_by_deadline_witness :
  exists k,
    clock silent_world k <= clock silent_world 0 + 20000 + 150 /\
    forall fuel, 20002 <= Z.of_nat fuel ->
      DeviceInfo.collect silent_world (js "0.k3x9q1abc") fuel
        = Some (k, Settled (Rejected (js "Timed out waiting for device info"))).
Proof.
  destruct (request_ends_by_deadline silent_world (js "0.k3x9q1abc")
              silent_world_ticking) as [Hinfo _].
  apply Hinfo. intros k l Hl. rewrite silent_world_captured in Hl.
  apply elem_of_nil in Hl. destruct Hl.
Defined.

(** C2, counterexample: the device prints nothing. The driver-info request
    ends at the first callback after its deadline, 150 ms late, and its
    promise is resolved with the empty result, not rejected. *)
Lemma driver_scan_resolves_on_expiry :
  DriverInfo.scan silent_world (js "0.k3x9q1abc") 300
    = Some (201%nat, Settled (Resolved DriverInfo.empty_sections))
  /\ clock silent_world 201 = clock silent_world 0 + DriverInfo.timeoutMs + 150
  /\ forall k message,
       DriverInfo.scan silent_world (js "0.k3x9q1abc") 300
         <> Some (k, Settled (Rejected message)).
Proof.
  assert (H : DriverInfo.scan silent_world (js "0.k3x9q1abc") 300
              = Some (201%nat, Settled (Resolved DriverInfo.empty_sections)))
    by (vm_compute; reflexivity).
  split; [exact H |]. split; [reflexivity |].
  intros k message. rewrite H. discriminate.
Qed.

End TimeoutFacts.

(* ===================================================================== *)
(** ** Marker ids *)
(* ===================================================================== *)

Module IdFacts.
Import Js Framing JsFacts.

Lemma forallb_take {A} (f : A -> bool) (n : nat) (l : list A) :
  forallb f l = true -> forallb f (take n l) = true.
Proof.
  revert n. induction l as [| x l IH]; intros [| n] H; cbn in *; try reflexivity.
  apply andb_true_iff in H as [Hx Hl]. rewrite Hx. cbn. now apply IH.
Qed.

Lemma slice_2_eq (r : jsstring) (n : nat) :
  (2 <= n)%nat ->
  slice r 2 (Z.of_nat n)
    = take (Nat.min n (length r) - Nat.min 2 (length r))
           (drop (Nat.min 2 (length r)) r).
Proof.
  intros _. unfold slice. change 2 with (Z.of_nat 2).
  now rewrite !rel_index_of_nat.
Qed.

Lemma rendering_digits (r : jsstring) (n : nat) :
  is_rendering r = true -> (2 <= n)%nat ->
  forallb is_base36 (slice r 2 (Z.of_nat n)) = true /\
  length (slice r 2 (Z.of_nat n)) = Nat.min (n - 2) (length r - 2).
Proof.
  intros Hr Hn. rewrite (slice_2_eq r n Hn).
  destruct r as [| c0 [| c1 [| d ds]]]; cbn in Hr; try discriminate.
  - cbn [length]. rewrite (Nat.min_r 2 1) by lia. cbn [drop].
    rewrite take_nil. split; [reflexivity | cbn; lia].
  - apply andb_true_iff in Hr as [_ Hds].
    cbn [length]. rewrite (Nat.min_l 2) by lia. cbn [drop].
    split.
    + apply forallb_take. exact Hds.
    + rewrite length_take. cbn [length]. lia.
Qed.

(** C8 (as the code has it). Whatever text the random source renders to,
    a marker id consists of base-36 digits (decimal digits and lower-case
    letters). The id of the device-info, driver-info, device-tree and
    real-time requests has at most 6 characters: 6 when the rendering has
    six or more digits behind ['0.'], and as many as there are otherwise.
    The id of the kernel hot-spot sampling has at most 8 characters, in
    the same way. *)
Theorem runId_at_most_six_base36_digits (r : jsstring) :
  is_rendering r = true ->
  (forallb is_base36 (runId r) = true /\
   (length (runId r) <= 6)%nat /\
   length (runId r) = Nat.min 6 (length r - 2)) /\
  (forallb is_base36 (sampleId r) = true /\
   (length (sampleId r) <= 8)%nat /\
   length (sampleId r) = Nat.min 8 (length r - 2)).
Proof.
  intros Hr.
  destruct (rendering_digits r 8 Hr ltac:(lia)) as [H6 L6].
  destruct (rendering_digits r 10 Hr ltac:(lia)) as [H8 L8].
  change (slice r 2 (Z.of_nat 8)) with (runId r) in H6, L6.
  change (slice r 2 (Z.of_nat 10)) with (sampleId r) in H8, L8.
  cbn [Nat.sub] in L6, L8.
  split.
  - split; [exact H6 |]. split; [lia | exact L6].
  - split; [exact H8 |]. split; [lia | exact L8].
Qed.

Lemma runId_at_most_six_base36_digits_witness :
  (forallb is_base36 (runId (js "0.4fzyo82mvyr")) = true /\
   (length (runId (js "0.4fzyo82mvyr")) <= 6)%nat /\
   length (runId (js "0.4fzyo82mvyr")) = Nat.min 6 (length (js "0.4fzyo82mvyr") - 2)) /\
  (forallb is_base36 (sampleId (js "0.4fzyo82mvyr")) = true /\
   (length (sampleId (js "0.4fzyo82mvyr")) <= 8)%nat /\
   length (sampleId (js "0.4fzyo82mvyr")) = Nat.min 8 (length (js "0.4fzyo82mvyr") - 2)).
Proof.
  apply (runId_at_most_six_base36_digits (js "0.4fzyo82mvyr")).
  vm_compute. reflexivity.
Defined.

(** C8, counterexample: the random value one half is 18/36 and renders as
    ['0.i']; the id is the single character ['i']. The value zero renders
    as ['0'] and gives the empty id. *)
Lemma runId_can_be_short :
  toString36 1 1 = Some (js "0.i") /\
  is_rendering (js "0.i") = true /\
  runId (js "0.i") = js "i" /\
  (length (runId (js "0.i")) < 6)%nat /\
  toString36 0 0 = Some (js "0") /\
  is_rendering (js "0") = true /\
  runId (js "0") = [].
Proof. repeat split; vm_compute; reflexivity || lia. Qed.

End IdFacts.

(* ===================================================================== *)
(** ** Invariants of the session *)
(* ===================================================================== *)

Module SessionFacts.
Import Js Cli JsFacts CliFacts CliClaims Session.

(** *** The published references *)

Lemma published_set_logs l st : published st -> published (set_logs l st).
Proof.
  intros (H1 & H2 & H3 & H4 & H5 & H6). unfold published; cbn.
  repeat split; try tauto; try assumption.
  rewrite lookup_insert_eq. eauto.
Qed.

Lemma push_line_published line st : published st -> published (push_line line st).
Proof.
  intros H. unfold push_line.
  destruct (0 <? length line)%nat; [| exact H]. cbv zeta.
  match goal with |- context [if ?b then _ else _] => destruct b end.
  - change (published (set_logs (drop (length (logs (set_logs (logs st ++ [line]) st))
                                       - LOG_RING_SIZE)
                                      (logs (set_logs (logs st ++ [line]) st)))
                         (set_logs (logs st ++ [line]) st))).
    now apply published_set_logs, published_set_logs.
  - now apply published_set_logs.
Qed.

Lemma drain_published fuel st : published st -> published (drain fuel st).
Proof.
  revert st. induction fuel as [| fuel IH]; intros st H; cbn [drain]; [exact H |].
  destruct (drain_step st) as [st' |] eqn:E; [| exact H].
  apply IH. unfold drain_step in E.
  destruct (search_newline (partialSerialLine st)); [| discriminate].
  injection E as <-. apply push_line_published. exact H.
Qed.

Lemma on_data_published data st : published st -> published (on_data data st).
Proof.
  intros H. unfold on_data.
  assert (H0 : published (worker_post (WLine data) (showSerialHint st))).
  { unfold worker_post, showSerialHint.
    destruct (serialHintShown st); cbn; destruct (serialWorker st); exact H. }
  match goal with |- published (if ?b then _ else _) => destruct b end; cbv zeta;
    match goal with
    | |- published (set_summaryBuf _ (set_summaryBuf _ ?s)) => change (published s)
    | |- published (set_summaryBuf _ ?s) => change (published s)
    end;
    apply drain_published; exact H0.
Qed.

Lemma published_same (st st' : State) :
  globalThis st' = globalThis st -> recentLogs st' = recentLogs st ->
  arrays st' = arrays st -> env st' = env st ->
  (is_Some (serial st) -> is_Some (serial st')) ->
  published st -> published st'.
Proof.
  intros Hg Hr Ha He Hs (H1 & H2 & H3 & H4 & H5 & H6). unfold published.
  rewrite Hg, Hr, Ha, He. repeat split; try tauto; try assumption.
Qed.

Lemma serial_send_published args c st :
  published st -> published (serial_send args c st).
Proof.
  intros H. unfold serial_send. cbv zeta.
  destruct args as [[| a0 a] |]; unfold worker_post; cbn;
    try destruct (serialWorker st);
    (eapply published_same; [.. | exact H]; try reflexivity; cbn; eauto).
Qed.

Lemma serial_prompt_send_published cmd st :
  published st -> published (serial_prompt_send cmd st).
Proof.
  intros H. unfold serial_prompt_send. destruct (serial st) eqn:E; [| exact H].
  cbv zeta. unfold worker_post; cbn. destruct (serialWorker st);
    (eapply published_same; [.. | exact H]; try reflexivity; cbn; eauto).
Qed.

Lemma serial_clear_published st : published st -> published (serial_clear st).
Proof.
  intros H. unfold serial_clear.
  change (published (set_logs [] st)). now apply published_set_logs.
Qed.

Lemma serial_connect_published args st :
  published st -> published (serial_connect args st).
Proof.
  intros (H1 & H2 & H3 & H4 & H5 & H6). unfold serial_connect, published.
  cbv zeta. unfold disconnect_serial, stop_worker.
  cbn [serial set_serialHintShown].
  destruct (SerialConsole.connect_throws _ _).
  - destruct (serial st); cbn;
      (repeat split; try assumption; try apply H4; eauto).
  - destruct (serial st); cbn;
      (rewrite lookup_insert_ne by discriminate;
       rewrite !lookup_insert_eq;
       repeat split; eauto; intros v Hv; now injection Hv).
Qed.

Lemma serial_disconnect_published st :
  published st -> published (serial_disconnect st).
Proof.
  intros (H1 & H2 & H3 & H4 & H5 & H6). unfold serial_disconnect, published.
  cbv zeta. unfold disconnect_serial, stop_worker.
  destruct (serial st); cbn;
    (rewrite lookup_delete_ne by discriminate;
     rewrite !lookup_delete_eq;
     repeat split; try assumption;
     try (intros [x Hx]; discriminate); try (intros v Hv; discriminate)).
Qed.

Lemma serial_action_published sub args st :
  published st -> published (serial_action sub args st).
Proof.
  intros H. unfold serial_action.
  repeat match goal with
         | |- published (if ?b then _ else _) => destruct b
         | |- published (match ?o with Some _ => _ | None => _ end) => destruct o
         | |- published (match ?l with [] => _ | _ :: _ => _ end) => destruct l
         end;
    try exact H;
    try (now apply serial_send_published);
    try (now apply serial_clear_published);
    try (now apply serial_connect_published);
    try (now apply serial_disconnect_published).
Qed.

Lemma step_published st i : published st -> published (step st i).
Proof.
  intros H. destruct i as [sub args | cmd | | data |]; cbn [step].
  - now apply serial_action_published.
  - now apply serial_prompt_send_published.
  - destruct (serial st) eqn:E; [| exact H].
    eapply published_same; [.. | exact H]; try reflexivity; cbn; eauto.
  - destruct (serial st) eqn:E; [| exact H].
    apply on_data_published.
    eapply published_same; [.. | exact H]; try reflexivity; cbn; eauto.
  - destruct (serial st) eqn:E; [| exact H].
    eapply published_same; [.. | exact H]; try reflexivity; cbn; eauto.
Qed.

Lemma init_published : published init.
Proof.
  unfold published, init; cbn.
  repeat split; try (rewrite lookup_singleton_eq; eauto);
    try (intros [x Hx]; rewrite lookup_empty in Hx; discriminate).
  intros [x Hx]. rewrite lookup_singleton_ne in Hx by discriminate. discriminate.
  intros [x Hx]. rewrite lookup_singleton_ne in Hx by discriminate. discriminate.
  intros v Hv. rewrite lookup_singleton_ne in Hv by discriminate. discriminate.
Qed.

Lemma run_published ins st : published st -> published (run ins st).
Proof.
  revert st. induction ins as [| i ins IH]; intros st H; cbn; [exact H |].
  apply IH, step_published, H.
Qed.

(** *** The buffered text *)

Lemma trimStart_idem (s : jsstring) : trimStart (trimStart s) = trimStart s.
Proof.
  induction s as [| c s IH]; [reflexivity |]. cbn.
  destruct (is_ws c) eqn:E; [exact IH |]. cbn. now rewrite E.
Qed.

Lemma trimEnd_idem (s : jsstring) : trimEnd (trimEnd s) = trimEnd s.
Proof. unfold trimEnd. now rewrite rev_involutive, trimStart_idem. Qed.

Lemma trimStart_suffix (s : jsstring) : exists pre, s = pre ++ trimStart s.
Proof.
  induction s as [| c s (pre & IH)]; [now exists [] |]. cbn.
  destruct (is_ws c).
  - exists (c :: pre). cbn. now f_equal.
  - now exists [].
Qed.

Lemma trimEnd_prefix (s : jsstring) : exists post, s = trimEnd s ++ post.
Proof.
  unfold trimEnd. destruct (trimStart_suffix (rev s)) as (pre & H).
  exists (rev pre). apply (f_equal (@rev ascii)) in H.
  rewrite rev_involutive, rev_app_distr in H. exact H.
Qed.

Lemma trimEnd_no_LF (s : jsstring) : LF ∉ s -> LF ∉ trimEnd s.
Proof.
  intros H Habs. apply H. destruct (trimEnd_prefix s) as (post & Hs).
  rewrite Hs. apply elem_of_app. now left.
Qed.

Lemma trimEnd_line_ok (s : jsstring) :
  LF ∉ s -> trimEnd s <> [] -> line_ok (trimEnd s).
Proof.
  intros Hlf Hne. split; [exact Hne |]. split; [now apply trimEnd_no_LF |].
  apply trimEnd_idem.
Qed.

(** Where [search] finds the first line break. *)
Lemma search_newline_from_Some (s : jsstring) (i k : nat) :
  search_newline_from s i = Some k ->
  exists n, k = (i + n)%nat /\ (n < length s)%nat /\ (LF ∉ take n s) /\
    (s !! n = Some LF \/ (s !! n = Some CR /\ s !! S n = Some LF)).
Proof.
  revert i. induction s as [| c s IH]; intros i H; cbn in H; [discriminate |].
  destruct (bool_decide (c = LF)) eqn:Elf.
  - injection H as <-. apply bool_decide_eq_true in Elf. subst c.
    exists 0%nat. cbn. repeat split; [lia | lia | apply not_elem_of_nil | now left].
  - destruct (bool_decide (c = CR) && bool_decide (head s = Some LF)) eqn:Ecr.
    + injection H as <-. apply andb_true_iff in Ecr as [Ec Eh].
      apply bool_decide_eq_true in Ec, Eh. subst c.
      exists 0%nat. cbn. repeat split; [lia | lia | apply not_elem_of_nil |].
      right. split; [reflexivity |]. destruct s; cbn in *; congruence.
    + destruct (IH (S i) H) as (n & -> & Hn & Hlf & Hat).
      exists (S n). cbn. repeat split; [lia | lia | | exact Hat].
      apply bool_decide_eq_false in Elf.
      intros Habs. apply elem_of_cons in Habs as [Habs | Habs]; [congruence |].
      now apply Hlf.
Qed.

Lemma search_newline_from_None (s : jsstring) (i : nat) :
  search_newline_from s i = None -> LF ∉ s.
Proof.
  revert i. induction s as [| c s IH]; intros i H; [apply not_elem_of_nil |].
  cbn in H. destruct (bool_decide (c = LF)) eqn:Elf; [discriminate |].
  destruct (bool_decide (c = CR) && bool_decide (head s = Some LF)); [discriminate |].
  apply bool_decide_eq_false in Elf.
  intros Habs. apply elem_of_cons in Habs as [Habs | Habs]; [congruence |].
  now apply (IH (S i) H).
Qed.

(** One round of the loop: the line it cuts off and what it leaves. *)
Lemma drain_step_Some (st st' : State) :
  drain_step st = Some st' ->
  exists n adv,
    (n < length (partialSerialLine st))%nat /\ (1 <= adv)%nat /\
    (LF ∉ take n (partialSerialLine st)) /\
    st' = push_line (trimEnd (take n (partialSerialLine st)))
            (set_partialSerialLine (drop (n + adv) (partialSerialLine st)) st).
Proof.
  unfold drain_step, search_newline. intros H.
  destruct (search_newline_from (partialSerialLine st) 0) as [k |] eqn:E;
    [| discriminate].
  injection H as <-.
  apply search_newline_from_Some in E as (n & -> & Hn & Hlf & _). cbn [Nat.add].
  eexists n, _. split; [exact Hn |]. split; [| split; [exact Hlf |]].
  2: { rewrite slice_prefix, slice_from_of_nat. reflexivity. }
  destruct (_ && _); lia.
Qed.

Lemma push_line_well_formed (line : jsstring) (st : State) :
  (line <> [] -> line_ok line) ->
  well_formed st -> well_formed (push_line line st).
Proof.
  intros Hline [Hlogs Hp]. split.
  - destruct line as [| c line]; [exact Hlogs |].
    rewrite push_line_logs by discriminate.
    apply Forall_drop, Forall_app. split; [exact Hlogs |].
    apply Forall_singleton, Hline. discriminate.
  - now rewrite push_line_partial.
Qed.

Lemma drain_step_well_formed (st st' : State) :
  drain_step st = Some st' -> Forall line_ok (logs st) ->
  Forall line_ok (logs st').
Proof.
  intros H Hlogs. apply drain_step_Some in H as (n & adv & _ & _ & Hlf & ->).
  destruct (trimEnd (take n (partialSerialLine st))) as [| c l] eqn:E;
    [exact Hlogs |].
  rewrite push_line_logs by discriminate.
  apply Forall_drop, Forall_app. split; [exact Hlogs |].
  apply Forall_singleton. rewrite <- E. apply trimEnd_line_ok; [exact Hlf |].
  rewrite E. discriminate.
Qed.

Lemma drain_logs_ok (fuel : nat) (st : State) :
  Forall line_ok (logs st) -> Forall line_ok (logs (drain fuel st)).
Proof.
  revert st. induction fuel as [| fuel IH]; intros st H; cbn [drain]; [exact H |].
  destruct (drain_step st) as [st' |] eqn:E; [| exact H].
  apply IH. eapply drain_step_well_formed; eauto.
Qed.

(** The loop runs until no line break is left. *)
Lemma drain_complete (fuel : nat) (st : State) :
  (length (partialSerialLine st) <= fuel)%nat ->
  search_newline (partialSerialLine (drain fuel st)) = None.
Proof.
  revert st. induction fuel as [| fuel IH]; intros st Hlen; cbn [drain].
  - destruct (partialSerialLine st); [reflexivity | cbn in Hlen; lia].
  - destruct (drain_step st) as [st' |] eqn:E.
    + apply IH. apply drain_step_Some in E as (n & adv & Hn & Hadv & _ & ->).
      rewrite push_line_partial. cbn. rewrite length_drop. lia.
    + unfold drain_step in E.
      destruct (search_newline (partialSerialLine st)); [discriminate | reflexivity].
Qed.

Lemma on_data_well_formed (data : jsstring) (st : State) :
  well_formed st -> well_formed (on_data data st).
Proof.
  intros [Hlogs _]. unfold on_data, well_formed.
  set (st0 := worker_post (WLine data) (showSerialHint st)).
  assert (Hlogs0 : Forall line_ok (logs st0)).
  { destruct (worker_post_ring (WLine data) (showSerialHint st)) as (H1 & _).
    destruct (showSerialHint_ring st) as (H2 & _).
    unfold st0. now rewrite H1, H2. }
  cbv zeta.
  set (st1 := set_partialSerialLine (partialSerialLine st0 ++ data) st0).
  match goal with |- context [if ?b then _ else _] => destruct b end;
    cbn [logs deref arrays recentLogs partialSerialLine set_summaryBuf];
    (split;
     [ apply (drain_logs_ok _ st1); exact Hlogs0
     | eapply search_newline_from_None; apply drain_complete; reflexivity ]).
Qed.

Lemma serial_action_buffer sub args st :
  (logs (serial_action sub args st) = logs st \/
   logs (serial_action sub args st) = []) /\
  partialSerialLine (serial_action sub args st) = partialSerialLine st.
Proof.
  unfold serial_action.
  repeat match goal with
         | |- context [if ?b then _ else _] => destruct b
         | |- context [match ?o with Some _ => _ | None => _ end] => destruct o eqn:?
         | |- context [match ?l with [] => _ | _ :: _ => _ end] => destruct l eqn:?
         end;
    try (split; [left; reflexivity | reflexivity]).
  all: try (split; [right; apply logs_set_logs | reflexivity]).
  all: unfold serial_connect, serial_disconnect, serial_send, disconnect_serial,
         stop_worker, worker_post; cbv zeta;
       repeat match goal with
         | |- context [if SerialConsole.connect_throws ?p ?c then _ else _] =>
             destruct (SerialConsole.connect_throws p c)
         end; cbn;
       repeat match goal with
         | |- context [match ?o with Some _ => _ | None => _ end] => destruct o eqn:?
         | |- context [match ?l with [] => _ | _ :: _ => _ end] => destruct l eqn:?
         end;
       (split; [left; reflexivity | reflexivity]).
Qed.

Lemma step_well_formed st i : well_formed st -> well_formed (step st i).
Proof.
  intros [Hlogs Hp]. destruct i as [sub args | cmd | | data |]; cbn [step].
  - destruct (serial_action_buffer sub args st) as [[Hl | Hl] Hpart];
      split; rewrite ?Hl, ?Hpart; auto.
  - unfold serial_prompt_send. destruct (serial st); [| now split].
    cbv zeta. unfold worker_post; cbn. destruct (serialWorker st); now split.
  - destruct (serial st); now split.
  - destruct (serial st); [| now split]. apply on_data_well_formed. now split.
  - destruct (serial st); now split.
Qed.

Lemma init_well_formed : well_formed init.
Proof.
  split.
  - unfold logs, deref, init; cbn. rewrite lookup_singleton_eq. constructor.
  - cbn. apply not_elem_of_nil.
Qed.

Lemma run_well_formed ins st : well_formed st -> well_formed (run ins st).
Proof.
  revert st. induction ins as [| i ins IH]; intros st H; cbn; [exact H |].
  apply IH, step_well_formed, H.
Qed.

(** X1. In every state the process can reach, [GEMINI_SERIAL_LOGS] still
    refers to the array the data handler pushes to, which was allocated at
    start-up and is never replaced: a tool that reads the global reads the
    live log. The session handle and the saved port are set together and
    removed together, and a handle is set only while a console exists. *)
Theorem published_log_is_live (st : State) :
  reachable st ->
  globalThis st !! "GEMINI_SERIAL_LOGS"%string = Some (ArrayRef (recentLogs st)) /\
  recentLogs st = recentLogs init /\
  arrays st !! recentLogs st = Some (logs st) /\
  (is_Some (globalThis st !! "GEMINI_ACTIVE_SERIAL"%string)
     <-> is_Some (env st !! "GEMINI_SERIAL_PORT"%string)) /\
  (is_Some (globalThis st !! "GEMINI_ACTIVE_SERIAL"%string) -> is_Some (serial st)).
Proof.
  intros [ins ->].
  destruct (run_published ins init init_published) as (H1 & H2 & H3 & H4 & H5 & H6).
  repeat split; try assumption; try tauto.
  destruct H3 as [l Hl]. unfold logs, deref. now rewrite Hl.
Qed.

Lemma published_log_is_live_witness :
  arrays five_lines !! recentLogs five_lines
    = Some [js "a"; js "b"; js "c"; js "d"; js "e"].
Proof.
  destruct (published_log_is_live five_lines) as (_ & _ & H & _).
  - exists
      [Command (Some (js "connect")) (Some (js "/dev/ttyUSB0 115200"));
       PortOpen;
       PortData [ "a"%char; LF; "b"%char; LF; "c"%char; CR; LF ];
       PortData [ "d"%char; LF; "e"%char; LF ]].
    reflexivity.
  - rewrite H. vm_compute. reflexivity.
Defined.

(** X2. From a state of the CLI and for a call that passes
    [validateToolParams], every tool turns to the log buffer while a
    session handle is set, even while the buffer is empty, and none does
    without one. The real-time tool never takes its stream listener, the
    device-tree tool never throws for a missing log buffer, and the driver
    and hot-spot tools never answer that serial logging is not available.
    The device-info tool starts with the log buffer as well and runs its
    stream listener afterwards exactly when the poll of the log buffer
    ends in a rejection, as it does on its time-out. Without a handle the
    saved port is not set either, so the first three open the port given
    in the call or else run locally, and the other two run locally. A call
    that fails validation is answered with the message and nothing is
    collected. *)
Theorem tools_route_through_log_buffer {A} (st : State) (p : tool_params)
    (polled : option (nat * Framing.tick A)) :
  reachable st ->
  let active := global_set st "GEMINI_ACTIVE_SERIAL" in
  let rejected :=
    match polled with
    | Some (_, Framing.Settled (Framing.Rejected _)) => true
    | _ => false
    end in
  let expected :=
    if active then ViaLogBuffer
    else if truthy (serial_port p) then ViaFreshSerial else ViaLocal in
  (rt_validate p = None -> rt_route st p = [expected]) /\
  (dt_validate p = None -> dt_route st p = [expected]) /\
  (info_validate p = None ->
   info_route st p polled
   = if active then ViaLogBuffer :: (if rejected then [ViaStream] else [])
     else [expected]) /\
  (drv_validate p = None ->
   drv_route st p = [if active then ViaLogBuffer else ViaLocal]) /\
  (kh_validate p = None ->
   kh_route st p = [if active then ViaLogBuffer else ViaLocal]) /\
  (forall m,
     (rt_validate p = Some m -> rt_route st p = [Invalid m]) /\
     (dt_validate p = Some m -> dt_route st p = [Invalid m]) /\
     (info_validate p = Some m -> info_route st p polled = [Invalid m]) /\
     (drv_validate p = Some m -> drv_route st p = [Invalid m]) /\
     (kh_validate p = Some m -> kh_route st p = [Invalid m])).
Proof.
  intros [ins ->].
  destruct (run_published ins init init_published) as (H1 & H2 & H3 & H4 & H5 & H6).
  set (st := run ins init) in *. cbv zeta.
  assert (Hl : global_set st "GEMINI_SERIAL_LOGS" = true).
  { unfold global_set. apply bool_decide_eq_true. rewrite H1. eauto. }
  assert (Hinv : forall m,
     (rt_validate p = Some m -> rt_route st p = [Invalid m]) /\
     (dt_validate p = Some m -> dt_route st p = [Invalid m]) /\
     (info_validate p = Some m -> info_route st p polled = [Invalid m]) /\
     (drv_validate p = Some m -> drv_route st p = [Invalid m]) /\
     (kh_validate p = Some m -> kh_route st p = [Invalid m])).
  { intros m. unfold rt_route, dt_route, info_route, drv_route, kh_route.
    repeat split; intros ->; reflexivity. }
  destruct (globalThis st !! "GEMINI_ACTIVE_SERIAL"%string) as [v |] eqn:Ea.
  - assert (Ha : global_set st "GEMINI_ACTIVE_SERIAL" = true).
    { unfold global_set. rewrite Ea. apply bool_decide_eq_true. eauto. }
    unfold rt_route, dt_route, info_route, drv_route, kh_route,
      info_buffer_rejected. cbv zeta.
    rewrite Ha, Hl, Ea, (H6 v eq_refl). cbn [has_send has_write andb orb negb].
    repeat split; try (intros ->; reflexivity); try apply Hinv.
    intros ->. now destruct polled as [[k [| | [a | m]]] |].
  - assert (Ha : global_set st "GEMINI_ACTIVE_SERIAL" = false).
    { unfold global_set. rewrite Ea. apply bool_decide_eq_false.
      intros [x Hx]. discriminate. }
    assert (He : env st !! "GEMINI_SERIAL_PORT"%string = None).
    { destruct (env st !! "GEMINI_SERIAL_PORT"%string) eqn:E; [| reflexivity].
      assert (Hs : is_Some (@None gval)) by (apply H4; eauto).
      destruct Hs as [x Hx]. discriminate. }
    unfold rt_route, dt_route, info_route, drv_route, kh_route, resolved_port,
      info_resolved_port. cbv zeta.
    rewrite Ha, Ea, He. cbn [truthy]. rewrite !andb_false_r. cbn [andb negb].
    repeat split; try (intros ->; now destruct (truthy (serial_port p)));
      try (intros ->; reflexivity); apply Hinv.
Qed.

Lemma tools_route_through_log_buffer_witness :
  rt_route five_lines no_params = [ViaLogBuffer] /\
  dt_route five_lines no_params = [ViaLogBuffer] /\
  info_route five_lines no_params
    (Framing.DeviceInfo.collect Framing.silent_world (js "0.k3x9q1abc") 300)
  = [ViaLogBuffer; ViaStream] /\
  drv_route five_lines no_params = [ViaLogBuffer] /\
  rt_route init (port_params (js "ttyUSB0"))
  = [Invalid (js "serial_port must be absolute path")].
Proof.
  destruct (tools_route_through_log_buffer five_lines no_params
              (Framing.DeviceInfo.collect Framing.silent_world (js "0.k3x9q1abc") 300))
    as (Hrt & Hdt & Hinfo & Hdrv & _).
  - exists
      [Command (Some (js "connect")) (Some (js "/dev/ttyUSB0 115200"));
       PortOpen;
       PortData [ "a"%char; LF; "b"%char; LF; "c"%char; CR; LF ];
       PortData [ "d"%char; LF; "e"%char; LF ]].
    reflexivity.
  - rewrite (Hrt eq_refl), (Hdt eq_refl), (Hinfo eq_refl), (Hdrv eq_refl).
    repeat split; vm_compute; reflexivity.
Defined.

(** X3. In every state the process can reach, each line of the log buffer
    is non-empty, holds no line feed and has no blank at its end, and the
    pending partial line holds no line feed: the data handler leaves no
    complete line unprocessed. *)
Theorem buffered_lines_are_trimmed (st : State) :
  reachable st ->
  Forall (fun l => l <> [] /\ (LF ∉ l) /\ trimEnd l = l) (logs st) /\
  (LF ∉ partialSerialLine st) /\
  search_newline (partialSerialLine st) = None.
Proof.
  intros [ins ->].
  destruct (run_well_formed ins init init_well_formed) as [Hlogs Hp].
  split; [exact Hlogs |]. split; [exact Hp |].
  destruct (search_newline (partialSerialLine (run ins init))) as [k |] eqn:E;
    [| reflexivity].
  exfalso. unfold search_newline in E.
  apply search_newline_from_Some in E as (n & _ & Hn & _ & Hat).
  apply Hp. destruct Hat as [Hat | [_ Hat]];
    eapply list_elem_of_lookup_2; eauto.
Qed.

Lemma buffered_lines_are_trimmed_witness :
  Forall (fun l => l <> [] /\ (LF ∉ l) /\ trimEnd l = l) (logs five_lines).
Proof.
  destruct (buffered_lines_are_trimmed five_lines) as (H & _).
  - exists
      [Command (Some (js "connect")) (Some (js "/dev/ttyUSB0 115200"));
       PortOpen;
       PortData [ "a"%char; LF; "b"%char; LF; "c"%char; CR; LF ];
       PortData [ "d"%char; LF; "e"%char; LF ]].
    reflexivity.
  - exact H.
Defined.

(** *** The handler as a function of the ring *)

Lemma ring_push_line (line : jsstring) (st : State) :
  ring (push_line line st) = ring_push line (ring st).
Proof.
  unfold ring, ring_push, push_line.
  destruct (0 <? length line)%nat; [| reflexivity]. cbv zeta.
  rewrite !logs_set_logs.
  destruct (LOG_RING_SIZE <? length (logs st ++ [line]))%nat; [| now rewrite logs_set_logs].
  change (logs (set_lastCommandStartIdx ?i ?s)) with (logs s).
  now rewrite logs_set_logs.
Qed.

Lemma ring_drain_step (st : State) :
  ring <$> drain_step st = ring_step (ring st).
Proof.
  unfold drain_step, ring_step, ring at 2.
  destruct (search_newline (partialSerialLine st)) as [i |]; [| reflexivity].
  cbn [fmap option_fmap option_map]. f_equal. apply ring_push_line.
Qed.

Lemma ring_drain_state (fuel : nat) (st : State) :
  ring (drain fuel st) = ring_drain fuel (ring st).
Proof.
  revert st. induction fuel as [| fuel IH]; intros st; cbn [drain ring_drain];
    [reflexivity |].
  pose proof (ring_drain_step st) as H.
  destruct (drain_step st) as [st' |]; cbn [fmap option_fmap option_map] in H;
    rewrite <- H; [apply IH | reflexivity].
Qed.

Lemma ring_on_data (data : jsstring) (st : State) :
  ring (on_data data st) = ring_feed data (ring st).
Proof.
  set (st0 := worker_post (WLine data) (showSerialHint st)).
  assert (H0 : ring st0 = ring st).
  { destruct (worker_post_ring (WLine data) (showSerialHint st)) as (H1 & H2 & H3).
    destruct (showSerialHint_ring st) as (H4 & H5 & H6).
    unfold ring, st0. now rewrite H1, H2, H3, H4, H5, H6. }
  unfold on_data. fold st0. cbv zeta.
  set (st1 := set_partialSerialLine (partialSerialLine st0 ++ data) st0).
  assert (H1 : ring (drain (length (partialSerialLine st1)) st1)
               = ring_feed data (ring st)).
  { rewrite ring_drain_state. rewrite <- H0. reflexivity. }
  match goal with |- context [if ?b then _ else _] => destruct b end; exact H1.
Qed.

Lemma ring_push_partial line lg f p :
  snd (ring_push line (lg, f, p)) = p.
Proof.
  unfold ring_push. destruct (0 <? length line)%nat; [| reflexivity].
  cbv zeta. destruct (_ <? _)%nat; reflexivity.
Qed.

Lemma ring_push_app line lg f p b :
  ring_push line (lg, f, p ++ b)
  = (fst (ring_push line (lg, f, p)), snd (ring_push line (lg, f, p)) ++ b).
Proof.
  unfold ring_push. destruct (0 <? length line)%nat; [| reflexivity].
  cbv zeta. destruct (_ <? _)%nat; reflexivity.
Qed.

Lemma search_newline_from_app (q b : jsstring) (i k : nat) :
  search_newline_from q i = Some k -> search_newline_from (q ++ b) i = Some k.
Proof.
  revert i. induction q as [| c q IH]; intros i H; cbn in H; [discriminate |].
  cbn. destruct (bool_decide (c = LF)); [exact H |].
  destruct (bool_decide (c = CR)) eqn:Ecr; cbn [andb] in *.
  - destruct q as [| d q]; cbn in H; [discriminate |]. cbn [app head].
    cbn [head] in H. destruct (bool_decide (Some d = Some LF)); [exact H |].
    apply (IH (S i) H).
  - apply (IH (S i) H).
Qed.

(** What one round does, in terms of the text. *)
Lemma ring_step_Some lg f p r' :
  ring_step (lg, f, p) = Some r' ->
  exists n adv,
    (n + adv <= length p)%nat /\ (1 <= adv)%nat /\
    search_newline p = Some n /\
    adv = (if bool_decide (p !! n = Some CR) && bool_decide (p !! S n = Some LF)
           then 2%nat else 1%nat) /\
    r' = ring_push (trimEnd (take n p)) (lg, f, drop (n + adv) p).
Proof.
  unfold ring_step. intros H.
  destruct (search_newline p) as [k |] eqn:E; [| discriminate].
  injection H as <-. pose proof E as E'. unfold search_newline in E'.
  apply search_newline_from_Some in E' as (n & -> & Hn & _ & Hat). cbn [Nat.add].
  eexists n, _. split; [| split; [| split; [reflexivity | split; [reflexivity |]]]].
  3: { rewrite slice_prefix, slice_from_of_nat. reflexivity. }
  - destruct Hat as [Hat | [Hcr Hlf]].
    + rewrite Hat. rewrite (bool_decide_eq_false_2 (Some LF = Some CR)) by discriminate.
      cbn. lia.
    + rewrite Hcr, Hlf, !bool_decide_eq_true_2 by reflexivity. cbn.
      apply lookup_lt_Some in Hlf. lia.
  - destruct (_ && _); lia.
Qed.

Lemma ring_step_app lg f q b r' :
  ring_step (lg, f, q) = Some r' ->
  ring_step (lg, f, q ++ b) = Some (fst r', snd r' ++ b).
Proof.
  intros H. pose proof H as H'.
  apply ring_step_Some in H' as (n & adv & Hlen & Hadv & Hs & Hadv_eq & ->).
  unfold ring_step. unfold search_newline in *.
  rewrite (search_newline_from_app q b 0 n Hs).
  rewrite slice_prefix, slice_from_of_nat.
  assert (Hn : (n < length q)%nat) by lia.
  rewrite (lookup_app_l q b n Hn).
  assert (Hadv' : (if bool_decide (q !! n = Some CR)
                      && bool_decide ((q ++ b) !! S n = Some LF)
                   then 2%nat else 1%nat) = adv).
  { rewrite Hadv_eq. destruct (bool_decide (q !! n = Some CR)) eqn:Ecr; [| reflexivity].
    cbn [andb]. destruct (decide (S n < length q)%nat) as [Hlt | Hge].
    - now rewrite (lookup_app_l q b (S n) Hlt).
    - exfalso. apply search_newline_from_Some in Hs as (m & Hm & _ & _ & Hat).
      cbn in Hm. subst m. apply bool_decide_eq_true in Ecr.
      destruct Hat as [Hat | [_ Hat]];
        [rewrite Ecr in Hat; vm_compute in Hat; discriminate |].
      apply lookup_lt_Some in Hat. lia. }
  rewrite Hadv'. f_equal.
  rewrite take_app_le by lia. rewrite drop_app_le by lia.
  rewrite ring_push_app. reflexivity.
Qed.

Lemma ring_step_partial_shorter lg f p r' :
  ring_step (lg, f, p) = Some r' -> (length (snd r') < length p)%nat.
Proof.
  intros H. apply ring_step_Some in H as (n & adv & Hlen & Hadv & _ & _ & ->).
  rewrite ring_push_partial, length_drop. lia.
Qed.

(** More fuel than the text is long changes nothing. *)
Lemma ring_drain_S (m : nat) lg f p :
  (length p <= m)%nat ->
  ring_drain (S m) (lg, f, p) = ring_drain m (lg, f, p).
Proof.
  revert lg f p. induction m as [| m IH]; intros lg f p Hm.
  - destruct p; [reflexivity | cbn in Hm; lia].
  - cbn [ring_drain]. destruct (ring_step (lg, f, p)) as [[[lg' f'] p'] |] eqn:E;
      [| reflexivity].
    pose proof (ring_step_partial_shorter _ _ _ _ E) as Hlt. cbn in Hlt.
    apply (IH lg' f' p'). lia.
Qed.

Lemma ring_drain_fuel (m : nat) lg f p :
  (length p <= m)%nat ->
  ring_drain m (lg, f, p) = ring_drain (length p) (lg, f, p).
Proof.
  intros Hm. replace m with (length p + (m - length p))%nat by lia.
  induction (m - length p)%nat as [| d IH]; [now rewrite Nat.add_0_r |].
  replace (length p + S d)%nat with (S (length p + d)) by lia.
  rewrite ring_drain_S by lia. exact IH.
Qed.

Lemma ring_drain_app (n : nat) lg f q b :
  (length q <= n)%nat ->
  ring_drain (length (q ++ b)) (lg, f, q ++ b)
  = (let '(lg1, f1, q1) := ring_drain n (lg, f, q) in
     ring_drain (length (q1 ++ b)) (lg1, f1, q1 ++ b)).
Proof.
  revert lg f q. induction n as [| n IH]; intros lg f q Hn.
  - reflexivity.
  - cbn [ring_drain]. destruct (ring_step (lg, f, q)) as [[[lg' f'] q'] |] eqn:E;
      [| reflexivity].
    pose proof (ring_step_partial_shorter _ _ _ _ E) as Hlt. cbn in Hlt.
    rewrite <- IH by lia.
    destruct (length (q ++ b)) as [| k] eqn:Hk;
      [rewrite length_app in Hk; lia |].
    cbn [ring_drain]. rewrite (ring_step_app _ _ _ b _ E). cbn [fst snd].
    apply ring_drain_fuel. rewrite length_app in *. lia.
Qed.

Lemma ring_feed_app (a b : jsstring) r :
  ring_feed (a ++ b) r = ring_feed b (ring_feed a r).
Proof.
  destruct r as [[lg f] p]. unfold ring_feed at 1 3.
  rewrite (app_assoc p a b).
  rewrite (ring_drain_app (length (p ++ a)) lg f (p ++ a) b) by lia.
  destruct (ring_drain (length (p ++ a)) (lg, f, p ++ a)) as [[lg1 f1] q1].
  reflexivity.
Qed.

(** X4. The data handler does not depend on how the stream is cut into
    chunks: a chunk delivered in two parts leaves the same log lines, the
    same command-start index and the same pending partial line as the
    chunk delivered whole, also when the cut falls between a carriage
    return and its line feed. *)
Theorem line_assembly_ignores_chunking (a b : jsstring) (st : State) :
  let whole := on_data (a ++ b) st in
  let parts := on_data b (on_data a st) in
  logs parts = logs whole /\
  lastCommandStartIdx parts = lastCommandStartIdx whole /\
  partialSerialLine parts = partialSerialLine whole.
Proof.
  cbv zeta.
  assert (H : ring (on_data b (on_data a st)) = ring (on_data (a ++ b) st)).
  { rewrite !ring_on_data. symmetry. apply ring_feed_app. }
  unfold ring in H. injection H as H1 H2 H3. auto.
Qed.

(** *** The command-start index across evictions *)

Lemma push_lines_fence (ls : list jsstring) (st : State) :
  Forall (fun l => l <> []) ls ->
  bounded st -> 0 <= lastCommandStartIdx st ->
  lastCommandStartIdx (push_lines ls st)
  = Z.max 0 (lastCommandStartIdx st
             - Z.of_nat (length (logs st ++ ls) - LOG_RING_SIZE)).
Proof.
  intros Hne. revert st.
  induction Hne as [| l ls Hl _ IH]; intros st Hb Hf; cbn [push_lines foldl].
  - rewrite app_nil_r. unfold bounded in Hb.
    replace (length (logs st) - LOG_RING_SIZE)%nat with 0%nat by lia. lia.
  - fold (push_lines ls (push_line l st)).
    rewrite IH; [| now apply push_line_bounded | now apply push_line_fence_ok].
    rewrite (push_line_fence l st Hl), (push_line_logs l st Hl).
    unfold excess_of, bounded in *.
    rewrite !length_app, length_drop, length_app. cbn [length].
    destruct (Nat.ltb_spec 0 (length (logs st) + 1 - LOG_RING_SIZE)); lia.
Qed.

Lemma summarize_from_fence (st : State) :
  summarize_lines None st
  = slice_from (logs st) (clamp_startIdx (lastCommandStartIdx st) st).
Proof. reflexivity. Qed.

Lemma lines_since_fence (lg ls : list jsstring) :
  let T := (length (lg ++ ls) - LOG_RING_SIZE)%nat in
  (length lg <= LOG_RING_SIZE)%nat ->
  slice_from (drop T (lg ++ ls)) (Z.max 0 (Z.of_nat (length lg) - Z.of_nat T))
  = drop (length ls - LOG_RING_SIZE) ls.
Proof.
  cbv zeta. intros Hb. rewrite length_app.
  destruct (Nat.le_gt_cases (length lg + length ls - LOG_RING_SIZE) (length lg))
    as [Hle | Hgt].
  - replace (Z.max 0 (Z.of_nat (length lg)
                      - Z.of_nat (length lg + length ls - LOG_RING_SIZE)))
      with (Z.of_nat (length lg - (length lg + length ls - LOG_RING_SIZE))) by lia.
    rewrite slice_from_of_nat, drop_drop.
    replace (length lg + length ls - LOG_RING_SIZE
             + (length lg - (length lg + length ls - LOG_RING_SIZE)))%nat
      with (length lg) by lia.
    rewrite drop_app_length.
    now replace (length ls - LOG_RING_SIZE)%nat with 0%nat by lia.
  - replace (Z.max 0 (Z.of_nat (length lg)
                      - Z.of_nat (length lg + length ls - LOG_RING_SIZE)))
      with (Z.of_nat 0) by lia.
    rewrite slice_from_of_nat, drop_0.
    rewrite drop_app_ge by lia. f_equal. lia.
Qed.

Section SinceSend.
Variables (st : State) (ls : list jsstring).
Hypothesis st_reachable : reachable st.
Hypothesis no_partial : partialSerialLine st = [].
Hypothesis ls_clean : Forall clean_line ls.

Lemma fed_after_fence (st1 : State) :
  logs st1 = logs st -> partialSerialLine st1 = [] ->
  lastCommandStartIdx st1 = Z.of_nat (length (logs st)) ->
  let T := (length (logs st ++ ls) - LOG_RING_SIZE)%nat in
  logs (feed_lines ls st1) = drop T (logs st ++ ls) /\
  lastCommandStartIdx (feed_lines ls st1)
    = Z.max 0 (Z.of_nat (length (logs st)) - Z.of_nat T).
Proof using st_reachable ls_clean.
  intros Hlogs Hp Hf. cbv zeta.
  destruct (reachable_inv st st_reachable) as [Hb _].
  assert (Hb1 : bounded st1) by (unfold bounded; now rewrite Hlogs).
  destruct (feed_lines_ring ls st1 st1 ls_clean Hp eq_refl eq_refl) as [H1 H2].
  rewrite H1, H2.
  rewrite push_lines_logs, push_lines_fence;
    try (now apply clean_lines_nonempty); try exact Hb1; [| lia].
  now rewrite Hlogs, Hf.
Qed.
End SinceSend.

(** X5. After [/serial send], once lines have arrived, [/serial summarize]
    without a start index covers exactly the lines received since the
    send, or the last [LOG_RING_SIZE] of them: evictions move the saved
    index along. When no line has arrived since the send the saved index
    equals the buffer length and the whole buffer is summarised instead.
    The excerpt of [/serial prompt] is cut at the saved index without that
    check and is exactly the lines received since, also when there are
    none. *)
Theorem summarize_covers_lines_since_send
    (st : State) (c : SerialConsole.t) (args : option jsstring)
    (cmd : jsstring) (ls : list jsstring) :
  reachable st -> partialSerialLine st = [] -> Forall clean_line ls ->
  summarize_lines None (feed_lines ls (serial_send args c st))
    = (match ls with
       | [] => logs st
       | _ => drop (length ls - LOG_RING_SIZE) ls
       end) /\
  (serial st = Some c ->
   prompt_excerpt (feed_lines ls (serial_prompt_send cmd st))
     = drop (length ls - LOG_RING_SIZE) ls).
Proof.
  intros Hr Hp Hclean.
  destruct (reachable_inv st Hr) as [Hb _]. unfold bounded in Hb.
  split.
  - assert (Hs : logs (serial_send args c st) = logs st /\
                 partialSerialLine (serial_send args c st) = [] /\
                 lastCommandStartIdx (serial_send args c st)
                   = Z.of_nat (length (logs st))).
    { unfold serial_send, worker_post. cbv zeta.
      destruct args as [[| a0 a] |]; cbn; try destruct (serialWorker st);
        repeat split; assumption. }
    destruct Hs as (Hl & Hpp & Hf).
    destruct (fed_after_fence st ls Hr Hclean _ Hl Hpp Hf) as [H1 H2].
    cbv zeta in H1, H2.
    rewrite summarize_from_fence. unfold clamp_startIdx. rewrite H1, H2.
    destruct ls as [| l ls'].
    + rewrite app_nil_r.
      replace (length (logs st) - LOG_RING_SIZE)%nat with 0%nat by lia.
      rewrite drop_0.
      destruct (Z.ltb_spec (Z.max 0 (Z.of_nat (length (logs st)) - Z.of_nat 0)) 0);
        [lia |].
      destruct (Z.leb_spec (Z.of_nat (length (logs st)))
                  (Z.max 0 (Z.of_nat (length (logs st)) - Z.of_nat 0))); [| lia].
      cbn [orb]. apply (slice_from_of_nat (logs st) 0).
    + set (lss := l :: ls') in *.
      assert (Hlen : (0 < length lss)%nat) by (unfold lss; cbn; lia).
      rewrite length_drop.
      destruct (Z.ltb_spec (Z.max 0 (Z.of_nat (length (logs st))
                  - Z.of_nat (length (logs st ++ lss) - LOG_RING_SIZE))) 0); [lia |].
      destruct (Z.leb_spec
                  (Z.of_nat (length (logs st ++ lss)
                             - (length (logs st ++ lss) - LOG_RING_SIZE)))
                  (Z.max 0 (Z.of_nat (length (logs st))
                     - Z.of_nat (length (logs st ++ lss) - LOG_RING_SIZE))))
        as [Habs | _].
      * rewrite length_app in Habs. unfold LOG_RING_SIZE in *. lia.
      * cbn [orb]. now apply lines_since_fence.
  - intros Hc.
    assert (Hs : logs (serial_prompt_send cmd st) = logs st /\
                 partialSerialLine (serial_prompt_send cmd st) = [] /\
                 lastCommandStartIdx (serial_prompt_send cmd st)
                   = Z.of_nat (length (logs st))).
    { unfold serial_prompt_send, worker_post. rewrite Hc. cbv zeta.
      cbn; destruct (serialWorker st); repeat split; assumption. }
    destruct Hs as (Hl & Hpp & Hf).
    destruct (fed_after_fence st ls Hr Hclean _ Hl Hpp Hf) as [H1 H2].
    cbv zeta in H1, H2. unfold prompt_excerpt. rewrite H1, H2.
    now apply lines_since_fence.
Qed.

Lemma summarize_covers_lines_since_send_witness :
  summarize_lines None
    (feed_lines [js "x"; js "y"]
       (serial_send (Some (js "uname -a")) open_console five_lines))
    = [js "x"; js "y"].
Proof.
  destruct (summarize_covers_lines_since_send five_lines open_console
              (Some (js "uname -a")) (js "ls") [js "x"; js "y"]) as [H _];
    [| | | exact H].
  - exists
      [Command (Some (js "connect")) (Some (js "/dev/ttyUSB0 115200"));
       PortOpen;
       PortData [ "a"%char; LF; "b"%char; LF; "c"%char; CR; LF ];
       PortData [ "d"%char; LF; "e"%char; LF ]].
    reflexivity.
  - vm_compute. reflexivity.
  - repeat constructor; vm_compute; try reflexivity; discriminate.
Defined.

End SessionFacts.


(** * The console under arbitrary use *)

Module ConsoleFacts.
Import Js SerialConsole ConsoleOps.

Lemma errors_emit (e : event) (c : SerialConsole.t) :
  errors (emit e c)
  = errors c ++ match e with EvError m => [m] | _ => [] end.
Proof.
  unfold errors, emit. cbn [emitted]. rewrite omap_app. cbn.
  now destruct e.
Qed.

Lemma apply_ok (c : SerialConsole.t) (o : op) :
  console_ok c -> console_ok (apply c o).
Proof.
  intros (Hp & Hw & He). destruct c as [p o_ em]. unfold console_ok in *.
  destruct o; cbn [apply]; unfold connect, send, disconnect, on_port_open,
    on_port_data, on_port_close, transmitted in *; cbn [port isOpen] in *.
  - destruct o_;
      [| destruct (new_port_throws _);
         [exact (conj Hp (conj Hw He))
         | cbn; repeat split; [eauto | constructor | exact He]]].
    rewrite errors_emit. cbn. repeat split; auto.
    apply Forall_app; split; [exact He | repeat constructor; now left].
  - destruct p as [p |]; [destruct o_ |]; cbn [port isOpen emit transmitted written port_write];
      rewrite ?errors_emit; repeat split; auto.
    + apply Forall_app; split; [exact Hw | repeat constructor; now exists data].
    + apply Forall_app; split; [exact He | repeat constructor; now right].
    + apply Forall_app; split; [exact He | repeat constructor; now right].
  - destruct p as [p |]; [destruct o_ |]; cbn; repeat split; auto.
  - destruct p as [p |]; cbn [port isOpen emit]; rewrite ?errors_emit, ?app_nil_r;
      repeat split; eauto.
  - destruct p as [p |]; cbn [port isOpen emit]; rewrite ?errors_emit, ?app_nil_r;
      repeat split; eauto.
  - destruct p as [p |]; cbn [port isOpen emit]; rewrite ?errors_emit, ?app_nil_r;
      repeat split; eauto; discriminate.
Qed.

(** X6. Whatever sequence of method calls and port events a console goes
    through, it is marked open only while it has a port; everything it
    wrote to the current port is some sent text followed by one line feed;
    and the only errors it raises itself are 'Serial port already open'
    and 'Serial port not open'. *)
Theorem console_writes_terminated_lines (ops : list op) :
  let c := console_after ops in
  (isOpen c = true -> is_Some (port c)) /\
  Forall (fun w => exists d, w = d ++ [LF]) (transmitted c) /\
  Forall (fun m => m = js "Serial port already open" \/
                   m = js "Serial port not open") (errors c).
Proof.
  cbv zeta. unfold console_after.
  change (console_ok (foldl apply new ops)).
  assert (H0 : console_ok new).
  { repeat split; [discriminate | constructor | constructor]. }
  revert H0. generalize new. induction ops as [| o ops IH]; intros c Hc.
  - exact Hc.
  - cbn [foldl]. apply IH. now apply apply_ok.
Qed.

(** X7. [disconnect] only asks the port to close. Until the port's
    'close' event arrives the console still counts as open: a [send] is
    written to the closing port without any error, and a [connect] is
    refused as already open. The 'close' event ends this: a later [send]
    writes nothing and raises 'Serial port not open'. *)
Theorem disconnect_takes_effect_on_close_event
    (c : SerialConsole.t) (p : SerialPort) (d path_ : jsstring) (b : option Z) :
  port c = Some p -> isOpen c = true ->
  let c1 := disconnect c in
  close_requested c1 = true /\
  transmitted (send d c1) = transmitted c ++ [d ++ [LF]] /\
  emitted (send d c1) = emitted c /\
  connect path_ b c1 = emit (EvError (js "Serial port already open")) c1 /\
  transmitted (send d (on_port_close c1)) = transmitted c /\
  errors (send d (on_port_close c1)) = errors c ++ [js "Serial port not open"].
Proof.
  intros Hp Ho. destruct c as [p0 o em]. cbn in Hp, Ho. subst p0 o.
  cbv zeta. unfold disconnect, send, connect, on_port_close, close_requested,
    transmitted. cbn [port isOpen emit emitted].
  repeat split.
  rewrite !errors_emit. cbn. now rewrite app_nil_r.
Qed.

Lemma disconnect_takes_effect_on_close_event_witness :
  transmitted (send (js "reboot") (disconnect Cli.open_console))
  = [js "reboot" ++ [LF]].
Proof.
  destruct (disconnect_takes_effect_on_close_event Cli.open_console
              (mkPort (js "/dev/ttyUSB0") (Some 115200) [] false)
              (js "reboot") (js "/dev/ttyUSB1") None)
    as (_ & H & _); [reflexivity | reflexivity |].
  exact H.
Defined.

End ConsoleFacts.


(** * Splitting and joining *)

Module SplitFacts.
Import Js Framing TextFacts LineFacts SessionFacts.

Lemma index_from_char_none (c : ascii) (f : jsstring) (k : nat) :
  c ∉ f -> index_from [c] f k = None.
Proof.
  revert k. induction f as [| x f IH]; intros k H; [reflexivity |].
  cbn. apply not_elem_of_cons in H as [Hx Hf].
  rewrite bool_decide_eq_false_2 by exact Hx. cbn. now apply IH.
Qed.

Lemma index_from_char_skip (c : ascii) (f rest : jsstring) (k : nat) :
  c ∉ f -> index_from [c] (f ++ c :: rest) k = Some (k + length f)%nat.
Proof.
  revert k. induction f as [| x f IH]; intros k H.
  - cbn. rewrite bool_decide_eq_true_2 by reflexivity. cbn. f_equal. lia.
  - cbn. apply not_elem_of_cons in H as [Hx Hf].
    rewrite bool_decide_eq_false_2 by exact Hx. cbn.
    rewrite IH by exact Hf. f_equal. lia.
Qed.

Lemma indexOf_char_none (c : ascii) (f : jsstring) :
  c ∉ f -> indexOf [c] f 0 = None.
Proof. intros H. unfold indexOf. rewrite drop_0. now apply index_from_char_none. Qed.

Lemma indexOf_char_skip (c : ascii) (f rest : jsstring) :
  c ∉ f -> indexOf [c] (f ++ c :: rest) 0 = Some (length f).
Proof.
  intros H. unfold indexOf. rewrite drop_0, index_from_char_skip by exact H.
  reflexivity.
Qed.

Lemma join_cons (sep f : jsstring) (g : jsstring) (fs : list jsstring) :
  join sep (f :: g :: fs) = f ++ sep ++ join sep (g :: fs).
Proof. reflexivity. Qed.

Lemma join_length_ge (c : ascii) (f : jsstring) (fs : list jsstring) :
  (length fs <= length (join [c] (f :: fs)))%nat.
Proof.
  revert f. induction fs as [| g fs IH]; intros f; [cbn; lia |].
  rewrite join_cons, !length_app. specialize (IH g). cbn [length] in *. lia.
Qed.

Lemma split_fuel_join_char (c : ascii) (fs : list jsstring) (f : jsstring) (n : nat) :
  Forall (fun x => c ∉ x) (f :: fs) -> (length fs <= n)%nat ->
  split_fuel n [c] (join [c] (f :: fs)) = f :: fs.
Proof.
  revert f n. induction fs as [| g fs IH]; intros f n HF Hn.
  - apply Forall_cons in HF as [Hf _]. cbn [join].
    destruct n; cbn [split_fuel]; [reflexivity |].
    now rewrite indexOf_char_none.
  - apply Forall_cons in HF as [Hf HF].
    destruct n as [| n]; [cbn in Hn; lia |].
    rewrite join_cons. cbn [split_fuel app].
    rewrite indexOf_char_skip by exact Hf.
    rewrite take_app_length.
    replace (length f + length [c])%nat with (length (f ++ [c])) by now rewrite length_app.
    change (f ++ c :: join [c] (g :: fs)) with (f ++ [c] ++ join [c] (g :: fs)).
    rewrite app_assoc, drop_app_length.
    f_equal. apply IH; [exact HF | cbn in Hn; lia].
Qed.

(** Splitting at a character undoes joining with it, when no piece holds
    the character. *)
Lemma split_join_char (c : ascii) (f : jsstring) (fs : list jsstring) :
  Forall (fun x => c ∉ x) (f :: fs) ->
  split [c] (join [c] (f :: fs)) = f :: fs.
Proof.
  intros H. unfold split. apply split_fuel_join_char; [exact H |].
  apply join_length_ge.
Qed.

(** *** Trimming *)

Lemma trimStart_not_ws (c : ascii) (s : jsstring) :
  is_ws c = false -> trimStart (c :: s) = c :: s.
Proof. intros H. cbn. now rewrite H. Qed.

Lemma trimStart_length (s : jsstring) : (length (trimStart s) <= length s)%nat.
Proof.
  destruct (trimStart_suffix s) as (pre & H).
  rewrite H at 2. rewrite length_app. lia.
Qed.

Lemma trimEnd_length (s : jsstring) : (length (trimEnd s) <= length s)%nat.
Proof.
  unfold trimEnd. rewrite length_rev.
  etransitivity; [apply trimStart_length |]. now rewrite length_rev.
Qed.

Lemma trimStart_head (s : jsstring) :
  match trimStart s with
  | c :: _ => is_ws c = false
  | [] => True
  end.
Proof.
  induction s as [| c s IH]; [exact I |]. cbn.
  destruct (is_ws c) eqn:E; [exact IH | exact E].
Qed.

Lemma trimEnd_fix_last (s : jsstring) :
  trimEnd s = s ->
  match rev s with
  | c :: _ => is_ws c = false
  | [] => True
  end.
Proof.
  intros H. unfold trimEnd in H.
  apply (f_equal (@rev ascii)) in H. rewrite rev_involutive in H.
  rewrite <- H. apply trimStart_head.
Qed.

Lemma trimEnd_cons_not_ws (c : ascii) (s : jsstring) :
  is_ws c = false -> trimEnd (c :: s) = c :: trimEnd s.
Proof.
  intros Hc. unfold trimEnd. cbn [rev].
  destruct (trimStart_suffix (rev s)) as (pre & Hpre).
  destruct (trimStart (rev s)) as [| x r] eqn:E.
  - (* everything behind [c] is white space *)
    assert (Hws : forall t, trimStart t = [] -> trimStart (t ++ [c]) = [c]).
    { induction t as [| y t IHt]; intros Ht; cbn in *.
      - now rewrite Hc.
      - destruct (is_ws y); [now apply IHt | discriminate]. }
    rewrite (Hws _ E). reflexivity.
  - assert (Hnw : forall t y r', trimStart t = y :: r' ->
                                 trimStart (t ++ [c]) = y :: r' ++ [c]).
    { induction t as [| z t IHt]; intros y r' Ht; cbn in *; [discriminate |].
      destruct (is_ws z); [now apply IHt |].
      injection Ht as <- <-. reflexivity. }
    rewrite (Hnw _ _ _ E).
    change (x :: r ++ [c]) with ((x :: r) ++ [c]).
    rewrite rev_app_distr. reflexivity.
Qed.

(** [trim] leaves nothing more to trim. *)
Lemma trim_idem (s : jsstring) : trim (trim s) = trim s.
Proof.
  unfold trim. pose proof (trimStart_head s) as Hh.
  destruct (trimStart s) as [| c r] eqn:E; [reflexivity |].
  rewrite (trimEnd_cons_not_ws c r Hh).
  rewrite (trimStart_not_ws c _ Hh).
  rewrite <- (trimEnd_cons_not_ws c r Hh).
  apply trimEnd_idem.
Qed.

Lemma trim_nil_or_not_ws (s : jsstring) :
  match trim s with
  | c :: _ => is_ws c = false
  | [] => True
  end.
Proof.
  unfold trim. pose proof (trimStart_head s) as Hh.
  destruct (trimStart s) as [| c r]; [exact I |].
  now rewrite (trimEnd_cons_not_ws c r Hh).
Qed.

(** A string that already starts and ends with something else than
    white space is left alone. *)
Lemma trim_fix (c d : ascii) (s : jsstring) :
  is_ws c = false -> is_ws d = false -> trim (c :: s ++ [d]) = c :: s ++ [d].
Proof.
  intros Hc Hd. unfold trim. rewrite (trimStart_not_ws c _ Hc).
  change (c :: s ++ [d]) with ((c :: s) ++ [d]).
  now apply trimEnd_last_not_ws.
Qed.

(** *** Lower case *)

Lemma to_lower_char_idem (c : ascii) :
  DriverParse.to_lower_char (DriverParse.to_lower_char c)
  = DriverParse.to_lower_char c.
Proof.
  destruct c as [[] [] [] [] [] [] [] []]; vm_compute; reflexivity.
Qed.

Lemma toLowerCase_idem (s : jsstring) :
  DriverParse.toLowerCase (DriverParse.toLowerCase s) = DriverParse.toLowerCase s.
Proof.
  unfold DriverParse.toLowerCase. rewrite map_map.
  apply map_ext. intros c. apply to_lower_char_idem.
Qed.

Lemma trimEnd_snoc_ws (s : jsstring) (c : ascii) :
  is_ws c = true -> trimEnd (s ++ [c]) = trimEnd s.
Proof.
  intros Hc. unfold trimEnd. rewrite rev_app_distr. cbn [rev app trimStart].
  now rewrite Hc.
Qed.

End SplitFacts.


(** * Driver scan: the payload and its sections *)

Module DriverFacts.
Import Js Framing DriverInfo DriverParse SessionFacts SplitFacts.

Lemma classify_tagged (m : mode) (s : sections) (raw_ : jsstring) :
  tagged (strip_cr raw_) = true ->
  exists m', classify (m, s) raw_ = (m', s).
Proof.
  unfold tagged, tags, classify. cbn [existsb]. intros H.
  destruct (includes (js "---SYSFS---") (strip_cr raw_)); [now eexists |].
  destruct (includes (js "---LSPCI---") (strip_cr raw_)); [now eexists |].
  destruct (includes (js "---LSUSB---") (strip_cr raw_)); [now eexists |].
  destruct (includes (js "---FW---") (strip_cr raw_)); [now eexists |].
  destruct (includes (js "---TAINT---") (strip_cr raw_)); [now eexists |].
  discriminate.
Qed.

Lemma classify_plain (m : mode) (s : sections) (raw_ : jsstring) :
  tagged (strip_cr raw_) = false ->
  classify (m, s) raw_ =
  let line := strip_cr raw_ in
  match m with
  | MSysfs => (m, mkSections (sysfs s ++ [line]) (lspci s) (lsusb s) (fw s) (taint s))
  | MPci => (m, mkSections (sysfs s) (lspci s ++ [line]) (lsusb s) (fw s) (taint s))
  | MUsb => (m, mkSections (sysfs s) (lspci s) (lsusb s ++ [line]) (fw s) (taint s))
  | MFw => (m, mkSections (sysfs s) (lspci s) (lsusb s) (fw s ++ [line]) (taint s))
  | MTaint =>
      (m, mkSections (sysfs s) (lspci s) (lsusb s) (fw s)
            (trim (match line with [] => js "0" | _ => line end)))
  | MNone => (m, s)
  end.
Proof.
  unfold tagged, tags, classify. cbn [existsb]. intros H.
  destruct (includes (js "---SYSFS---") (strip_cr raw_)); [discriminate |].
  destruct (includes (js "---LSPCI---") (strip_cr raw_)); [discriminate |].
  destruct (includes (js "---LSUSB---") (strip_cr raw_)); [discriminate |].
  destruct (includes (js "---FW---") (strip_cr raw_)); [discriminate |].
  destruct (includes (js "---TAINT---") (strip_cr raw_)); [discriminate |].
  reflexivity.
Qed.

Lemma stored_step (m : mode) (s : sections) (raw_ : jsstring) :
  let s' := snd (classify (m, s) raw_) in
  stored s' = stored s \/
  (tagged (strip_cr raw_) = false /\
   (forall P : jsstring -> Prop,
      Forall P (stored s') <-> P (strip_cr raw_) /\ Forall P (stored s)) /\
   length (stored s') = S (length (stored s))).
Proof.
  cbv zeta. destruct (tagged (strip_cr raw_)) eqn:Ht.
  - left. destruct (classify_tagged m s raw_ Ht) as (m' & ->). reflexivity.
  - rewrite (classify_plain m s raw_ Ht). cbv zeta.
    destruct m; cbn [snd]; unfold stored; cbn [sysfs lspci lsusb fw];
      try (left; reflexivity); right; (split; [reflexivity |]);
      (split; [intros P; rewrite !Forall_app, Forall_singleton; tauto |]);
      rewrite !length_app; cbn [length]; lia.
Qed.

Lemma parse_payload_snoc (payload : list jsstring) (raw_ : jsstring) :
  parse_payload (payload ++ [raw_])
  = snd (classify (foldl classify (MNone, empty_sections) payload) raw_).
Proof. unfold parse_payload. now rewrite foldl_app. Qed.

(** X8. The sections of a driver scan never hold a tag line: every stored
    line is a payload line, without its final carriage return, that
    includes none of the five tags, and each such payload line is stored at
    most once. Lines in front of the first tag are dropped. *)
Theorem driver_sections_hold_no_tag_line (payload : list jsstring) :
  let s := parse_payload payload in
  Forall (fun l => tagged l = false /\
                   exists raw_, raw_ ∈ payload /\ l = strip_cr raw_) (stored s) /\
  (length (stored s)
   <= length (filter (fun raw_ => tagged (strip_cr raw_) = false) payload))%nat /\
  (forall pre rest, payload = pre ++ rest ->
     Forall (fun raw_ => tagged (strip_cr raw_) = false) pre ->
     parse_payload payload = parse_payload rest).
Proof.
  cbv zeta. split; [| split].
  - induction payload as [| raw_ payload IH] using rev_ind; [constructor |].
    rewrite parse_payload_snoc.
    destruct (foldl classify (MNone, empty_sections) payload) as [m s] eqn:E.
    assert (IH' : Forall (fun l => tagged l = false /\
                   exists r, r ∈ payload ++ [raw_] /\ l = strip_cr r) (stored s)).
    { unfold parse_payload in IH. rewrite E in IH. cbn [snd] in IH.
      eapply Forall_impl; [exact IH |]. cbn. intros l (Hl & r & Hr & ->).
      split; [exact Hl |]. exists r. split; [| reflexivity].
      apply elem_of_app. now left. }
    destruct (stored_step m s raw_) as [Hp | (Ht & Hp & _)]; cbv zeta in Hp.
    + now rewrite Hp.
    + apply Hp. split; [| exact IH'].
      split; [exact Ht |]. exists raw_. split; [| reflexivity].
      apply elem_of_app. right. now apply list_elem_of_singleton.
  - induction payload as [| raw_ payload IH] using rev_ind; [cbn; lia |].
    rewrite parse_payload_snoc, filter_app, length_app.
    destruct (foldl classify (MNone, empty_sections) payload) as [m s] eqn:E.
    unfold parse_payload in IH. rewrite E in IH. cbn [snd] in IH.
    destruct (stored_step m s raw_) as [Hp | (Ht & _ & Hp)]; cbv zeta in Hp.
    + rewrite Hp. lia.
    + rewrite Hp.
      rewrite filter_cons_True by exact Ht. cbn [filter list_filter length]. lia.
  - intros pre rest -> Hpre. unfold parse_payload. rewrite foldl_app.
    f_equal. f_equal.
    induction pre as [| raw_ pre IH] using rev_ind; [reflexivity |].
    apply Forall_app in Hpre as [Hpre Hraw]. apply Forall_inv in Hraw.
    rewrite foldl_app. cbn [foldl]. rewrite (IH Hpre).
    now rewrite (classify_plain MNone empty_sections raw_ Hraw).
Qed.

(** *** Round trip *)

Lemma trimEnd_fix_strip_cr (l : jsstring) : trimEnd l = l -> strip_cr l = l.
Proof.
  intros H. unfold strip_cr. pose proof (trimEnd_fix_last l H) as Hl.
  destruct (rev l) as [| c r]; [reflexivity |].
  destruct (bool_decide (c = CR)) eqn:E; [| reflexivity].
  apply bool_decide_eq_true in E. subst c. vm_compute in Hl. discriminate.
Qed.

Lemma plain_classify (m : mode) (s : sections) (l : jsstring) :
  plain l ->
  classify (m, s) l =
  match m with
  | MSysfs => (m, mkSections (sysfs s ++ [l]) (lspci s) (lsusb s) (fw s) (taint s))
  | MPci => (m, mkSections (sysfs s) (lspci s ++ [l]) (lsusb s) (fw s) (taint s))
  | MUsb => (m, mkSections (sysfs s) (lspci s) (lsusb s ++ [l]) (fw s) (taint s))
  | MFw => (m, mkSections (sysfs s) (lspci s) (lsusb s) (fw s ++ [l]) (taint s))
  | MTaint => (m, mkSections (sysfs s) (lspci s) (lsusb s) (fw s) (trim l))
  | MNone => (m, s)
  end.
Proof.
  intros (Hne & Ht & Htrim).
  pose proof (trimEnd_fix_strip_cr l Htrim) as Hs.
  rewrite classify_plain by now rewrite Hs.
  cbv zeta. rewrite Hs. destruct l; [contradiction | reflexivity].
Qed.

Lemma fold_plain_none (s : sections) (ls : list jsstring) :
  Forall plain ls -> foldl classify (MNone, s) ls = (MNone, s).
Proof.
  induction 1 as [| l ls Hl _ IH]; [reflexivity |].
  cbn [foldl]. now rewrite (plain_classify MNone s l Hl).
Qed.

Lemma fold_plain_sysfs (a b c d : list jsstring) (t : jsstring) (ls : list jsstring) :
  Forall plain ls ->
  foldl classify (MSysfs, mkSections a b c d t) ls
  = (MSysfs, mkSections (a ++ ls) b c d t).
Proof.
  intros H. revert a. induction H as [| l ls Hl _ IH]; intros a.
  - now rewrite app_nil_r.
  - cbn [foldl]. rewrite (plain_classify MSysfs _ l Hl). cbn [sysfs lspci lsusb fw taint].
    rewrite IH, <- app_assoc. reflexivity.
Qed.

Lemma fold_plain_pci (a b c d : list jsstring) (t : jsstring) (ls : list jsstring) :
  Forall plain ls ->
  foldl classify (MPci, mkSections a b c d t) ls
  = (MPci, mkSections a (b ++ ls) c d t).
Proof.
  intros H. revert b. induction H as [| l ls Hl _ IH]; intros b.
  - now rewrite app_nil_r.
  - cbn [foldl]. rewrite (plain_classify MPci _ l Hl). cbn [sysfs lspci lsusb fw taint].
    rewrite IH, <- app_assoc. reflexivity.
Qed.

Lemma fold_plain_usb (a b c d : list jsstring) (t : jsstring) (ls : list jsstring) :
  Forall plain ls ->
  foldl classify (MUsb, mkSections a b c d t) ls
  = (MUsb, mkSections a b (c ++ ls) d t).
Proof.
  intros H. revert c. induction H as [| l ls Hl _ IH]; intros c.
  - now rewrite app_nil_r.
  - cbn [foldl]. rewrite (plain_classify MUsb _ l Hl). cbn [sysfs lspci lsusb fw taint].
    rewrite IH, <- app_assoc. reflexivity.
Qed.

Lemma fold_plain_fw (a b c d : list jsstring) (t : jsstring) (ls : list jsstring) :
  Forall plain ls ->
  foldl classify (MFw, mkSections a b c d t) ls
  = (MFw, mkSections a b c (d ++ ls) t).
Proof.
  intros H. revert d. induction H as [| l ls Hl _ IH]; intros d.
  - now rewrite app_nil_r.
  - cbn [foldl]. rewrite (plain_classify MFw _ l Hl). cbn [sysfs lspci lsusb fw taint].
    rewrite IH, <- app_assoc. reflexivity.
Qed.

Lemma classify_tag (m : mode) (s : sections) (i : nat) (t : jsstring) :
  tags !! i = Some t ->
  classify (m, s) t
  = (match i with
     | 0 => MSysfs | 1 => MPci | 2 => MUsb | 3 => MFw | _ => MTaint
     end%nat, s).
Proof.
  intros H.
  do 5 (destruct i as [| i]; [injection H as <-; vm_compute; reflexivity |]).
  discriminate.
Qed.

(** X9. When the device prints the scan as the script lays it out, with
    section lines as the log buffer holds them and free of the tags, the
    parse gives back the four sections line for line and the trimmed taint
    line; what precedes the first tag is ignored. *)
Theorem driver_sections_round_trip
    (pre s p u f : list jsstring) (t : jsstring) :
  Forall plain (pre ++ s ++ p ++ u ++ f ++ [t]) ->
  parse_payload (scan_output pre s p u f t) = mkSections s p u f (trim t).
Proof.
  intros H.
  apply Forall_app in H as [Hpre H]. apply Forall_app in H as [Hs H].
  apply Forall_app in H as [Hp H]. apply Forall_app in H as [Hu H].
  apply Forall_app in H as [Hf Ht]. apply Forall_inv in Ht.
  unfold parse_payload, scan_output.
  rewrite foldl_app, (fold_plain_none _ _ Hpre).
  rewrite foldl_app. cbn [foldl].
  rewrite (classify_tag _ _ 0 _ eq_refl).
  rewrite foldl_app. unfold empty_sections. rewrite (fold_plain_sysfs _ _ _ _ _ _ Hs).
  rewrite foldl_app. cbn [foldl]. rewrite (classify_tag _ _ 1 _ eq_refl).
  rewrite foldl_app, (fold_plain_pci _ _ _ _ _ _ Hp).
  rewrite foldl_app. cbn [foldl]. rewrite (classify_tag _ _ 2 _ eq_refl).
  rewrite foldl_app, (fold_plain_usb _ _ _ _ _ _ Hu).
  rewrite foldl_app. cbn [foldl]. rewrite (classify_tag _ _ 3 _ eq_refl).
  rewrite foldl_app, (fold_plain_fw _ _ _ _ _ _ Hf).
  cbn [foldl]. rewrite (classify_tag _ _ 4 _ eq_refl).
  rewrite (plain_classify MTaint _ t Ht). reflexivity.
Qed.

Lemma driver_sections_round_trip_witness :
  parse_payload
    (scan_output [js "sh /tmp/drvscan.sh 2>/dev/null"]
       [js "D|/sys/bus/usb/devices/1-1|usb|hub||yes|usb:v1D6B|||| 1d6b|0002"]
       [js "00:1f.2 SATA controller: Intel [8086:2829]"]
       [js "Bus 001 Device 001: ID 1d6b:0002 Linux Foundation 2.0 root hub"]
       [] (js "4097"))
  = mkSections
      [js "D|/sys/bus/usb/devices/1-1|usb|hub||yes|usb:v1D6B|||| 1d6b|0002"]
      [js "00:1f.2 SATA controller: Intel [8086:2829]"]
      [js "Bus 001 Device 001: ID 1d6b:0002 Linux Foundation 2.0 root hub"]
      [] (js "4097").
Proof.
  apply (driver_sections_round_trip
           [js "sh /tmp/drvscan.sh 2>/dev/null"]
           [js "D|/sys/bus/usb/devices/1-1|usb|hub||yes|usb:v1D6B|||| 1d6b|0002"]
           [js "00:1f.2 SATA controller: Intel [8086:2829]"]
           [js "Bus 001 Device 001: ID 1d6b:0002 Linux Foundation 2.0 root hub"]
           [] (js "4097")).
  repeat constructor; vm_compute; try reflexivity; discriminate.
Defined.

(** *** Taint flags *)

Lemma to_int32_bits (x : Z) (i : Z) :
  0 <= i < 32 -> Z.testbit (to_int32 x) i = Z.testbit x i.
Proof.
  intros Hi. unfold to_int32.
  rewrite <- (Z.mod_pow2_bits_low (_ - _) 32 i) by lia.
  rewrite <- (Z.mod_pow2_bits_low x 32 i) by lia.
  f_equal.
  rewrite Zminus_mod_idemp_l.
  replace (x + 2 ^ 31 - 2 ^ 31) with x by lia. reflexivity.
Qed.

Lemma land_pow2_zero (a : Z) (i : Z) :
  0 <= i -> (Z.land a (2 ^ i) =? 0) = negb (Z.testbit a i).
Proof.
  intros Hi. destruct (Z.testbit a i) eqn:E; cbn [negb].
  - apply Z.eqb_neq. intros H.
    apply (f_equal (fun z => Z.testbit z i)) in H.
    rewrite Z.land_spec, E, Z.pow2_bits_true, Z.bits_0 in H by lia. discriminate.
  - apply Z.eqb_eq. apply Z.bits_inj'. intros n Hn.
    rewrite Z.land_spec, Z.bits_0.
    destruct (Z.eq_dec i n) as [<- | Hne].
    + now rewrite E.
    + rewrite Z.pow2_bits_false by lia. apply andb_false_r.
Qed.

Lemma bit_and_pow2 (x : Z) (i : Z) :
  0 <= i < 31 -> (bit_and x (2 ^ i) =? 0) = negb (Z.testbit x i).
Proof.
  intros Hi. unfold bit_and.
  assert (H2 : to_int32 (2 ^ i) = 2 ^ i).
  { unfold to_int32.
    assert (0 < 2 ^ i < 2 ^ 31) by (split; [| apply Z.pow_lt_mono_r]; lia).
    rewrite Z.mod_small by lia. lia. }
  rewrite H2, land_pow2_zero by lia.
  now rewrite to_int32_bits by lia.
Qed.

Lemma flags_by_bits (x : Z) :
  flags (decodeTaint x)
  = (if Z.testbit x 0 then [js "PROPRIETARY"] else [])
    ++ (if Z.testbit x 1 then [js "FORCED"] else [])
    ++ (if Z.testbit x 2 then [js "UNSAFE"] else [])
    ++ (if Z.testbit x 3 then [js "ODD_BUG"] else [])
    ++ (if Z.testbit x 4 then [js "USER"] else [])
    ++ (if Z.testbit x 5 then [js "MODULE_UNSIGNED"] else []).
Proof.
  unfold decodeTaint, push_if. cbn [flags].
  rewrite (bit_and_pow2 x 0 ltac:(lia) : (bit_and x 1 =? 0) = _).
  rewrite (bit_and_pow2 x 1 ltac:(lia) : (bit_and x 2 =? 0) = _).
  rewrite (bit_and_pow2 x 2 ltac:(lia) : (bit_and x 4 =? 0) = _).
  rewrite (bit_and_pow2 x 3 ltac:(lia) : (bit_and x 8 =? 0) = _).
  rewrite (bit_and_pow2 x 4 ltac:(lia) : (bit_and x 16 =? 0) = _).
  rewrite (bit_and_pow2 x 5 ltac:(lia) : (bit_and x 32 =? 0) = _).
  destruct (Z.testbit x 0), (Z.testbit x 1), (Z.testbit x 2),
    (Z.testbit x 3), (Z.testbit x 4), (Z.testbit x 5); reflexivity.
Qed.

(** X10. The taint flags depend on the six lowest bits of the number only:
    numbers that agree modulo 64 decode to the same flags, whatever their
    sign or size, and the flag list is empty exactly when the number is a
    multiple of 64. *)
Theorem taint_flags_read_six_low_bits (x : Z) :
  flags (decodeTaint x) = flags (decodeTaint (x mod 64)) /\
  (flags (decodeTaint x) = [] <-> x mod 64 = 0).
Proof.
  assert (Hlow : forall i, 0 <= i < 6 -> Z.testbit (x mod 64) i = Z.testbit x i).
  { intros i Hi. change 64 with (2 ^ 6). apply Z.mod_pow2_bits_low. lia. }
  split.
  - rewrite !flags_by_bits, !Hlow by lia. reflexivity.
  - rewrite flags_by_bits. split.
    + intros H. apply Z.bits_inj'. intros n Hn. rewrite Z.bits_0.
      destruct (Z.lt_ge_cases n 6) as [Hlt | Hge].
      * rewrite Hlow by lia.
        assert (Hc : n = 0 \/ n = 1 \/ n = 2 \/ n = 3 \/ n = 4 \/ n = 5) by lia.
        destruct (Z.testbit x 0) eqn:E0; [discriminate |].
        destruct (Z.testbit x 1) eqn:E1; [discriminate |].
        destruct (Z.testbit x 2) eqn:E2; [discriminate |].
        destruct (Z.testbit x 3) eqn:E3; [discriminate |].
        destruct (Z.testbit x 4) eqn:E4; [discriminate |].
        destruct (Z.testbit x 5) eqn:E5; [discriminate |].
        destruct Hc as [-> | [-> | [-> | [-> | [-> | ->]]]]]; assumption.
      * change 64 with (2 ^ 6). apply Z.mod_pow2_bits_high. lia.
    + intros H. rewrite <- !Hlow by lia. rewrite H. reflexivity.
Qed.

(** *** Device lines *)

Lemma join_free (c : ascii) (sep : jsstring) (fs : list jsstring) :
  c ∉ sep -> Forall (free_of c) fs -> c ∉ join sep fs.
Proof.
  intros Hsep H. induction H as [| f fs Hf Hfs IH]; [apply not_elem_of_nil |].
  destruct fs as [| g fs]; [exact Hf |].
  rewrite join_cons. unfold free_of in *.
  rewrite !elem_of_app. tauto.
Qed.

Lemma nonempty_toLowerCase (s : jsstring) : nonempty (toLowerCase s) = nonempty s.
Proof. now destruct s. Qed.

Lemma candidates_round_trip (cands : list jsstring) :
  Forall (fun c => c <> [] /\ free_of ","%char c /\ trim c = c) cands ->
  filter (fun s => nonempty s = true) (map trim (split (js ",") (join (js ",") cands)))
  = cands.
Proof.
  intros H. destruct cands as [| c cs]; [reflexivity |].
  change (js ",") with [","%char].
  rewrite split_join_char
    by (eapply Forall_impl; [exact H |]; cbn; intros x Hx; apply Hx).
  induction H as [| x xs (Hne & _ & Htrim) _ IH]; [reflexivity |].
  cbn [map]. rewrite Htrim.
  rewrite filter_cons_True by (now destruct x).
  now rewrite IH.
Qed.

(** X11. A device line as the scan script prints it, eleven fields behind
    [D] separated by bars, none of them holding a bar, parses into exactly
    these fields: empty driver, module and modalias become undefined, the
    built-in mark is the field 'yes', the ids are put in lower case and
    kept only when one of the pair is non-empty, and the candidate field
    splits back into its comma-separated names. *)
Theorem sysfs_line_round_trip
    (path_ bus_ drv mod_ builtin alias pv pd uv up : jsstring)
    (cands : list jsstring) :
  Forall (free_of "|"%char) [path_; bus_; drv; mod_; builtin; alias; pv; pd; uv; up] ->
  Forall (fun c => c <> [] /\ free_of ","%char c /\ trim c = c) cands ->
  Forall (free_of "|"%char) cands ->
  parseSysfsLines
    [sysfs_line [path_; bus_; drv; mod_; builtin; alias; join (js ",") cands;
                 pv; pd; uv; up]]
  = [ {| path := path_; bus := bus_;
         driver := or_undefined drv; module_ := or_undefined mod_;
         builtIn := bool_decide (builtin = js "yes");
         modalias := or_undefined alias;
         ids_pci := if nonempty pv || nonempty pd
                    then Some (toLowerCase pv, toLowerCase pd) else None;
         ids_usb := if nonempty uv || nonempty up
                    then Some (toLowerCase uv, toLowerCase up) else None;
         candidates := cands |} ].
Proof.
  intros Hf Hc Hcb.
  assert (Hj : "|"%char ∉ join (js ",") cands).
  { apply join_free; [| exact Hcb]. vm_compute.
    intros H. apply list_elem_of_singleton in H. discriminate. }
  unfold parseSysfsLines. cbn [omap list_omap].
  unfold parse_sysfs_line.
  change (starts_with (js "D|") (sysfs_line ?x)) with true. cbn [negb].
  assert (Hsplit :
    split (js "|")
      (sysfs_line [path_; bus_; drv; mod_; builtin; alias; join (js ",") cands;
                   pv; pd; uv; up])
    = [js "D"; path_; bus_; drv; mod_; builtin; alias; join (js ",") cands;
       pv; pd; uv; up]).
  { change (js "|") with ["|"%char].
    change (sysfs_line ?x) with (join ["|"%char] (js "D" :: x)).
    apply split_join_char.
    repeat (apply Forall_cons in Hf as [? Hf]).
    repeat (apply Forall_cons; split); try assumption; try constructor.
    vm_compute. intros HD. apply list_elem_of_singleton in HD. discriminate. }
  rewrite Hsplit. cbv zeta. unfold part. cbn [lookup list_lookup default]. unfold id.
  rewrite (candidates_round_trip cands Hc).
  rewrite !nonempty_toLowerCase. reflexivity.
Qed.

Lemma sysfs_line_round_trip_witness :
  parseSysfsLines
    [js "D|/sys/bus/usb/devices/1-1|usb|||no|usb:v0BDAp8153|r8152,cdc_ether|||0BDA|8153"]
  = [ {| path := js "/sys/bus/usb/devices/1-1"; bus := js "usb";
         driver := None; module_ := None; builtIn := false;
         modalias := Some (js "usb:v0BDAp8153");
         ids_pci := None; ids_usb := Some (js "0bda", js "8153");
         candidates := [js "r8152"; js "cdc_ether"] |} ].
Proof.
  apply (sysfs_line_round_trip (js "/sys/bus/usb/devices/1-1") (js "usb") [] []
           (js "no") (js "usb:v0BDAp8153") [] [] (js "0BDA") (js "8153")
           [js "r8152"; js "cdc_ether"]).
  - repeat constructor; unfold free_of; vm_compute; intros H;
      repeat (apply elem_of_cons in H as [H | H]; [discriminate H |]);
      now apply elem_of_nil in H.
  - repeat constructor; unfold free_of; try (vm_compute; reflexivity);
      try discriminate; vm_compute; intros H;
      repeat (apply elem_of_cons in H as [H | H]; [discriminate H |]);
      now apply elem_of_nil in H.
  - repeat constructor; unfold free_of; vm_compute; intros H;
      repeat (apply elem_of_cons in H as [H | H]; [discriminate H |]);
      now apply elem_of_nil in H.
Defined.

Lemma or_undefined_not_empty (s : jsstring) : or_undefined s <> Some [].
Proof. destruct s; discriminate. Qed.

Lemma parse_sysfs_line_ok (line : jsstring) (d : SysfsDevice) :
  parse_sysfs_line line = Some d ->
  driver d <> Some [] /\ module_ d <> Some [] /\ modalias d <> Some [] /\
  Forall (fun c => c <> [] /\ trim c = c) (candidates d) /\
  (forall v w, ids_pci d = Some (v, w) ->
     toLowerCase v = v /\ toLowerCase w = w /\ (v <> [] \/ w <> [])) /\
  (forall v w, ids_usb d = Some (v, w) ->
     toLowerCase v = v /\ toLowerCase w = w /\ (v <> [] \/ w <> [])).
Proof.
  unfold parse_sysfs_line.
  destruct (starts_with (js "D|") line); [| discriminate]. cbn [negb]. cbv zeta.
  intros H. injection H as <-. cbn [driver module_ modalias candidates ids_pci ids_usb].
  repeat split; try apply or_undefined_not_empty.
  - apply Forall_forall. intros c Hc.
    apply list_elem_of_filter in Hc as [Hne Hc].
    apply list_elem_of_In, in_map_iff in Hc as (x & <- & _).
    split; [intros E; rewrite E in Hne; discriminate | apply trim_idem].
  - destruct (nonempty _ || nonempty _); [| discriminate].
    injection H as <- <-. apply toLowerCase_idem.
  - destruct (nonempty _ || nonempty _); [| discriminate].
    injection H as <- <-. apply toLowerCase_idem.
  - destruct (nonempty (toLowerCase (part _ 8))) eqn:E1;
      destruct (nonempty (toLowerCase (part _ 9))) eqn:E2; cbn [orb] in H;
      try discriminate; injection H as <- <-;
      [left | left | right]; intros E; rewrite E in *; discriminate.
  - destruct (nonempty _ || nonempty _); [| discriminate].
    injection H as <- <-. apply toLowerCase_idem.
  - destruct (nonempty _ || nonempty _); [| discriminate].
    injection H as <- <-. apply toLowerCase_idem.
  - destruct (nonempty (toLowerCase (part _ 10))) eqn:E1;
      destruct (nonempty (toLowerCase (part _ 11))) eqn:E2; cbn [orb] in H;
      try discriminate; injection H as <- <-;
      [left | left | right]; intros E; rewrite E in *; discriminate.
Qed.

(** X12. Whatever lines the sysfs section holds, the parse yields one
    device per line that begins with [D|] and skips the others; a driver,
    module or modalias is never the empty string; every candidate name is
    non-empty and trimmed; and an id pair is in lower case with at least
    one non-empty half. *)
Theorem sysfs_devices_well_formed (lines : list jsstring) :
  let ds := parseSysfsLines lines in
  length ds = length (filter (fun l => starts_with (js "D|") l = true) lines) /\
  Forall (fun d =>
    driver d <> Some [] /\ module_ d <> Some [] /\ modalias d <> Some [] /\
    Forall (fun c => c <> [] /\ trim c = c) (candidates d) /\
    (forall v w, ids_pci d = Some (v, w) ->
       toLowerCase v = v /\ toLowerCase w = w /\ (v <> [] \/ w <> [])) /\
    (forall v w, ids_usb d = Some (v, w) ->
       toLowerCase v = v /\ toLowerCase w = w /\ (v <> [] \/ w <> []))) ds.
Proof.
  cbv zeta. unfold parseSysfsLines. split.
  - induction lines as [| l lines IH]; [reflexivity |].
    cbn [omap list_omap]. unfold parse_sysfs_line at 1.
    destruct (starts_with (js "D|") l) eqn:E; cbn [negb].
    + rewrite filter_cons_True by exact E. cbn [length]. now rewrite IH.
    + rewrite filter_cons_False by (rewrite E; discriminate). exact IH.
  - induction lines as [| l lines IH]; [constructor |].
    cbn [omap list_omap].
    destruct (parse_sysfs_line l) as [d |] eqn:E; [| exact IH].
    constructor; [| exact IH]. now apply (parse_sysfs_line_ok l).
Qed.

End DriverFacts.


(** * Device tree: from the payload to the nodes *)

Module DeviceTreeFacts.
Import Js Cli Framing DriverParse DeviceTreeParse.
Import JsFacts TextFacts LineFacts SessionFacts SplitFacts.

(** *** Splitting at a class of separators *)




Lemma split_class_from_pieces (sep : ascii -> bool) (s cur : jsstring) (b : bool) :
  Forall (fun x => sep x = false) cur ->
  Forall (Forall (fun x => sep x = false)) (split_class_from sep cur b s).
Proof.
  revert cur b. induction s as [| c s IH]; intros cur b Hcur.
  - cbn. now constructor.
  - cbn [split_class_from]. destruct (sep c) eqn:E.
    + destruct b; [now apply IH |]. constructor; [exact Hcur | now apply IH].
    + apply IH. apply Forall_app. split; [exact Hcur | now constructor].
Qed.

Lemma filter_Boolean_tokens (sep : ascii -> bool) (s : jsstring) :
  Forall (token sep) (filter_Boolean (split_class sep s)).
Proof.
  apply Forall_forall. intros t Ht.
  apply list_elem_of_filter in Ht as [Hne Ht]. split.
  - intros E. rewrite E in Hne. discriminate.
  - pose proof (split_class_from_pieces sep s [] false (Forall_nil_2 _)) as H.
    rewrite Forall_forall in H. now apply H.
Qed.

(** *** Trimming joined tokens *)





(** *** Lines *)

Lemma search_newline_from_no_LF (s : jsstring) (i : nat) :
  LF ∉ s -> search_newline_from s i = None.
Proof.
  revert i. induction s as [| c s IH]; intros i H; [reflexivity |].
  apply not_elem_of_cons in H as [Hc Hs]. cbn.
  rewrite bool_decide_eq_false_2 by congruence.
  destruct s as [| d s]; cbn [head].
  - rewrite andb_false_r. reflexivity.
  - rewrite (bool_decide_eq_false_2 (Some d = Some LF)).
    + rewrite andb_false_r. now apply IH.
    + intros E. injection E as ->. apply Hs. now left.
Qed.

Lemma search_newline_from_line (l rest : jsstring) (i : nat) :
  LF ∉ l -> last l <> Some CR ->
  search_newline_from (l ++ LF :: rest) i = Some (i + length l)%nat.
Proof.
  revert i. induction l as [| c l IH]; intros i Hlf Hcr.
  - cbn. rewrite bool_decide_eq_true_2 by reflexivity. f_equal. lia.
  - apply not_elem_of_cons in Hlf as [Hc Hl]. cbn [app search_newline_from].
    rewrite bool_decide_eq_false_2 by congruence.
    assert (Hhead : bool_decide (c = CR)
                    && bool_decide (head (l ++ LF :: rest) = Some LF) = false).
    { destruct l as [| d l]; cbn [app head].
      - cbn in Hcr. rewrite bool_decide_eq_false_2; [reflexivity | congruence].
      - rewrite (bool_decide_eq_false_2 (Some d = Some LF)).
        + apply andb_false_r.
        + intros E. injection E as ->. apply Hl. now left. }
    rewrite Hhead. rewrite IH.
    + f_equal. cbn. lia.
    + exact Hl.
    + destruct l; [discriminate | exact Hcr].
Qed.

Lemma split_lines_fuel_join (ls : list jsstring) (l : jsstring) (n : nat) :
  Forall (fun x => (LF ∉ x) /\ last x <> Some CR) (l :: ls) ->
  (length ls <= n)%nat ->
  split_lines_fuel n (join [LF] (l :: ls)) = l :: ls.
Proof.
  revert l n. induction ls as [| m ls IH]; intros l n H Hn.
  - apply Forall_inv in H as [Hlf _]. cbn [join].
    destruct n; cbn [split_lines_fuel]; [reflexivity |].
    unfold search_newline. now rewrite search_newline_from_no_LF.
  - apply Forall_cons in H as [[Hlf Hcr] H].
    destruct n as [| n]; [cbn in Hn; lia |].
    rewrite join_cons. cbn [split_lines_fuel app]. unfold search_newline.
    rewrite search_newline_from_line by assumption. cbn [Nat.add].
    rewrite take_app_length. unfold break_length.
    rewrite list_lookup_middle by reflexivity.
    rewrite bool_decide_eq_false_2
      by (intros E; injection E as E; vm_compute in E; discriminate).
    change (l ++ LF :: join [LF] (m :: ls)) with (l ++ [LF] ++ join [LF] (m :: ls)).
    rewrite app_assoc.
    replace (length l + 1)%nat with (length (l ++ [LF]))
      by (rewrite length_app; reflexivity).
    rewrite drop_app_length. f_equal.
    apply IH; [exact H | cbn in Hn; lia].
Qed.

(** Splitting into lines undoes joining with line feeds, when no line
    holds a line feed or ends in a carriage return. *)
Lemma split_lines_join (l : jsstring) (ls : list jsstring) :
  Forall (fun x => (LF ∉ x) /\ last x <> Some CR) (l :: ls) ->
  split_lines (join [LF] (l :: ls)) = l :: ls.
Proof.
  intros H. unfold split_lines. apply split_lines_fuel_join; [exact H |].
  apply join_length_ge.
Qed.

(** *** Lower case and tokens *)

Lemma to_lower_char_ws (c : ascii) : is_ws (to_lower_char c) = is_ws c.
Proof. destruct c as [[] [] [] [] [] [] [] []]; vm_compute; reflexivity. Qed.

Lemma toLowerCase_token (t : jsstring) : token is_ws t -> token is_ws (toLowerCase t).
Proof.
  intros [Hne Ht]. split; [now destruct t |].
  unfold toLowerCase. apply Forall_forall. intros c Hc.
  apply list_elem_of_In, in_map_iff in Hc as (x & <- & Hx).
  rewrite to_lower_char_ws. rewrite Forall_forall in Ht.
  apply Ht. now apply list_elem_of_In.
Qed.

Lemma token_weaken (t : jsstring) : token is_ws_or_comma t -> token is_ws t.
Proof.
  intros [Hne Ht]. split; [exact Hne |].
  eapply Forall_impl; [exact Ht |]. cbn. unfold is_ws_or_comma.
  intros c Hc. now apply orb_false_iff in Hc as [Hc _].
Qed.








Lemma last_app_singleton (s : jsstring) (c : ascii) : last (s ++ [c]) = Some c.
Proof. apply last_snoc. Qed.


(** The names [brcm,bcm2835-pl011] and [arm,pl011] of one node, as printed
    and as parsed: three entries, none of them a name of the file. *)
Example names_run_together :
  let f := mkFiles (js "serial@7e201000")
             [js "brcm,bcm2835-pl011"; js "arm,pl011"]
             [js "7e201000"; js "00000200"] in
  printed f = js "N|serial@7e201000|brcm,bcm2835-pl011arm,pl011|7e201000 00000200 "
  /\ parsed f = mkNode (js "serial@7e201000")
                  [js "brcm"; js "bcm2835-pl011arm"; js "pl011"]
                  [js "0x7e201000"; js "0x00000200"].
Proof. split; vm_compute; reflexivity. Qed.



(** X14. Whatever the payload, every node the tool resolves with has
    well-formed lists: each compatible name is non-empty and holds neither
    white space nor a comma, and each register entry is [0x] followed by a
    non-empty word without white space that is in lower case. *)
Theorem device_tree_nodes_well_formed (payload : jsstring) :
  Forall (fun n =>
    Forall (token is_ws_or_comma) (compatible n) /\
    Forall (fun r => exists h, r = js "0x" ++ h /\ token is_ws h /\
                               toLowerCase h = h) (reg n))
    (nodes_of payload).
Proof.
  unfold nodes_of, parseLines. cbn [app].
  induction (split_lines payload) as [| l ls IH]; [constructor |].
  cbn [omap list_omap]. destruct (parse_line l) as [n |] eqn:E; [| exact IH].
  constructor; [| exact IH]. unfold parse_line in E. cbv zeta in E.
  destruct (indexOf (js "N|") (trim l) 0) as [idx |]; [| discriminate].
  injection E as <-. cbn [compatible reg]. split.
  - apply filter_Boolean_tokens.
  - apply Forall_forall. intros r Hr.
    apply list_elem_of_In, in_map_iff in Hr as (h & <- & Hh).
    exists (toLowerCase h). split; [reflexivity |]. split.
    + apply toLowerCase_token.
      pose proof (filter_Boolean_tokens is_ws
        (part (split (js "|") (slice_from (trim l) (Z.of_nat idx))) 3)) as Ht.
      rewrite Forall_forall in Ht. apply Ht. now apply list_elem_of_In.
    + apply toLowerCase_idem.
Qed.

(** *** Where [N|] occurs *)

Lemma occurs_at_pair (a b : ascii) (s : jsstring) (i : nat) :
  occurs_at [a; b] s i <-> s !! i = Some a /\ s !! S i = Some b.
Proof.
  unfold occurs_at. cbn [length].
  rewrite <- (Nat.add_0_r i) at 2. rewrite <- (Nat.add_1_r i).
  rewrite <- !lookup_drop.
  destruct (drop i s) as [| x [| y r]]; cbn; split;
    try (intros H; discriminate H); try (intros [H1 H2]; discriminate).
  - intros H. injection H as -> ->. now split.
  - intros [H1 H2]. injection H1 as ->. injection H2 as ->. reflexivity.
Qed.

Lemma occurs_at_app_r (pat a b : jsstring) (i : nat) :
  occurs_at pat b i -> occurs_at pat (a ++ b) (length a + i).
Proof.
  intros H. apply occurs_at_drop. now rewrite drop_app_length.
Qed.

Lemma occurs_at_app_l (pat a b : jsstring) (i : nat) :
  pat <> [] -> occurs_at pat a i -> occurs_at pat (a ++ b) i.
Proof.
  intros Hne H. pose proof (occurs_at_bound _ _ _ Hne H) as Hb.
  rewrite <- (take_app_length a b) in H.
  now apply occurs_at_take_inv in H.
Qed.

Lemma includes_occurs (pat s : jsstring) :
  pat <> [] -> includes pat s = true -> exists i, occurs_at pat s i.
Proof.
  intros Hne H. unfold includes in H. apply bool_decide_eq_true in H as [k Hk].
  exists k. now apply (indexOf_Some pat s 0 k Hne Hk).
Qed.

Lemma includes_false (pat s : jsstring) :
  includes pat s = false -> forall i, ~ occurs_at pat s i.
Proof.
  intros H i Hocc. rewrite (occurs_includes _ _ _ Hocc) in H. discriminate.
Qed.

Lemma trimStart_split (s : jsstring) :
  exists pre, s = pre ++ trimStart s /\ Forall (fun c => is_ws c = true) pre.
Proof.
  induction s as [| c s (pre & IH & Hpre)]; [now exists [] |]. cbn.
  destruct (is_ws c) eqn:E.
  - exists (c :: pre). split; [cbn; now f_equal | now constructor].
  - now exists [].
Qed.

Lemma trimEnd_split (s : jsstring) :
  exists post, s = trimEnd s ++ post /\ Forall (fun c => is_ws c = true) post.
Proof.
  unfold trimEnd. destruct (trimStart_split (rev s)) as (pre & H & Hpre).
  exists (rev pre). split.
  - apply (f_equal (@rev ascii)) in H.
    rewrite rev_involutive, rev_app_distr in H. exact H.
  - apply Forall_forall. intros c Hc. rewrite Forall_forall in Hpre.
    apply Hpre. apply list_elem_of_In. apply in_rev. now apply list_elem_of_In.
Qed.

Lemma trim_split (s : jsstring) :
  exists pre post, s = pre ++ trim s ++ post /\
    Forall (fun c => is_ws c = true) pre /\ Forall (fun c => is_ws c = true) post.
Proof.
  destruct (trimStart_split s) as (pre & H1 & Hpre).
  destruct (trimEnd_split (trimStart s)) as (post & H2 & Hpost).
  exists pre, post. unfold trim. rewrite <- H2. now repeat split.
Qed.

Lemma occurs_at_trim (a b : ascii) (s : jsstring) (i : nat) :
  is_ws a = false -> is_ws b = false ->
  occurs_at [a; b] s i -> exists j, occurs_at [a; b] (trim s) j.
Proof.
  intros Ha Hb H. apply occurs_at_pair in H as [H1 H2].
  destruct (trim_split s) as (pre & post & Hs & Hpre & Hpost).
  rewrite Hs in H1, H2.
  assert (Hi : (length pre <= i)%nat).
  { destruct (Nat.le_gt_cases (length pre) i) as [Hle | Hgt]; [exact Hle |].
    rewrite lookup_app_l in H1 by exact Hgt.
    rewrite Forall_forall in Hpre.
    apply list_elem_of_lookup_2, Hpre in H1. congruence. }
  rewrite lookup_app_r in H1, H2 by lia.
  assert (Hj : (S i - length pre < length (trim s))%nat).
  { destruct (Nat.le_gt_cases (length (trim s)) (S i - length pre)) as [Hle | Hgt];
      [| exact Hgt].
    rewrite lookup_app_r in H2 by exact Hle.
    rewrite Forall_forall in Hpost.
    apply list_elem_of_lookup_2, Hpost in H2. congruence. }
  rewrite lookup_app_l in H1, H2 by lia.
  exists (i - length pre)%nat. apply occurs_at_pair.
  split; [exact H1 |].
  now replace (S (i - length pre)) with (S i - length pre)%nat by lia.
Qed.

Lemma occurs_at_of_trim (pat s : jsstring) (j : nat) :
  pat <> [] -> occurs_at pat (trim s) j -> exists i, occurs_at pat s i.
Proof.
  intros Hne H. destruct (trim_split s) as (pre & post & Hs & _ & _).
  exists (length pre + j)%nat. rewrite Hs.
  apply occurs_at_app_r. now apply occurs_at_app_l.
Qed.

Lemma parse_line_Some (l : jsstring) :
  is_Some (parse_line l) <-> exists i, occurs_at (js "N|") l i.
Proof.
  unfold parse_line. cbv zeta. split.
  - intros H. destruct (indexOf (js "N|") (trim l) 0) as [k |] eqn:E.
    + apply indexOf_Some in E as (_ & Hocc & _); [| discriminate].
      now apply (occurs_at_of_trim _ _ k).
    + now destruct H.
  - intros (i & Hocc).
    destruct (occurs_at_trim "N"%char "|"%char l i eq_refl eq_refl Hocc) as (j & Hj).
    destruct (indexOf (js "N|") (trim l) 0) as [k |] eqn:E; [eauto |].
    exfalso. apply (indexOf_None _ _ _ E j); [lia | exact Hj].
Qed.

Lemma split_lines_fuel_pieces (n : nat) (s piece : jsstring) :
  piece ∈ split_lines_fuel n s -> exists a b, s = a ++ piece ++ b.
Proof.
  revert s. induction n as [| n IH]; intros s H; cbn [split_lines_fuel] in H.
  - apply list_elem_of_singleton in H as ->. exists [], []. now rewrite app_nil_r.
  - destruct (search_newline s) as [k |].
    + apply elem_of_cons in H as [-> | H].
      * exists [], (drop k s). cbn. now rewrite take_drop.
      * destruct (IH _ H) as (a & b & Hab).
        exists (take (k + break_length s k) s ++ a), b.
        rewrite <- app_assoc, <- Hab. now rewrite take_drop.
    + apply list_elem_of_singleton in H as ->. exists [], []. now rewrite app_nil_r.
Qed.

Ltac clash Ha Hb :=
  let X := fresh in
  rewrite Ha in Hb; injection Hb as X; vm_compute in X; discriminate X.

Lemma split_lines_fuel_keeps (n : nat) (s : jsstring) (i : nat) :
  occurs_at (js "N|") s i ->
  exists piece j, piece ∈ split_lines_fuel n s /\ occurs_at (js "N|") piece j.
Proof.
  revert s i. induction n as [| n IH]; intros s i H; cbn [split_lines_fuel].
  - exists s, i. split; [now apply list_elem_of_singleton | exact H].
  - destruct (search_newline s) as [k |] eqn:E.
    2: { exists s, i. split; [now apply list_elem_of_singleton | exact H]. }
    unfold search_newline in E.
    apply search_newline_from_Some in E as (k' & -> & Hk & _ & Hbreak).
    cbn [Nat.add]. pose proof H as Hocc.
    apply (occurs_at_pair "N"%char "|"%char) in H as [H1 H2].
    destruct (Nat.le_gt_cases k' (S i)) as [Hle | Hgt].
    + (* the occurrence lies behind the line break *)
      assert (Hge : (k' + break_length s k' <= i)%nat).
      { unfold break_length.
        destruct Hbreak as [Hlf | [Hcr Hlf]].
        - rewrite bool_decide_eq_false_2
            by (rewrite Hlf; intros X; injection X as X; vm_compute in X; discriminate).
          destruct (Nat.eq_dec (S i) k') as [<- | ?]; [clash Hlf H2 |].
          destruct (Nat.eq_dec i k') as [<- | ?]; [clash Hlf H1 | lia].
        - rewrite bool_decide_eq_true_2 by exact Hcr.
          destruct (Nat.eq_dec (S i) k') as [<- | ?]; [clash Hcr H2 |].
          destruct (Nat.eq_dec i k') as [<- | ?]; [clash Hcr H1 |].
          destruct (Nat.eq_dec i (S k')) as [-> | ?]; [clash Hlf H1 | lia]. }
      destruct (IH (drop (k' + break_length s k') s) (i - (k' + break_length s k'))%nat)
        as (piece & j & Hin & Hj).
      { apply occurs_at_drop.
        now replace (k' + break_length s k' + (i - (k' + break_length s k')))%nat
          with i by lia. }
      exists piece, j. split; [now right | exact Hj].
    + exists (take k' s), i. split; [now left |].
      apply occurs_at_take; [cbn; lia | exact Hocc].
Qed.

Lemma omap_nil_iff {A B} (f : A -> option B) (l : list A) :
  omap f l = [] <-> Forall (fun x => f x = None) l.
Proof.
  induction l as [| x l IH]; cbn.
  - split; [constructor | reflexivity].
  - destruct (f x) eqn:E; split.
    + discriminate.
    + intros H. apply Forall_inv in H. congruence.
    + intros H. constructor; [exact E | now apply IH].
    + intros H. apply Forall_inv_tail in H. now apply IH.
Qed.

Lemma has_N_line_from_occurs (b : bool) (s : jsstring) :
  DeviceTree.has_N_line_from b s = true -> exists i, occurs_at (js "N|") s i.
Proof.
  revert b. induction s as [| c s IH]; intros b H; cbn in H; [discriminate |].
  apply orb_true_iff in H as [H | H].
  - apply andb_true_iff in H as [_ H]. exists 0%nat.
    apply occurs_at_0. exact H.
  - destruct (IH _ H) as (i & Hi). exists (S i). now apply occurs_at_cons.
Qed.

(** X15. The tool resolves with no node exactly when the payload nowhere
    contains [N|]. So a slice the fallback scan keeps, which has a line that
    begins with [N|], always yields at least one node: the fallback gives
    either the empty payload or a payload with nodes. *)
Theorem device_tree_nodes_empty_iff (payload : jsstring) :
  (nodes_of payload = [] <-> includes (js "N|") payload = false) /\
  (DeviceTree.has_N_line payload = true -> nodes_of payload <> []) /\
  (forall fuel START END full scanPos,
     let p := DeviceTree.fallback fuel START END full scanPos [] in
     p = [] \/ nodes_of p <> []).
Proof.
  assert (Hiff : forall s, nodes_of s = [] <-> includes (js "N|") s = false).
  { intros s. unfold nodes_of, parseLines. cbn [app]. rewrite omap_nil_iff. split.
    - intros H. destruct (includes (js "N|") s) eqn:E; [| reflexivity].
      apply includes_occurs in E as (i & Hi); [| discriminate].
      destruct (split_lines_fuel_keeps (length s) s i Hi) as (piece & j & Hin & Hj).
      rewrite Forall_forall in H. specialize (H piece Hin).
      assert (Hs : is_Some (parse_line piece)) by (apply parse_line_Some; eauto).
      rewrite H in Hs. now destruct Hs.
    - intros H. apply Forall_forall. intros piece Hin.
      destruct (parse_line piece) eqn:E; [| reflexivity]. exfalso.
      assert (Hs : is_Some (parse_line piece)) by (rewrite E; eauto).
      apply parse_line_Some in Hs as (j & Hj).
      destruct (split_lines_fuel_pieces _ _ _ Hin) as (a & b & Hab).
      apply (includes_false _ _ H (length a + j)%nat).
      rewrite Hab. apply occurs_at_app_r. apply occurs_at_app_l; [discriminate | exact Hj]. }
  assert (Hline : forall s, DeviceTree.has_N_line s = true -> nodes_of s <> []).
  { intros s H Hnil. apply Hiff in Hnil.
    apply has_N_line_from_occurs in H as (i & Hi).
    now apply (includes_false _ _ Hnil i). }
  split; [apply Hiff | split; [apply Hline |]].
  intros fuel START END full scanPos. cbv zeta.
  assert (Hgen : forall p0, (p0 = [] \/ nodes_of p0 <> []) ->
            DeviceTree.fallback fuel START END full scanPos p0 = [] \/
            nodes_of (DeviceTree.fallback fuel START END full scanPos p0) <> []).
  { revert scanPos. induction fuel as [| fuel IH]; intros scanPos p0 Hp0;
      cbn [DeviceTree.fallback]; [exact Hp0 |].
    destruct (indexOf START full scanPos) as [s0 |]; [| exact Hp0].
    destruct (indexOf END full (s0 + length START)) as [e0 |]; [| exact Hp0].
    apply IH.
    destruct (DeviceTree.has_N_line _) eqn:E; [| exact Hp0].
    right. now apply Hline. }
  apply Hgen. now left.
Qed.

End DeviceTreeFacts.


(** * Waiting for the device tree and for the real-time analysis *)

Module WaitingFacts.
Import Js Framing JsFacts TextFacts PairFacts TimeoutFacts Waiting.

Lemma poll_skip {A} (cb : nat -> tick A) (t : tick A) (n a fuel : nat) :
  (forall j, (a <= j < a + n)%nat -> cb j = Pending) ->
  cb (a + n)%nat = t -> t <> Pending -> (n < fuel)%nat ->
  poll cb fuel a = Some ((a + n)%nat, t).
Proof.
  revert a fuel. induction n as [| n IH]; intros a fuel Hpend Hcb Ht Hfuel;
    (destruct fuel as [| fuel]; [lia |]).
  - rewrite Nat.add_0_r in *. now apply poll_settles.
  - rewrite poll_pending by (apply Hpend; lia).
    replace (a + S n)%nat with (S a + n)%nat in * by lia.
    apply IH; [| exact Hcb | exact Ht | lia].
    intros j Hj. apply Hpend. lia.
Qed.

Lemma dt_start_nonempty (id : jsstring) : DeviceTree.START id <> [].
Proof. discriminate. Qed.

Lemma dt_end_nonempty (id : jsstring) : DeviceTree.END id <> [].
Proof. discriminate. Qed.

Lemma rt_start_nonempty (id : jsstring) : RealTime.START id <> [].
Proof. discriminate. Qed.

Lemma dt_extract_no_end (START END s : jsstring) :
  includes END s = false -> DeviceTree.extract START END s = Pending.
Proof.
  intros H. unfold DeviceTree.extract. rewrite H. cbn [negb].
  now rewrite orb_true_r.
Qed.

Lemma dt_extract_end_first (START END s : jsstring) (s1 : nat) :
  START <> [] -> includes END s = true ->
  first_occ START s 0 s1 -> no_occ END s (s1 + length START) ->
  DeviceTree.extract START END s = Cancelled.
Proof.
  intros Hne Hend Hs1 Hno. unfold DeviceTree.extract.
  rewrite (occurs_includes START s s1) by apply Hs1.
  rewrite Hend. cbn [negb orb].
  rewrite (indexOf_first_occ _ _ _ _ Hne Hs1).
  now rewrite (indexOf_no_occ _ _ _ Hno).
Qed.

Lemma rt_extract_at_most_one (START END s : jsstring) :
  START <> [] -> at_most_one START s -> RealTime.extract START END s = None.
Proof.
  intros Hne [Hno | (s1 & Hs1 & Hno)].
  - unfold RealTime.extract, split.
    now rewrite (split_fuel_no_occ START _ _ (indexOf_no_occ _ _ _ Hno)).
  - now apply (rt_single_start START END Hne s s1).
Qed.

(** X16. The device-tree poll can stop without settling its promise.
    When, at the first firing that finds the end marker in the joined
    buffer, no end marker follows the first start marker, the callback
    clears its interval and returns: the promise is neither resolved nor
    rejected, and no later firing is left to apply the 30 s time limit. *)
Theorem device_tree_poll_can_stop_unsettled
    (w : World) (rendering : jsstring) (k s1 fuel : nat) :
  let START := DeviceTree.START (runId rendering) in
  let END := DeviceTree.END (runId rendering) in
  (1 <= k < fuel)%nat ->
  (forall j, (1 <= j <= k)%nat -> clock w j <= clock w 0 + DeviceTree.timeoutMs) ->
  (forall j, (1 <= j < k)%nat -> includes END (full w j) = false) ->
  includes END (full w k) = true ->
  first_occ START (full w k) 0 s1 ->
  no_occ END (full w k) (s1 + length START) ->
  DeviceTree.collect w rendering fuel = Some (k, Cancelled).
Proof.
  cbv zeta. intros Hk Hclock Hbefore Hend Hs1 Hno.
  unfold DeviceTree.collect. cbv zeta.
  replace k with (1 + (k - 1))%nat at 1 by lia.
  apply poll_skip; try discriminate; try lia.
  - intros j Hj. unfold DeviceTree.poll_cb.
    destruct (Z.ltb_spec (clock w 0 + DeviceTree.timeoutMs) (clock w j)) as [Hlt | _].
    + specialize (Hclock j ltac:(lia)). lia.
    + apply dt_extract_no_end. apply Hbefore. lia.
  - replace (1 + (k - 1))%nat with k by lia. unfold DeviceTree.poll_cb.
    destruct (Z.ltb_spec (clock w 0 + DeviceTree.timeoutMs) (clock w k)) as [Hlt | _].
    + specialize (Hclock k ltac:(lia)). lia.
    + now apply (dt_extract_end_first _ _ _ s1).
Qed.

Lemma device_tree_poll_can_stop_unsettled_witness :
  DeviceTree.collect dt_end_first (js "0.k3x9q1abc") 400 = Some (1%nat, Cancelled).
Proof.
  apply (device_tree_poll_can_stop_unsettled dt_end_first (js "0.k3x9q1abc")
           1 23 400).
  - lia.
  - intros j Hj. assert (j = 1%nat) as -> by lia. vm_compute. discriminate.
  - intros j Hj. lia.
  - vm_compute. reflexivity.
  - apply indexOf_Some; [discriminate | vm_compute; reflexivity].
  - apply indexOf_None. vm_compute. reflexivity.
Defined.

(** X17. With timer callbacks at most 150 ms apart, the device-tree
    request is rejected with its time-out error no later than 30.15 s after
    it was sent when the end marker never shows up in the buffer. The
    real-time request is rejected no later than 60.15 s after it was sent
    whenever the buffer never holds a second start marker, and so also when
    a device without echo has printed the complete output once. *)
Theorem marker_requests_time_out (w : World) (rendering : jsstring) :
  ticking w 150 ->
  ((forall k, includes (DeviceTree.END (runId rendering)) (full w k) = false) ->
   exists k,
     clock w k <= clock w 0 + DeviceTree.timeoutMs + DeviceTree.pollMs /\
     forall fuel, DeviceTree.timeoutMs + 2 <= Z.of_nat fuel ->
       DeviceTree.collect w rendering fuel
         = Some (k, Settled (Rejected (js "Timeout waiting for device tree")))) /\
  ((forall k, at_most_one (RealTime.START (runId rendering)) (full w k)) ->
   exists k,
     clock w k <= clock w 0 + RealTime.timeoutMs + RealTime.pollMs /\
     forall fuel, RealTime.timeoutMs + 2 <= Z.of_nat fuel ->
       RealTime.collect w rendering fuel
         = Some (k, Settled (Rejected (js "Timeout waiting for RT analysis output")))).
Proof.
  intros Htick. split; intros Hno.
  - destruct (poll_expires_from
                (fun k => DeviceTree.poll_cb (clock w k)
                            (clock w 0 + DeviceTree.timeoutMs) (buffer w k)
                            (DeviceTree.START (runId rendering))
                            (DeviceTree.END (runId rendering)))
                (clock w) (clock w 0 + DeviceTree.timeoutMs) 150
                (Settled (Rejected (js "Timeout waiting for device tree")))
                ltac:(discriminate) Htick)
      with (m := Z.to_nat DeviceTree.timeoutMs) (k := 0%nat)
      as (k & _ & Hwhen & Hpoll).
    + intros k. unfold DeviceTree.poll_cb.
      destruct (Z.ltb_spec (clock w 0 + DeviceTree.timeoutMs) (clock w k));
        [reflexivity |].
      apply dt_extract_no_end. apply (Hno k).
    + unfold DeviceTree.timeoutMs. lia.
    + unfold DeviceTree.timeoutMs. lia.
    + exists k. split; [unfold DeviceTree.pollMs; lia |].
      intros fuel Hfuel. unfold DeviceTree.collect. apply Hpoll.
      unfold DeviceTree.timeoutMs in *. lia.
  - destruct (poll_expires_from
                (fun k => RealTime.poll_cb (clock w k)
                            (clock w 0 + RealTime.timeoutMs) (buffer w k)
                            (RealTime.START (runId rendering))
                            (RealTime.END (runId rendering)))
                (clock w) (clock w 0 + RealTime.timeoutMs) 150
                (Settled (Rejected (js "Timeout waiting for RT analysis output")))
                ltac:(discriminate) Htick)
      with (m := Z.to_nat RealTime.timeoutMs) (k := 0%nat)
      as (k & _ & Hwhen & Hpoll).
    + intros k. unfold RealTime.poll_cb.
      destruct (Z.ltb_spec (clock w 0 + RealTime.timeoutMs) (clock w k));
        [reflexivity |].
      rewrite rt_extract_at_most_one; [reflexivity | apply rt_start_nonempty |].
      apply (Hno k).
    + unfold RealTime.timeoutMs. lia.
    + unfold RealTime.timeoutMs. lia.
    + exists k. split; [unfold RealTime.pollMs; lia |].
      intros fuel Hfuel. unfold RealTime.collect. apply Hpoll.
      unfold RealTime.timeoutMs in *. lia.
Qed.

Lemma rt_no_echo_ticking : ticking rt_no_echo 150.
Proof. intros k. cbn. lia. Qed.

Lemma marker_requests_time_out_witness :
  exists k,
    clock rt_no_echo k <= clock rt_no_echo 0 + 60000 + 150 /\
    forall fuel, 60002 <= Z.of_nat fuel ->
      RealTime.collect rt_no_echo (js "0.k3x9q1abc") fuel
        = Some (k, Settled (Rejected (js "Timeout waiting for RT analysis output"))).
Proof.
  destruct (marker_requests_time_out rt_no_echo (js "0.k3x9q1abc")
              rt_no_echo_ticking) as [_ Hrt].
  apply Hrt. intros [| k].
  - left. apply indexOf_None. vm_compute. reflexivity.
  - right. exists 0%nat. split.
    + apply indexOf_Some; [discriminate | vm_compute; reflexivity].
    + apply indexOf_None. vm_compute. reflexivity.
Defined.

End WaitingFacts.


(** * Real-time analysis: the slice that is reported *)

Module AnalysisFacts.
Import Js Framing JsFacts TextFacts LineFacts PairFacts SplitFacts Analysis.

Lemma substring_block (raw : jsstring) (b e : nat) :
  occurs_at beginTag raw b -> occurs_at endTag raw e ->
  (b + length beginTag <= e)%nat ->
  substring raw b (e + length endTag) = block raw b e.
Proof.
  intros Hb He Hle. unfold substring, block.
  rewrite Nat.max_r, Nat.min_l by lia.
  replace (e + length endTag - b)%nat
    with (length beginTag + ((e - (b + length beginTag)) + length endTag))%nat by lia.
  rewrite <- take_take_drop. unfold occurs_at in Hb. rewrite Hb. f_equal.
  rewrite drop_drop, <- take_take_drop, between_eq. f_equal.
  rewrite drop_drop.
  replace (b + length beginTag + (e - (b + length beginTag)))%nat with e by lia.
  exact He.
Qed.

Lemma trim_block (raw : jsstring) (b e : nat) : trim (block raw b e) = block raw b e.
Proof.
  unfold block.
  change beginTag with ("="%char :: js "==== RT_ANALYSIS_BEGIN").
  change endTag with (js "===== RT_ANALYSIS_EN" ++ ["D"%char]).
  cbn [app]. rewrite !app_assoc.
  apply trim_fix; reflexivity.
Qed.

Lemma beginTag_nonempty : beginTag <> [].
Proof. discriminate. Qed.

Lemma endTag_nonempty : endTag <> [].
Proof. discriminate. Qed.

(** X18. The slice of a real-time analysis that is reported is a whole
    block, from its begin tag to the end of its end tag, whenever the text
    has a begin tag with an end tag behind it: the second such block when
    the scan finds two, otherwise the first. What follows the end tag on
    its line is cut off, and nothing of the block is trimmed away. A text
    without a begin tag, or without an end tag behind the first one, is
    reported whole, trimmed. *)
Theorem analysis_slice_is_a_whole_block (raw : jsstring) :
  (forall s1 e1 s2 e2,
     two_pairs beginTag endTag raw s1 e1 s2 e2 ->
     pickAnalysisSlice raw = block raw s2 e2) /\
  (forall s1 e1,
     one_pair beginTag endTag raw s1 e1 ->
     pickAnalysisSlice raw = block raw s1 e1) /\
  (no_occ beginTag raw 0 \/
   (exists s1, first_occ beginTag raw 0 s1 /\
               no_occ endTag raw (s1 + length beginTag)) ->
   pickAnalysisSlice raw = trim raw).
Proof.
  split; [| split].
  - intros s1 e1 s2 e2 (Hs1 & He1 & Hs2 & He2). unfold pickAnalysisSlice.
    rewrite (indexOf_first_occ _ _ _ _ beginTag_nonempty Hs1).
    rewrite (indexOf_first_occ _ _ _ _ endTag_nonempty He1).
    cbv zeta.
    rewrite (indexOf_first_occ _ _ _ _ beginTag_nonempty Hs2).
    rewrite (indexOf_first_occ _ _ _ _ endTag_nonempty He2).
    rewrite substring_block; [apply trim_block | apply Hs2 | apply He2 | apply He2].
  - intros s1 e1 (Hs1 & He1 & Hrest). unfold pickAnalysisSlice.
    rewrite (indexOf_first_occ _ _ _ _ beginTag_nonempty Hs1).
    rewrite (indexOf_first_occ _ _ _ _ endTag_nonempty He1).
    cbv zeta.
    assert (Hfirst : trim (substring raw s1 (e1 + length endTag)) = block raw s1 e1).
    { rewrite substring_block; [apply trim_block | apply Hs1 | apply He1 | apply He1]. }
    destruct Hrest as [Hno | (s2 & Hs2 & Hno)].
    + now rewrite (indexOf_no_occ _ _ _ Hno).
    + rewrite (indexOf_first_occ _ _ _ _ beginTag_nonempty Hs2).
      now rewrite (indexOf_no_occ _ _ _ Hno).
  - intros [Hno | (s1 & Hs1 & Hno)]; unfold pickAnalysisSlice.
    + now rewrite (indexOf_no_occ _ _ _ Hno).
    + rewrite (indexOf_first_occ _ _ _ _ beginTag_nonempty Hs1).
      now rewrite (indexOf_no_occ _ _ _ Hno).
Qed.

Lemma analysis_slice_is_a_whole_block_witness :
  pickAnalysisSlice two_blocks
  = js "===== RT_ANALYSIS_BEGIN =====" ++ [LF] ++ js "PREEMPT_RT" ++ [LF]
    ++ js "===== RT_ANALYSIS_END".
Proof.
  destruct (analysis_slice_is_a_whole_block two_blocks) as (Htwo & _).
  rewrite (Htwo 2%nat 38%nat 66%nat 107%nat); [vm_compute; reflexivity |].
  unfold two_pairs. split; [| split; [| split]];
    (apply indexOf_Some; [discriminate | vm_compute; reflexivity]).
Defined.

End AnalysisFacts.

(** * Kernel hot spots: counter differences *)

Module HotspotFacts.
Import Js Hotspots.

Lemma map_get_set {V} (m : jsmap V) (k k' : jsstring) (v : V) :
  map_get (map_set m k v) k' = if bool_decide (k = k') then Some v else map_get m k'.
Proof.
  induction m as [| [k0 v0] m IH]; cbn.
  - reflexivity.
  - destruct (decide (k0 = k)) as [-> | Hne].
    + rewrite bool_decide_eq_true_2 by reflexivity. cbn.
      now destruct (bool_decide (k = k')).
    + rewrite bool_decide_eq_false_2 by exact Hne. cbn. rewrite IH.
      destruct (decide (k0 = k')) as [-> | Hne'].
      * rewrite bool_decide_eq_true_2 by reflexivity.
        now rewrite bool_decide_eq_false_2 by congruence.
      * now rewrite (bool_decide_eq_false_2 (k0 = k')) by exact Hne'.
Qed.

Lemma keys_map_set_new {V} (m : jsmap V) (k : jsstring) (v : V) :
  k ∉ keys m -> keys (map_set m k v) = keys m ++ [k].
Proof.
  induction m as [| [k0 v0] m IH]; cbn; intros H; [reflexivity |].
  apply not_elem_of_cons in H as [Hne Hm].
  rewrite bool_decide_eq_false_2 by congruence. cbn. f_equal. now apply IH.
Qed.

Lemma map_get_None {V} (m : jsmap V) (k : jsstring) :
  map_get m k = None <-> k ∉ keys m.
Proof.
  induction m as [| [k0 v0] m IH]; cbn.
  - split; [intros _; apply not_elem_of_nil | reflexivity].
  - destruct (bool_decide (k0 = k)) eqn:E.
    + apply bool_decide_eq_true in E. subst k0. split; [discriminate |].
      intros H. exfalso. apply H. now left.
    + apply bool_decide_eq_false in E. rewrite IH, not_elem_of_cons.
      split; [intros H; split; [congruence | exact H] | tauto].
Qed.

Lemma set_add_spec (s : list jsstring) (k : jsstring) :
  NoDup s -> NoDup (set_add s k) /\ forall x, x ∈ set_add s k <-> x ∈ s \/ x = k.
Proof.
  intros Hnd. unfold set_add. destruct (bool_decide (k ∈ s)) eqn:E.
  - apply bool_decide_eq_true in E. split; [exact Hnd |].
    intros x. split; [tauto | intros [H | ->]; assumption].
  - apply bool_decide_eq_false in E. split.
    + apply NoDup_app. repeat split; [exact Hnd | | apply NoDup_singleton].
      intros x Hx Hk. apply list_elem_of_singleton in Hk. now subst.
    + intros x. rewrite elem_of_app, list_elem_of_singleton. tauto.
Qed.

Lemma foldl_set_add_spec (ks s : list jsstring) :
  NoDup s ->
  NoDup (foldl set_add s ks) /\
  forall x, x ∈ foldl set_add s ks <-> x ∈ s \/ x ∈ ks.
Proof.
  revert s. induction ks as [| k ks IH]; intros s Hnd; cbn [foldl].
  - split; [exact Hnd |]. intros x. rewrite elem_of_nil. tauto.
  - destruct (set_add_spec s k Hnd) as [Hnd' Hin].
    destruct (IH _ Hnd') as [Hnd'' Hin'']. split; [exact Hnd'' |].
    intros x. rewrite Hin'', Hin, elem_of_cons. tauto.
Qed.

Lemma new_Set_spec (ks : list jsstring) :
  NoDup (new_Set ks) /\ forall x, x ∈ new_Set ks <-> x ∈ ks.
Proof.
  destruct (foldl_set_add_spec ks [] (NoDup_nil_2)) as [Hnd Hin].
  split; [exact Hnd |]. intros x. rewrite Hin, elem_of_nil. tauto.
Qed.

Lemma fold_set_spec (f : jsstring -> Z) (ks : list jsstring) (res : jsmap Z) :
  NoDup (keys res ++ ks) ->
  let out := foldl (fun r k => map_set r k (f k)) res ks in
  keys out = keys res ++ ks /\
  forall k, map_get out k = if bool_decide (k ∈ ks) then Some (f k) else map_get res k.
Proof.
  revert res. induction ks as [| k0 ks IH]; intros res Hnd; cbv zeta; cbn [foldl].
  - split; [now rewrite app_nil_r |]. intros k.
    rewrite bool_decide_eq_false_2 by apply not_elem_of_nil. reflexivity.
  - assert (Hk0 : k0 ∉ keys res).
    { apply NoDup_app in Hnd as (_ & Hdis & _). intros H.
      apply (Hdis k0 H). now left. }
    assert (Hnd' : NoDup (keys (map_set res k0 (f k0)) ++ ks)).
    { rewrite keys_map_set_new by exact Hk0. now rewrite <- app_assoc. }
    destruct (IH _ Hnd') as [Hkeys Hget]. cbv zeta in Hkeys, Hget. split.
    + rewrite Hkeys, keys_map_set_new by exact Hk0. now rewrite <- app_assoc.
    + intros k. rewrite Hget, map_get_set.
      assert (Hk0ks : k0 ∉ ks).
      { apply NoDup_app in Hnd as (_ & _ & Hks). now apply NoDup_cons in Hks as [? _]. }
      destruct (bool_decide (k ∈ ks)) eqn:E1.
      * rewrite bool_decide_eq_true_2; [reflexivity |].
        apply bool_decide_eq_true in E1. now right.
      * apply bool_decide_eq_false in E1.
        destruct (bool_decide (k0 = k)) eqn:E2.
        -- apply bool_decide_eq_true in E2. subst k0.
           rewrite bool_decide_eq_true_2; [reflexivity | now left].
        -- apply bool_decide_eq_false in E2.
           rewrite bool_decide_eq_false_2; [reflexivity |].
           intros H. apply elem_of_cons in H as [-> | H]; [now apply E2 | now apply E1].
Qed.

Lemma elem_map_get {V} (m : jsmap V) (k : jsstring) (v : V) :
  NoDup (keys m) -> (k, v) ∈ m -> map_get m k = Some v.
Proof.
  induction m as [| [k1 v1] m IHm]; intros Hnd Hkv.
  - now apply elem_of_nil in Hkv.
  - cbn. cbn in Hnd. apply NoDup_cons in Hnd as [Hk1 Hnd].
    apply elem_of_cons in Hkv as [Heq | Hkv].
    + injection Heq as -> ->. now rewrite bool_decide_eq_true_2.
    + rewrite bool_decide_eq_false_2; [now apply IHm |].
      intros ->. apply Hk1. apply list_elem_of_In, in_map_iff.
      exists (k, v). split; [reflexivity | now apply list_elem_of_In].
Qed.

Lemma diff_spec {T} (cnt : T -> Z) (a b : jsmap T) :
  keys (diffNumericMaps cnt a b) = new_Set (keys a ++ keys b) /\
  forall k, map_get (diffNumericMaps cnt a b) k
            = if bool_decide (k ∈ keys a ++ keys b)
              then Some (Z.max 0 (count_of cnt b k - count_of cnt a k))
              else None.
Proof.
  unfold diffNumericMaps.
  destruct (new_Set_spec (keys a ++ keys b)) as [Hnd Hin].
  destruct (fold_set_spec
              (fun k => Z.max 0 (count_of cnt b k - count_of cnt a k))
              (new_Set (keys a ++ keys b)) [] Hnd) as [Hkeys Hget].
  cbv zeta in Hkeys, Hget. cbn [keys map app] in Hkeys.
  split; [exact Hkeys |]. intros k. rewrite Hget. cbn [map_get].
  destruct (bool_decide (k ∈ keys a ++ keys b)) eqn:E.
  - apply bool_decide_eq_true in E. rewrite bool_decide_eq_true_2; [reflexivity |].
    now apply Hin.
  - apply bool_decide_eq_false in E. rewrite bool_decide_eq_false_2; [reflexivity |].
    intros H. now apply E, Hin.
Qed.

Lemma diff_entry {T} (cnt : T -> Z) (a b : jsmap T) (k : jsstring) (v : Z) :
  (k, v) ∈ diffNumericMaps cnt a b ->
  v = Z.max 0 (count_of cnt b k - count_of cnt a k).
Proof.
  intros Hkv. destruct (diff_spec cnt a b) as [Hkeys Hget].
  assert (Hnd : NoDup (keys (diffNumericMaps cnt a b)))
    by (rewrite Hkeys; apply new_Set_spec).
  pose proof (elem_map_get _ _ _ Hnd Hkv) as Hv.
  rewrite Hget in Hv.
  destruct (bool_decide (k ∈ keys a ++ keys b)); [| discriminate].
  now injection Hv as <-.
Qed.

(** X19. The difference of two counter snapshots has one entry for every
    key of either snapshot, the keys of the first in their order and then
    the new keys of the second, none twice. The entry is the increase of
    the counter, a missing counter counting as zero, and it is zero, never
    negative, when the counter fell. *)
Theorem counter_differences_are_never_negative
    {T} (cnt : T -> Z) (a b : jsmap T) :
  let d := diffNumericMaps cnt a b in
  keys d = new_Set (keys a ++ keys b) /\
  NoDup (keys d) /\
  (forall k, k ∈ keys a ++ keys b ->
     map_get d k = Some (Z.max 0 (count_of cnt b k - count_of cnt a k))) /\
  (forall k, k ∉ keys a ++ keys b -> map_get d k = None) /\
  (forall k v, (k, v) ∈ d -> 0 <= v).
Proof.
  cbv zeta. destruct (diff_spec cnt a b) as [Hkeys Hget].
  split; [exact Hkeys |]. split; [rewrite Hkeys; apply new_Set_spec |].
  split; [| split].
  - intros k Hk. now rewrite Hget, bool_decide_eq_true_2.
  - intros k Hk. now rewrite Hget, bool_decide_eq_false_2.
  - intros k v Hkv. rewrite (diff_entry cnt a b k v Hkv). lia.
Qed.

Lemma counter_differences_are_never_negative_witness :
  diffNumericMaps count irq_before irq_after
  = [ (js "17", 400); (js "23", 0); (js "31", 400) ]
  /\ map_get (diffNumericMaps count irq_before irq_after) (js "23") = Some 0.
Proof.
  split; [vm_compute; reflexivity |].
  destruct (counter_differences_are_never_negative count irq_before irq_after)
    as (_ & _ & H & _).
  rewrite (H (js "23")); [vm_compute; reflexivity |].
  vm_compute. right. left.
Defined.

Lemma hottest_of_snoc (irqB : jsmap IrqSnapshot) (m : jsmap Z) (kv : jsstring * Z) :
  hottest_of irqB (m ++ [kv])
  = let h := hottest_of irqB m in
    if delta h <? snd kv
    then mkHottest (fst kv) (snd kv) (label_of irqB (fst kv)) else h.
Proof. unfold hottest_of. now rewrite foldl_app. Qed.

(** X20. The hottest interrupt of a report is the first entry, in map
    order, among those with the largest difference, with the label the
    second snapshot has for it, provided that difference is positive. When
    no difference is positive the report names no interrupt: an empty
    name, an empty label and the difference zero. This is the case
    whenever no counter of the second snapshot exceeds its value in the
    first. *)
Theorem hottest_is_first_maximum (irqB : jsmap IrqSnapshot) (deltas : jsmap Z) :
  let h := hottest_of irqB deltas in
  (forall k d, (k, d) ∈ deltas -> d <= delta h) /\
  ((delta h = 0 /\ irq h = [] /\ hot_label h = []) \/
   (0 < delta h /\ hot_label h = label_of irqB (irq h) /\
    exists m1 m2, deltas = m1 ++ (irq h, delta h) :: m2 /\
                  forall k d, (k, d) ∈ m1 -> d < delta h)) /\
  (forall irqA,
     (forall k, count_of count irqB k <= count_of count irqA k) ->
     hottestIrq irqA irqB = mkHottest [] 0 []).
Proof.
  assert (Hloop : forall m,
    (forall k d, (k, d) ∈ m -> d <= delta (hottest_of irqB m)) /\
    ((delta (hottest_of irqB m) = 0 /\ irq (hottest_of irqB m) = [] /\
      hot_label (hottest_of irqB m) = []) \/
     (0 < delta (hottest_of irqB m) /\
      hot_label (hottest_of irqB m) = label_of irqB (irq (hottest_of irqB m)) /\
      exists m1 m2,
        m = m1 ++ (irq (hottest_of irqB m), delta (hottest_of irqB m)) :: m2 /\
        forall k d, (k, d) ∈ m1 -> d < delta (hottest_of irqB m)))).
  { induction m as [| [k0 d0] m IH] using rev_ind.
    - split; [intros k d H; now apply elem_of_nil in H |]. left. now repeat split.
    - rewrite hottest_of_snoc. cbv zeta. cbn [fst snd].
      destruct IH as [Hmax Hcase].
      destruct (Z.ltb_spec (delta (hottest_of irqB m)) d0) as [Hlt | Hge].
      + cbn [delta irq hot_label]. split.
        * intros k d H. apply elem_of_app in H as [H | H].
          -- specialize (Hmax k d H). lia.
          -- apply list_elem_of_singleton in H. injection H as -> ->. lia.
        * right. split; [| split; [reflexivity |]].
          -- destruct Hcase as [(H0 & _) | (Hpos & _)]; lia.
          -- exists m, []. split; [reflexivity |].
             intros k d H. specialize (Hmax k d H). lia.
      + split.
        * intros k d H. apply elem_of_app in H as [H | H].
          -- apply (Hmax k d H).
          -- apply list_elem_of_singleton in H. injection H as -> ->. exact Hge.
        * destruct Hcase as [H0 | (Hpos & Hlab & m1 & m2 & Hm & Hm1)]; [now left |].
          right. split; [exact Hpos |]. split; [exact Hlab |].
          exists m1, (m2 ++ [(k0, d0)]). split; [| exact Hm1].
          rewrite Hm at 1. now rewrite <- app_assoc. }
  cbv zeta. destruct (Hloop deltas) as [Hmax Hcase].
  split; [exact Hmax |]. split; [exact Hcase |].
  intros irqA Hfell. unfold hottestIrq.
  destruct (Hloop (diffNumericMaps count irqA irqB)) as [_ [(H0 & Hi & Hl) | Hpos]].
  - destruct (hottest_of irqB (diffNumericMaps count irqA irqB)) as [i d l].
    cbn in H0, Hi, Hl. now subst.
  - exfalso. destruct Hpos as (Hpos & _ & m1 & m2 & Hm & _).
    assert (Hin : (irq (hottest_of irqB (diffNumericMaps count irqA irqB)),
                   delta (hottest_of irqB (diffNumericMaps count irqA irqB)))
                  ∈ diffNumericMaps count irqA irqB).
    { rewrite Hm at 3. apply elem_of_app. right. now left. }
    apply diff_entry in Hin. specialize (Hfell
      (irq (hottest_of irqB (diffNumericMaps count irqA irqB)))). lia.
Qed.

Lemma hottest_is_first_maximum_witness :
  hottestIrq irq_before irq_after = mkHottest (js "17") 400 (js "GICv2 eth0")
  /\ hottestIrq irq_after irq_after = mkHottest [] 0 [].
Proof.
  split; [vm_compute; reflexivity |].
  destruct (hottest_is_first_maximum irq_after []) as (_ & _ & H).
  apply H. intros k. lia.
Defined.

End HotspotFacts.


(** * Device tree: register words from a [reg] file *)

Module RegFileFacts.
Import Js DeviceTreeParse.
Local Open Scope N_scope.

Lemma fixed_hex_length (k : nat) (n : N) : length (fixed_hex k n) = k.
Proof.
  revert n. induction k as [| k IH]; intros n; [reflexivity |].
  cbn [fixed_hex]. rewrite length_app, IH. cbn. lia.
Qed.

Lemma fixed_hex_zero (j : nat) : fixed_hex j 0 = repeat "0"%char j.
Proof.
  induction j as [| j IH]; [reflexivity |].
  cbn [fixed_hex]. change (0 / 16) with 0. rewrite IH.
  change [hex_digit (0 mod 16)] with (repeat "0"%char 1).
  rewrite <- repeat_app. f_equal. lia.
Qed.

Lemma fixed_hex_pad (m j : nat) (n : N) :
  n < 16 ^ N.of_nat m ->
  fixed_hex (j + m) n = repeat "0"%char j ++ fixed_hex m n.
Proof.
  revert n. induction m as [| m IH]; intros n Hn.
  - cbn in Hn. assert (n = 0) as -> by lia.
    rewrite Nat.add_0_r, fixed_hex_zero. cbn. now rewrite app_nil_r.
  - rewrite Nat.add_succ_r. cbn [fixed_hex]. rewrite IH.
    + now rewrite app_assoc.
    + rewrite Nat2N.inj_succ, N.pow_succ_r' in Hn.
      apply N.Div0.div_lt_upper_bound. lia.
Qed.

Lemma toString16_fuel_spec (fuel : nat) (n : N) (acc : jsstring) :
  (0 < fuel)%nat -> n < 16 ^ N.of_nat fuel ->
  exists m, (1 <= m <= fuel)%nat /\ n < 16 ^ N.of_nat m /\
    (m = 1%nat \/ 16 ^ N.of_nat (m - 1) <= n) /\
    toString16_fuel fuel n acc = fixed_hex m n ++ acc.
Proof.
  revert n acc. induction fuel as [| fuel IH]; intros n acc Hpos Hn; [lia |].
  cbn [toString16_fuel]. destruct (N.eqb_spec (n / 16) 0) as [Hz | Hnz].
  - exists 1%nat. split; [lia |]. split; [| split; [now left | reflexivity]].
    change (16 ^ N.of_nat 1) with 16.
    destruct (N.lt_ge_cases n 16) as [Hlt | Hge]; [exact Hlt |].
    assert (1 <= n / 16) by (apply N.div_le_lower_bound; lia). lia.
  - assert (H16 : 16 <= n).
    { destruct (N.lt_ge_cases n 16) as [Hlt | Hge]; [| exact Hge].
      rewrite N.div_small in Hnz by exact Hlt. contradiction. }
    assert (Hfuel : (0 < fuel)%nat).
    { destruct fuel; [| lia]. cbn in Hn. lia. }
    assert (Hdiv : n / 16 < 16 ^ N.of_nat fuel).
    { rewrite Nat2N.inj_succ, N.pow_succ_r' in Hn.
      apply N.Div0.div_lt_upper_bound. lia. }
    destruct (IH (n / 16) (hex_digit (n mod 16) :: acc) Hfuel Hdiv)
      as (m & Hm & Hlt & Hmin & Heq).
    exists (S m). split; [lia |]. split; [| split].
    + rewrite Nat2N.inj_succ, N.pow_succ_r'.
      pose proof (N.div_mod n 16 ltac:(lia)) as Hdm.
      pose proof (N.mod_lt n 16 ltac:(lia)). nia.
    + right. replace (S m - 1)%nat with m by lia.
      pose proof (N.div_mod n 16 ltac:(lia)) as Hdm.
      destruct Hmin as [-> | Hmin].
      * change (16 ^ N.of_nat 1) with 16. exact H16.
      * replace m with (S (m - 1)) at 1 by lia.
        rewrite Nat2N.inj_succ, N.pow_succ_r'.
        generalize dependent (16 ^ N.of_nat (m - 1)). intros P HP.
        clear - HP Hdm. revert HP Hdm.
        generalize (n / 16) (n mod 16). intros q r HP Hdm. lia.
    + rewrite Heq. cbn [fixed_hex]. now rewrite <- app_assoc.
Qed.

Lemma toString16_spec (n : N) :
  exists m, (1 <= m)%nat /\ n < 16 ^ N.of_nat m /\
    (m = 1%nat \/ 16 ^ N.of_nat (m - 1) <= n) /\
    toString16 n = fixed_hex m n.
Proof.
  unfold toString16.
  destruct (toString16_fuel_spec (N.to_nat (N.log2 n) + 1) n [])
    as (m & Hm & Hlt & Hmin & Heq).
  - lia.
  - destruct (N.eq_dec n 0) as [-> | Hne].
    + cbn. lia.
    + pose proof (N.log2_spec n ltac:(lia)) as [_ Hlog].
      eapply N.lt_le_trans; [exact Hlog |].
      replace (N.of_nat (N.to_nat (N.log2 n) + 1)) with (N.succ (N.log2 n)) by lia.
      apply N.pow_le_mono_l. lia.
  - exists m. rewrite app_nil_r in Heq.
    repeat split; [lia | exact Hlt | exact Hmin | exact Heq].
Qed.

(** A number below [2^32] padded to eight digits. *)
Lemma padStart_toString16 (n : N) :
  n < 2 ^ 32 -> padStart0 8 (toString16 n) = fixed_hex 8 n.
Proof.
  intros Hn. destruct (toString16_spec n) as (m & Hm & Hlt & Hmin & ->).
  assert (Hm8 : (m <= 8)%nat).
  { destruct Hmin as [-> | Hmin]; [lia |].
    destruct (Nat.le_gt_cases m 8) as [Hle | Hgt]; [exact Hle |].
    assert (16 ^ 8 <= 16 ^ N.of_nat (m - 1)) by (apply N.pow_le_mono_r; lia).
    change (16 ^ 8) with (2 ^ 32) in *. lia. }
  unfold padStart0. rewrite fixed_hex_length.
  replace 8%nat with ((8 - m) + m)%nat at 2 by lia.
  now rewrite fixed_hex_pad.
Qed.

Lemma fixed_hex_byte (k : nat) (x b : N) :
  b < 256 -> fixed_hex (S (S k)) (x * 256 + b) = fixed_hex k x ++ hex2 b.
Proof.
  intros Hb. cbn [fixed_hex]. unfold hex2.
  assert (H1 : (x * 256 + b) mod 16 = b mod 16).
  { replace (x * 256 + b) with (b + (x * 16) * 16) by lia.
    apply N.Div0.mod_add. }
  assert (H2 : (x * 256 + b) / 16 = x * 16 + b / 16).
  { replace (x * 256 + b) with (b + (x * 16) * 16) by lia.
    rewrite N.div_add by lia. lia. }
  assert (H3 : (x * 16 + b / 16) mod 16 = b / 16).
  { replace (x * 16 + b / 16) with (b / 16 + x * 16) by lia.
    rewrite N.Div0.mod_add. apply N.mod_small.
    apply N.Div0.div_lt_upper_bound. lia. }
  assert (H4 : (x * 16 + b / 16) / 16 = x).
  { replace (x * 16 + b / 16) with (b / 16 + x * 16) by lia.
    rewrite N.div_add by lia. rewrite (N.div_small (b / 16)); [lia |].
    apply N.Div0.div_lt_upper_bound. lia. }
  rewrite H1, H2, H3, H4. now rewrite <- app_assoc.
Qed.

Lemma word_hex (b0 b1 b2 b3 : N) :
  b0 < 256 -> b1 < 256 -> b2 < 256 -> b3 < 256 ->
  padStart0 8 (toString16 (b0 * 2 ^ 24 + b1 * 2 ^ 16 + b2 * 2 ^ 8 + b3))
  = hex2 b0 ++ hex2 b1 ++ hex2 b2 ++ hex2 b3.
Proof.
  intros H0 H1 H2 H3.
  rewrite padStart_toString16
    by (change (2 ^ 32) with 4294967296; change (2 ^ 24) with 16777216;
        change (2 ^ 16) with 65536; change (2 ^ 8) with 256; lia).
  replace (b0 * 2 ^ 24 + b1 * 2 ^ 16 + b2 * 2 ^ 8 + b3)
    with (((((0 * 256 + b0) * 256 + b1) * 256) + b2) * 256 + b3)
    by (change (2 ^ 24) with 16777216; change (2 ^ 16) with 65536;
        change (2 ^ 8) with 256; lia).
  rewrite !fixed_hex_byte by assumption. cbn [fixed_hex app].
  now rewrite <- !app_assoc.
Qed.

Lemma parseRegFile_from_spec (buf : list N) (fuel i : nat) :
  Forall is_byte buf ->
  (length buf - i < 4 * fuel + 4)%nat ->
  parseRegFile_from fuel buf i
  = map (fun j => js "0x" ++ concat (map hex2 (word_bytes buf (i + 4 * j))))
        (seq 0 ((length buf - i) / 4)).
Proof.
  intros Hbytes. revert i. induction fuel as [| fuel IH]; intros i Hfuel.
  - cbn [parseRegFile_from]. rewrite Nat.div_small by lia. reflexivity.
  - cbn [parseRegFile_from]. destruct (Nat.leb_spec (i + 4) (length buf)) as [Hle | Hgt].
    + replace (length buf - i)%nat with (length buf - (i + 4) + 1 * 4)%nat by lia.
      rewrite Nat.div_add by lia. rewrite Nat.add_1_r. cbn [seq map].
      rewrite IH by lia. rewrite <- seq_shift, map_map. f_equal.
      * f_equal. rewrite Nat.mul_0_r, Nat.add_0_r. unfold readUInt32BE, word_bytes.
        destruct (drop i buf) as [| b0 [| b1 [| b2 [| b3 rest]]]] eqn:E;
          try (apply (f_equal length) in E; rewrite length_drop in E; cbn in E; lia).
        assert (Hb : Forall is_byte [b0; b1; b2; b3]).
        { apply (Forall_drop _ i) in Hbytes. rewrite E in Hbytes.
          apply (Forall_take _ 4) in Hbytes. exact Hbytes. }
        assert (Hl : forall j, buf !! (i + j)%nat = (b0 :: b1 :: b2 :: b3 :: rest) !! j).
        { intros j. rewrite <- E. now rewrite lookup_drop. }
        rewrite <- (Nat.add_0_r i) at 1. rewrite !Hl. cbn [lookup list_lookup default].
        cbn [take concat map]. rewrite app_nil_r.
        apply Forall_cons in Hb as [H0 Hb]. apply Forall_cons in Hb as [H1 Hb].
        apply Forall_cons in Hb as [H2 Hb]. apply Forall_cons in Hb as [H3 _].
        now apply word_hex.
      * apply map_ext. intros j.
        now replace (i + 4 + 4 * j)%nat with (i + 4 * S j)%nat by lia.
    + rewrite Nat.div_small by lia. reflexivity.
Qed.

(** X21. The register words read from a [reg] file are its complete
    groups of four bytes, in order, each shown as [0x] and exactly eight
    lower-case hexadecimal digits, two per byte with the first byte
    leading; leading zeros are kept, and up to three bytes left over at the
    end are ignored. *)
Theorem reg_words_are_eight_hex_digits (buf : list N) :
  Forall is_byte buf ->
  parseRegFile buf
  = map (fun j => js "0x" ++ concat (map hex2 (word_bytes buf (4 * j))))
        (seq 0 (length buf / 4)) /\
  length (parseRegFile buf) = (length buf / 4)%nat /\
  Forall (fun w => length w = 10%nat) (parseRegFile buf).
Proof.
  intros Hbytes.
  assert (Heq : parseRegFile buf
    = map (fun j => js "0x" ++ concat (map hex2 (word_bytes buf (4 * j))))
          (seq 0 (length buf / 4))).
  { unfold parseRegFile. rewrite parseRegFile_from_spec by (assumption || lia).
    now rewrite Nat.sub_0_r. }
  split; [exact Heq |]. split.
  - rewrite Heq, length_map, length_seq. reflexivity.
  - rewrite Heq. apply Forall_forall. intros w Hw.
    apply list_elem_of_In, in_map_iff in Hw as (j & <- & Hj).
    apply in_seq in Hj. unfold word_bytes.
    assert (Hlen : length (take 4 (drop (4 * j) buf)) = 4%nat).
    { rewrite length_take, length_drop.
      pose proof (Nat.div_mod_eq (length buf) 4). lia. }
    destruct (take 4 (drop (4 * j) buf)) as [| b0 [| b1 [| b2 [| b3 [| ? ?]]]]];
      try discriminate. reflexivity.
Qed.

Lemma reg_words_are_eight_hex_digits_witness :
  parseRegFile [254; 32; 16; 0; 0; 0; 2; 0; 7]%N
  = [js "0xfe201000"; js "0x00000200"].
Proof.
  destruct (reg_words_are_eight_hex_digits [254; 32; 16; 0; 0; 0; 2; 0; 7]%N)
    as (H & _).
  - repeat constructor.
  - rewrite H. vm_compute. reflexivity.
Defined.

End RegFileFacts.


(** * Device info: the sections of the diagnostic *)

Module DiagnosticFacts.
Import Js Session Diagnostic DeviceTreeParse.
Import JsFacts LineFacts SplitFacts DeviceTreeFacts.

Lemma findIndex_from_skip {A} (p : A -> bool) (pre : list A) (x : A)
    (rest : list A) (i : nat) :
  Forall (fun y => p y = false) pre -> p x = true ->
  findIndex_from (fun l _ => p l) (pre ++ x :: rest) i = Some (i + length pre)%nat.
Proof.
  intros Hpre Hx. revert i. induction Hpre as [| y pre Hy _ IH]; intros i; cbn.
  - rewrite Hx. f_equal. lia.
  - rewrite Hy, IH. f_equal. lia.
Qed.

Lemma findIndex_from_none {A} (p : A -> bool) (l : list A) (i : nat) :
  Forall (fun y => p y = false) l ->
  findIndex_from (fun l _ => p l) l i = None.
Proof.
  intros H. revert i. induction H as [| y l Hy _ IH]; intros i; cbn;
    [reflexivity |]. now rewrite Hy.
Qed.

Lemma seekMarker_found (marker : jsstring) (pre : list jsstring) (m : jsstring)
    (rest : list jsstring) :
  without marker pre -> includes marker m = true ->
  seekMarker marker (pre ++ m :: rest) = rest.
Proof.
  intros Hpre Hm. unfold seekMarker, findIndex.
  rewrite (findIndex_from_skip (includes marker) pre m rest 0 Hpre Hm).
  cbn [Nat.add].
  replace (length pre + 1)%nat with (length (pre ++ [m]))
    by (rewrite length_app; reflexivity).
  change (pre ++ m :: rest) with (pre ++ [m] ++ rest).
  now rewrite app_assoc, drop_app_length.
Qed.

Lemma seekMarker_head (marker m : jsstring) (rest : list jsstring) :
  includes marker m = true -> seekMarker marker (m :: rest) = rest.
Proof. intros Hm. now apply (seekMarker_found marker [] m rest (Forall_nil_2 _)). Qed.

Lemma seekMarker_missing (marker : jsstring) (ls : list jsstring) :
  without marker ls -> seekMarker marker ls = ls.
Proof.
  intros H. unfold seekMarker, findIndex.
  now rewrite (findIndex_from_none (includes marker) ls 0 H).
Qed.

Lemma take_section_found (stop : jsstring) (sec : list jsstring) (m : jsstring)
    (rest : list jsstring) :
  without stop sec -> includes stop m = true ->
  take_section stop (sec ++ m :: rest) = (sec, m :: rest).
Proof.
  intros Hsec Hm. induction Hsec as [| l sec Hl _ IH]; cbn.
  - now rewrite Hm.
  - now rewrite Hl, IH.
Qed.

Lemma take_section_missing (stop : jsstring) (ls : list jsstring) :
  without stop ls -> take_section stop ls = (ls, []).
Proof.
  intros H. induction H as [| l ls Hl _ IH]; cbn; [reflexivity |].
  now rewrite Hl, IH.
Qed.

Lemma take_section_spec (stop : jsstring) (ls : list jsstring) :
  let '(acc, remaining) := take_section stop ls in
  ls = acc ++ remaining /\ without stop acc /\
  match remaining with
  | [] => True
  | l :: _ => includes stop l = true
  end.
Proof.
  induction ls as [| l ls IH]; cbn.
  - repeat split. constructor.
  - destruct (includes stop l) eqn:E.
    + repeat split; [constructor | exact E].
    + destruct (take_section stop ls) as [acc remaining].
      destruct IH as (-> & Hacc & Hrem).
      repeat split; [now constructor | exact Hrem].
Qed.

(** *** From the payload to the lines that count *)

Lemma line_ok_line (l : jsstring) :
  line_ok l -> (LF ∉ l) /\ last l <> Some CR.
Proof.
  intros (_ & Hlf & Hfix). split; [exact Hlf |].
  pose proof (trimEnd_fix_last _ Hfix) as Hl.
  intros Hlast. apply last_Some in Hlast as (s' & Hs').
  rewrite Hs', rev_app_distr in Hl. vm_compute in Hl. discriminate.
Qed.

(** The payload is the buffered lines joined with line feeds; splitting
    it gives the lines back. *)
Lemma parse_payload (payload : list jsstring) :
  Forall line_ok payload ->
  parseDiagnostic (join [LF] payload) = parse_lines (shown payload).
Proof.
  intros H. unfold parseDiagnostic, shown. cbv zeta.
  destruct payload as [| l ls]; [reflexivity |].
  rewrite split_lines_join; [reflexivity |].
  eapply Forall_impl; [exact H |]. intros x Hx. now apply line_ok_line.
Qed.

Lemma sections_round_trip (pre mem storage usb_ net : list jsstring) :
  without (js "---MEM---") pre -> without (js "---STORAGE---") mem ->
  without (js "---USB---") storage -> without (js "---NET---") usb_ ->
  split_sections (diag_output pre mem storage usb_ net)
  = mkSections mem storage usb_ net.
Proof.
  intros Hpre Hmem Hsto Husb.
  unfold split_sections, diag_output. cbn [app].
  rewrite (seekMarker_found _ pre) by (exact Hpre || reflexivity).
  rewrite (take_section_found _ mem) by (exact Hmem || reflexivity).
  rewrite seekMarker_head by reflexivity.
  rewrite (take_section_found _ storage) by (exact Hsto || reflexivity).
  rewrite seekMarker_head by reflexivity.
  rewrite (take_section_found _ usb_) by (exact Husb || reflexivity).
  rewrite seekMarker_head by reflexivity.
  reflexivity.
Qed.

Lemma shown_kept (payload : list jsstring) :
  Forall (fun l => kept l = true /\ trim l = l) (shown payload).
Proof.
  unfold shown. apply Forall_forall. intros l Hl.
  apply list_elem_of_filter in Hl as [Hk Hl]. split; [exact Hk |].
  apply list_elem_of_In, in_map_iff in Hl as (x & <- & _). apply trim_idem.
Qed.

(** What the filter and the two patterns do on sample lines: the echo of
    a command and an [awk] message are dropped, also a line of output that
    happens to begin with one of the command words in either case; the
    architecture is found at the end of the first line in either case. *)
Example filter_and_patterns :
  kept (js "free -h") = false /\
  kept (js "Free memory: 2.1Gi") = false /\
  kept (js "> sh /tmp/diag.sh") = false /\
  kept (js "lsusb: command not found") = false /\
  kept (js "awk: not found") = false /\
  kept (js "freedom") = true /\
  kept (js "Mem: 3.7Gi") = true /\
  kept (js "---MEM---") = true /\
  arch_index (js "Foo Boardaarch64") = Some 9%nat /\
  arch_index (js "ARMv7L") = Some 0%nat /\
  arch_index (js "armv7x") = None /\
  arch_index (js "i786") = None /\
  arch_index (js "risc-v riscv64") = Some 7%nat /\
  distro_of (js "PRETTY_NAME=Debian GNU/Linux 11") = js "Debian GNU/Linux 11" /\
  distro_of (js "PRETTY_NAME=" ++ [ascii_of_nat 34] ++ js "Debian"
             ++ [ascii_of_nat 34]) = js "Debian" ++ [ascii_of_nat 34] /\
  distro_of (js "Debian GNU/Linux 11") = js "Debian GNU/Linux 11".
Proof. repeat split; vm_compute; reflexivity. Qed.

(** X22. The payload of the device-info request is the buffered lines
    between the markers, joined with line feeds. [parseDiagnostic] trims
    every line and drops the empty ones, those that begin with [awk:] and
    those that begin like an echoed command; the lines that are left are
    read in order: model, architecture, kernel, distribution and uptime,
    then the four sections, each behind its marker line. When these lines
    are laid out as the script prints them the result holds them field for
    field and section for section, the distribution without a leading
    [PRETTY_NAME=]; what precedes the first marker is dropped. When the
    first line ends in an architecture name the model is what precedes
    it, or [(unknown)], and the next line is taken for the kernel. When no
    line left includes the storage marker the first section takes every
    line behind the memory marker and the three others are empty. *)
Theorem diagnostic_sections_round_trip (payload : list jsstring) :
  Forall line_ok payload ->
  parseDiagnostic (join [LF] payload) = parse_lines (shown payload) /\
  Forall (fun l => kept l = true /\ trim l = l) (shown payload) /\
  (forall model_ arch_ kernel_ distro_ uptime_ pre mem storage usb_ net,
     shown payload
       = [model_; arch_; kernel_; distro_; uptime_]
         ++ diag_output pre mem storage usb_ net ->
     arch_index model_ = None ->
     without (js "---MEM---") pre -> without (js "---STORAGE---") mem ->
     without (js "---USB---") storage -> without (js "---NET---") usb_ ->
     parseDiagnostic (join [LF] payload)
       = mkDiagnostic (mkIdentity model_ arch_ kernel_ (distro_of distro_)) uptime_
           (join [LF] mem) (join [LF] storage) (join [LF] usb_) (join [LF] net)) /\
  (forall first i kernel_ distro_ uptime_ pre mem storage usb_ net,
     shown payload
       = [first; kernel_; distro_; uptime_]
         ++ diag_output pre mem storage usb_ net ->
     arch_index first = Some i ->
     without (js "---MEM---") pre -> without (js "---STORAGE---") mem ->
     without (js "---USB---") storage -> without (js "---NET---") usb_ ->
     parseDiagnostic (join [LF] payload)
       = mkDiagnostic
           (mkIdentity
              (match trim (take i first) with
               | [] => js "(unknown)"
               | m => m
               end)
              (drop i first) kernel_ (distro_of distro_)) uptime_
           (join [LF] mem) (join [LF] storage) (join [LF] usb_) (join [LF] net)) /\
  (forall model_ arch_ kernel_ distro_ uptime_ rest,
     shown payload = [model_; arch_; kernel_; distro_; uptime_] ++ rest ->
     arch_index model_ = None ->
     without (js "---STORAGE---") rest ->
     let d := parseDiagnostic (join [LF] payload) in
     memSummary d = join [LF] (seekMarker (js "---MEM---") rest) /\
     root d = [] /\ usb d = [] /\ ifaces d = []).
Proof.
  intros H. pose proof (parse_payload payload H) as Hp.
  split; [exact Hp |]. split; [apply shown_kept |]. split; [| split].
  - intros model_ arch_ kernel_ distro_ uptime_ pre mem storage usb_ net
      Hshown Harch Hpre Hmem Hsto Husb.
    rewrite Hp, Hshown. unfold parse_lines. cbn [app next]. rewrite Harch.
    cbn [next]. now rewrite sections_round_trip.
  - intros first i kernel_ distro_ uptime_ pre mem storage usb_ net
      Hshown Harch Hpre Hmem Hsto Husb.
    rewrite Hp, Hshown. unfold parse_lines. cbn [app next]. rewrite Harch.
    cbv zeta. cbn [next]. rewrite sections_round_trip by assumption.
    now destruct (trim (take i first)).
  - intros model_ arch_ kernel_ distro_ uptime_ rest Hshown Harch Hno. cbv zeta.
    rewrite Hp, Hshown. unfold parse_lines. cbn [app next]. rewrite Harch.
    cbn [next]. unfold split_sections.
    assert (Hseek : without (js "---STORAGE---") (seekMarker (js "---MEM---") rest)).
    { unfold seekMarker. destruct (findIndex _ rest); [| exact Hno].
      now apply Forall_drop. }
    rewrite (take_section_missing _ _ Hseek). repeat split.
Qed.

Lemma diagnostic_sections_round_trip_witness :
  parseDiagnostic (join [LF] board_payload)
  = mkDiagnostic
      (mkIdentity (js "Raspberry Pi 4 Model B Rev 1.4") (js "aarch64")
         (js "6.1.21-v8+")
         (distro_of ([ascii_of_nat 34] ++ js "Debian GNU/Linux 11 (bullseye)"
                     ++ [ascii_of_nat 34])))
      (js "up 3 hours, 12 minutes")
      (join [LF] [ js "total        used        free";
                   js "Mem:           3.7Gi       1.2Gi       2.1Gi" ])
      (join [LF] [ js "/dev/root        29G  4.1G   24G  15% /" ])
      (join [LF] [])
      (join [LF] [ js "eth0:192.168.1.7/24" ]).
Proof.
  refine (proj1 (proj2 (proj2 (diagnostic_sections_round_trip board_payload _)))
            _ _ _ _ _ [] _ _ _ _ _ _ _ _ _ _).
  - repeat constructor; try discriminate; try (vm_compute; reflexivity);
      vm_compute; intros H;
      repeat (apply elem_of_cons in H as [H | H]; [discriminate H |]);
      now apply elem_of_nil in H.
  - vm_compute. reflexivity.
  - vm_compute. reflexivity.
  - constructor.
  - repeat constructor.
  - repeat constructor.
  - constructor.
Defined.

End DiagnosticFacts.


(** * Across sessions *)

Module ReconnectFacts.
Import Js Cli JsFacts CliFacts CliClaims Session SessionFacts SplitFacts.

Lemma ring_serial_connect (args : option jsstring) (st : State) :
  ring (serial_connect args st) = ring st.
Proof.
  unfold serial_connect, ring, disconnect_serial, stop_worker. cbv zeta.
  cbn [serial set_serialHintShown].
  destruct (SerialConsole.connect_throws _ _); destruct (serial st); reflexivity.
Qed.

Lemma ring_serial_disconnect (st : State) :
  ring (serial_disconnect st) = ring st.
Proof.
  unfold serial_disconnect, ring, disconnect_serial, stop_worker. cbv zeta.
  destruct (serial st); reflexivity.
Qed.

Lemma ring_set_serial (c : option SerialConsole.t) (st : State) :
  ring (set_serial c st) = ring st.
Proof. reflexivity. Qed.

Lemma serial_serial_connect (args : option jsstring) (st : State) :
  exists c, serial (serial_connect args st) = Some c.
Proof.
  unfold serial_connect. cbv zeta.
  destruct (SerialConsole.connect_throws _ _); eexists; reflexivity.
Qed.

Lemma search_newline_from_CRLF (s : jsstring) (i : nat) :
  LF ∉ s -> search_newline_from (s ++ [CR; LF]) i = Some (i + length s)%nat.
Proof.
  revert i. induction s as [| c s IH]; intros i Hlf.
  - cbn. rewrite (bool_decide_eq_false_2 (CR = LF)) by (vm_compute; discriminate).
    rewrite (bool_decide_eq_true_2 (CR = CR)) by reflexivity.
    rewrite bool_decide_eq_true_2 by reflexivity. cbn. f_equal. lia.
  - apply not_elem_of_cons in Hlf as [Hc Hs]. cbn [app search_newline_from].
    rewrite bool_decide_eq_false_2 by congruence.
    assert (Hhead : bool_decide (c = CR)
                    && bool_decide (head (s ++ [CR; LF]) = Some LF) = false).
    { destruct s as [| d s]; cbn [app head].
      - rewrite (bool_decide_eq_false_2 (Some CR = Some LF))
          by (intros E; injection E as E; vm_compute in E; discriminate).
        apply andb_false_r.
      - rewrite (bool_decide_eq_false_2 (Some d = Some LF)).
        + apply andb_false_r.
        + intros E. injection E as ->. apply Hs. now left. }
    rewrite Hhead, IH by exact Hs. f_equal. cbn. lia.
Qed.

Lemma ring_drain_nil (n : nat) (lg : list jsstring) (f : Z) :
  ring_drain n (lg, f, []) = (lg, f, []).
Proof. destruct n; reflexivity. Qed.

Lemma ring_push_nil (line : jsstring) (lg : list jsstring) (f : Z) :
  exists lg' f', ring_push line (lg, f, []) = (lg', f', []).
Proof.
  unfold ring_push. destruct (0 <? length line)%nat; [| eauto].
  cbv zeta. destruct (_ <? _)%nat; eauto.
Qed.

(** One complete line behind a pending fragment. *)
Lemma ring_feed_line (lg : list jsstring) (f : Z) (p l : jsstring) :
  LF ∉ p -> LF ∉ l ->
  ring_feed (l ++ [LF]) (lg, f, p) = ring_push (trimEnd (p ++ l)) (lg, f, []).
Proof.
  intros Hp Hl.
  assert (Hs : LF ∉ p ++ l) by (rewrite elem_of_app; tauto).
  unfold ring_feed. rewrite app_assoc. set (s := p ++ l) in *.
  assert (Hstep : ring_step (lg, f, s ++ [LF])
                  = Some (ring_push (trimEnd s) (lg, f, []))).
  { destruct (rev s) as [| c r] eqn:E.
    - apply (f_equal (@rev ascii)) in E. rewrite rev_involutive in E. cbn in E.
      rewrite E. reflexivity.
    - apply (f_equal (@rev ascii)) in E. rewrite rev_involutive in E. cbn in E.
      destruct (decide (c = CR)) as [-> | Hc].
      + (* the line ends in a carriage return *)
        assert (Hr : LF ∉ rev r).
        { intros H. apply Hs. rewrite E. apply elem_of_app. now left. }
        rewrite E, <- app_assoc. cbn [app]. unfold ring_step, search_newline.
        rewrite (search_newline_from_CRLF _ 0 Hr). cbn [Nat.add].
        rewrite (list_lookup_middle (rev r) [LF] CR (length (rev r)) eq_refl).
        rewrite bool_decide_eq_true_2 by reflexivity.
        replace (rev r ++ [CR; LF]) with ((rev r ++ [CR]) ++ [LF])
          by now rewrite <- app_assoc.
        rewrite (list_lookup_middle (rev r ++ [CR]) [] LF (S (length (rev r))))
          by (rewrite length_app; cbn; lia).
        rewrite bool_decide_eq_true_2 by reflexivity. cbn [andb].
        rewrite slice_prefix, slice_from_of_nat.
        rewrite <- app_assoc. rewrite take_app_length.
        replace (length (rev r) + 2)%nat with (length (rev r ++ [CR; LF]))
          by (rewrite length_app; reflexivity).
        rewrite drop_all.
        now rewrite (trimEnd_snoc_ws (rev r) CR eq_refl).
      + assert (Hlast : last s <> Some CR).
        { rewrite E, last_snoc. congruence. }
        unfold ring_step, search_newline.
        rewrite (DeviceTreeFacts.search_newline_from_line s [] 0 Hs Hlast).
        cbn [Nat.add].
        rewrite (list_lookup_middle s [] LF (length s) eq_refl).
        rewrite (bool_decide_eq_false_2 (Some LF = Some CR))
          by (intros X; injection X as X; vm_compute in X; discriminate).
        cbn [andb].
        rewrite slice_prefix, slice_from_of_nat, take_app_length.
        replace (length s + 1)%nat with (length (s ++ [LF]))
          by (rewrite length_app; reflexivity).
        now rewrite drop_all. }
  destruct (length (s ++ [LF])) as [| n] eqn:El.
  - rewrite length_app in El. cbn in El. lia.
  - cbn [ring_drain]. rewrite Hstep.
    destruct (ring_push_nil (trimEnd s) lg f) as (lg' & f' & ->).
    apply ring_drain_nil.
Qed.

(** X23. The pending partial line and the saved command-start index
    belong to the process, not to the session: neither [/serial
    disconnect] nor [/serial connect] resets them, and the log buffer is
    kept as well. So the first line of a new session is logged glued to
    the fragment the previous session left behind, trimmed at its end. *)
Theorem partial_line_survives_reconnect
    (st : State) (args : option jsstring) (l : jsstring) :
  (LF ∉ partialSerialLine st) -> (LF ∉ l) ->
  let st1 := run (reconnect args []) st in
  let st2 := run (reconnect args (l ++ [LF])) st in
  ring st1 = ring st /\
  ring st2 = ring_push (trimEnd (partialSerialLine st ++ l))
               (logs st, lastCommandStartIdx st, []).
Proof.
  intros Hp Hl. cbv zeta.
  assert (Hrun : forall data,
    ring (run (reconnect args data) st) = ring_feed data (ring st)).
  { intros data. unfold reconnect, run. cbn [foldl].
    change (step st (Command (Some (js "disconnect")) None))
      with (serial_disconnect st).
    change (step (serial_disconnect st) (Command (Some (js "connect")) args))
      with (serial_connect args (serial_disconnect st)).
    destruct (serial_serial_connect args (serial_disconnect st)) as (c & Hc).
    cbn [step]. rewrite Hc. cbn [serial set_serial].
    rewrite ring_on_data, !ring_set_serial.
    now rewrite ring_serial_connect, ring_serial_disconnect. }
  split.
  - rewrite Hrun. unfold ring, ring_feed. rewrite app_nil_r.
    destruct (length (partialSerialLine st)) as [| n]; [reflexivity |].
    cbn [ring_drain]. unfold ring_step, search_newline.
    now rewrite (DeviceTreeFacts.search_newline_from_no_LF _ 0 Hp).
  - rewrite Hrun. unfold ring at 1. now apply ring_feed_line.
Qed.

Lemma partial_line_survives_reconnect_witness :
  let st := run [PortData (js "root@old:~# ")] five_lines in
  ring (run (reconnect (Some (js "/dev/ttyUSB1 9600")) (js "login: " ++ [LF])) st)
  = ring_push (trimEnd (partialSerialLine st ++ js "login: "))
      (logs st, lastCommandStartIdx st, []).
Proof.
  cbv zeta.
  apply (partial_line_survives_reconnect
           (run [PortData (js "root@old:~# ")] five_lines)
           (Some (js "/dev/ttyUSB1 9600")) (js "login: ")).
  - vm_compute. intros H. repeat (apply elem_of_cons in H as [H | H]; [discriminate H |]).
    now apply elem_of_nil in H.
  - vm_compute. intros H. repeat (apply elem_of_cons in H as [H | H]; [discriminate H |]).
    now apply elem_of_nil in H.
Defined.

(** X24. In a state the process can reach, the number in 'Summarizing N
    captured lines ...' is the number of lines handed to the model, except
    that it is 1 when there are none; the preview of the debug message is
    the first twenty of these lines. *)
Theorem summarize_counts_lines (st : State) (args : option jsstring) :
  reachable st ->
  linesCount args st = Nat.max 1 (length (summarize_lines args st)) /\
  previewLines args st = join [LF] (take 20 (summarize_lines args st)).
Proof.
  intros [ins ->].
  destruct (run_well_formed ins init init_well_formed) as [Hlines _].
  set (st := run ins init) in *.
  assert (Hfree : Forall (fun x => LF ∉ x) (summarize_lines args st)).
  { unfold summarize_lines, slice_from. apply Forall_drop.
    eapply Forall_impl; [exact Hlines |]. cbn. intros x (_ & Hx & _). exact Hx. }
  unfold linesCount, previewLines, logsToSummarize.
  destruct (summarize_lines args st) as [| x xs].
  - split; reflexivity.
  - rewrite split_join_char by exact Hfree. split.
    + cbn [length]. lia.
    + now rewrite (slice_prefix _ 20).
Qed.

Lemma summarize_counts_lines_witness :
  linesCount None five_lines = 5%nat /\ linesCount None init = 1%nat.
Proof.
  split.
  - destruct (summarize_counts_lines five_lines None) as [H _].
    + exists
        [Command (Some (js "connect")) (Some (js "/dev/ttyUSB0 115200"));
         PortOpen;
         PortData [ "a"%char; LF; "b"%char; LF; "c"%char; CR; LF ];
         PortData [ "d"%char; LF; "e"%char; LF ]].
      reflexivity.
    + rewrite H. vm_compute. reflexivity.
  - vm_compute. reflexivity.
Defined.

Lemma connect_throws_new (port : jsstring) :
  SerialConsole.connect_throws port SerialConsole.new = bool_decide (port = []).
Proof. reflexivity. Qed.

Lemma split_blank_first (rest : jsstring) :
  exists more, split (js " ") (" "%char :: rest) = [] :: more.
Proof.
  change (js " ") with [" "%char]. unfold split. cbn [length split_fuel].
  assert (Hi : indexOf [" "%char] (" "%char :: rest) 0 = Some 0%nat)
    by apply (indexOf_char_skip " "%char [] rest), not_elem_of_nil.
  rewrite Hi. cbn [take]. eauto.
Qed.

(** X25. [/serial connect] takes its port and speed from the pieces of its
    argument between single blanks: with one blank the speed is the number
    the second piece starts with, or not a number when it starts with
    none; with no second piece, or an empty one as two blanks in a row
    give, the speed is 115200. For a non-empty port the new console has a
    port that is not open yet, the port name is saved in
    [GEMINI_SERIAL_PORT] as given and the console is published as
    [GEMINI_ACTIVE_SERIAL]. With an empty port name, which a missing
    argument, an empty one and one that begins with a blank give, creating
    the port throws: the new console has no port, and the saved port name
    and the published console are left as they were. A console of an
    earlier session is dropped in both cases. *)
Theorem connect_reads_port_and_speed (st : State) (port speed : jsstring) :
  port <> [] -> (" "%char ∉ port) -> (" "%char ∉ speed) ->
  let baud := match speed with [] => Some 115200 | _ => parseInt10 speed end in
  let st' := serial_connect (Some (port ++ js " " ++ speed)) st in
  (serial st'
   = Some (SerialConsole.connect port baud SerialConsole.new) /\
   SerialConsole.connect port baud SerialConsole.new
   = SerialConsole.mk (Some (SerialConsole.mkPort port baud [] false)) false [] /\
   env st' !! "GEMINI_SERIAL_PORT"%string = Some port /\
   globalThis st' !! "GEMINI_ACTIVE_SERIAL"%string = Some SerialObj) /\
  (forall rest,
     serial (serial_connect (Some (port ++ js "  " ++ rest)) st)
     = Some (SerialConsole.connect port (Some 115200) SerialConsole.new)) /\
  serial (serial_connect (Some port) st)
  = Some (SerialConsole.connect port (Some 115200) SerialConsole.new) /\
  (forall args rest,
     args = None \/ args = Some [] \/ args = Some (" "%char :: rest) ->
     serial (serial_connect args st) = Some SerialConsole.new /\
     SerialConsole.port SerialConsole.new = None /\
     env (serial_connect args st) = env st /\
     globalThis (serial_connect args st) = globalThis st /\
     serialWorker (serial_connect args st) = Some []).
Proof.
  intros Hne Hport Hspeed. cbv zeta.
  assert (H1 : split (js " ") (port ++ js " " ++ speed) = [port; speed]).
  { change (js " ") with [" "%char].
    change (port ++ [" "%char] ++ speed) with (join [" "%char] [port; speed]).
    apply split_join_char. now repeat constructor. }
  assert (H2 : forall rest, exists more,
             split (js " ") (port ++ js "  " ++ rest) = port :: [] :: more).
  { intros rest. change (js " ") with [" "%char].
    change (js "  ") with [" "%char; " "%char]. unfold split.
    rewrite length_app. cbn [length app]. rewrite Nat.add_succ_r.
    cbn [split_fuel]. rewrite indexOf_char_skip by exact Hport.
    rewrite take_app_length.
    replace (length port + length [" "%char])%nat with (length (port ++ [" "%char]))
      by now rewrite length_app.
    change (port ++ " "%char :: " "%char :: rest)
      with (port ++ [" "%char] ++ " "%char :: rest).
    rewrite app_assoc, drop_app_length.
    rewrite Nat.add_succ_r. cbn [split_fuel].
    assert (Hi : indexOf [" "%char] (" "%char :: rest) 0 = Some 0%nat)
      by apply (indexOf_char_skip " "%char [] rest), not_elem_of_nil.
    rewrite Hi. cbn [take]. eauto. }
  assert (H3 : split (js " ") port = [port]).
  { change (js " ") with [" "%char].
    change port with (join [" "%char] [port]) at 1.
    apply split_join_char. now repeat constructor. }
  assert (Hok : SerialConsole.connect_throws port SerialConsole.new = false).
  { rewrite connect_throws_new. now apply bool_decide_eq_false. }
  assert (Hnew : forall b, SerialConsole.connect port b SerialConsole.new
                 = SerialConsole.mk
                     (Some (SerialConsole.mkPort port b [] false)) false []).
  { intros b. unfold SerialConsole.connect, SerialConsole.new_port_throws.
    cbn [SerialConsole.isOpen SerialConsole.new].
    now rewrite bool_decide_eq_false_2 by exact Hne. }
  unfold serial_connect. cbv zeta. cbn [from_option]. unfold id.
  split; [| split; [| split]].
  - rewrite H1. cbn [lookup list_lookup from_option]. unfold id. rewrite Hok.
    cbn [serial set_serial set_serialWorker set_env set_globalThis
         env globalThis].
    split; [destruct speed; reflexivity |]. split; [apply Hnew |].
    split; apply lookup_insert_eq.
  - intros rest. destruct (H2 rest) as (more & ->).
    cbn [lookup list_lookup from_option]. unfold id. rewrite Hok. reflexivity.
  - rewrite H3. cbn [lookup list_lookup from_option]. unfold id. rewrite Hok.
    reflexivity.
  - intros args rest Hargs.
    assert (Hs : exists more,
               split (js " ") (from_option (fun x => x) [] args) = [] :: more).
    { destruct Hargs as [-> | [-> | ->]]; [now exists [] | now exists [] |].
      apply split_blank_first. }
    destruct Hs as (more & ->).
    cbn [lookup list_lookup from_option].
    rewrite connect_throws_new, bool_decide_eq_true_2 by reflexivity.
    unfold disconnect_serial, stop_worker. cbn [serial set_serialHintShown].
    destruct (serial st); repeat split; reflexivity.
Qed.

Lemma connect_reads_port_and_speed_witness :
  serial (serial_connect (Some (js "/dev/ttyUSB0 9600")) init)
  = Some (SerialConsole.connect (js "/dev/ttyUSB0") (Some 9600) SerialConsole.new)
  /\ serial (serial_connect (Some (js "/dev/ttyUSB0  9600")) init)
  = Some (SerialConsole.connect (js "/dev/ttyUSB0") (Some 115200) SerialConsole.new)
  /\ env (serial_connect (Some (js " 9600")) five_lines) = env five_lines.
Proof.
  destruct (connect_reads_port_and_speed init (js "/dev/ttyUSB0") (js "9600"))
    as ((H1 & _) & H2 & _).
  - discriminate.
  - vm_compute. intros H. repeat (apply elem_of_cons in H as [H | H]; [discriminate H |]).
    now apply elem_of_nil in H.
  - vm_compute. intros H. repeat (apply elem_of_cons in H as [H | H]; [discriminate H |]).
    now apply elem_of_nil in H.
  - split; [exact H1 |]. split; [exact (H2 (js "9600")) |].
    destruct (connect_reads_port_and_speed five_lines (js "/dev/ttyUSB0") (js "9600"))
      as (_ & _ & _ & H4).
    + discriminate.
    + vm_compute. intros H. repeat (apply elem_of_cons in H as [H | H]; [discriminate H |]).
      now apply elem_of_nil in H.
    + vm_compute. intros H. repeat (apply elem_of_cons in H as [H | H]; [discriminate H |]).
      now apply elem_of_nil in H.
    + destruct (H4 (Some (js " 9600")) (js "9600")) as (_ & _ & He & _);
        [right; right; reflexivity | exact He].
Defined.

End ReconnectFacts.
